(** * ioping: the sampling loop and its online statistics

    A shallow embedding of the measuring loop of [ioping.c] ([main], from the
    deadline set-up at line 348 to [return 0]), together with [now] and the
    signal handler [sig_exit].

    - C [double] is IEEE-754 binary64 with round-to-nearest-even, taken from
      the bit-level specification [SpecFloat] of the Standard Library
      ([spec_float] with [prec = 53], [emax = 1024]); every operation is
      rounded once (no extended precision, no fused multiply-add).
    - [int] and [long long] are [Z] with two's-complement wrap-around written
      out ([wrap32], [wrap64]).
    - The operating system is a [world]: scripts of the answers that
      [gettimeofday], [posix_fadvise], [pread] and the delivery of SIGINT will
      give, the global [exiting], and the trace of everything the process has
      done so far (system calls and lines printed), newest event first.
      A clock answer is the value [now] returns, microseconds as a
      [long long]; SIGINT is looked at from the moment [sig_exit] is installed.
    - The program is written in a state-and-exit monad [M] over the world:
      a computation returns, exits through [err], runs out of script, or
      traps on undefined behaviour ([%] by zero).
    - What was set up before line 348 (options parsed, target opened, buffer
      allocated) is a [config]; the strings printed with each line are left
      out of the events.
    - The option parsing ([parse_suffix] with the tables of [parse_int],
      [parse_size] and [parse_time], and [parse_options]) and [parse_device]
      are embedded after the loop. What the C library does is taken as
      given: [strtod], the answers of [getopt], [sscanf] and [makedev] are
      parameters; [long long], [ssize_t] and [off_t] are 64 bits wide. *)

From Stdlib Require Import String Ascii ZArith List Lia Bool.
From Stdlib Require Import SpecFloat.
Import ListNotations.
Local Open Scope Z_scope.

(* ================================================================== *)
(** * Definitions *)
(* ================================================================== *)

(** ** Binary64 *)

Definition double := spec_float.
Definition prec : Z := 53.
Definition emax : Z := 1024.

(** Conversion of an integer ([int], [long long]) to [double]. *)
Definition of_ll (z : Z) : double := binary_normalize prec emax z 0 false.

Definition dadd : double -> double -> double := SFadd prec emax.
Definition dsub : double -> double -> double := SFsub prec emax.
Definition dmul : double -> double -> double := SFmul prec emax.
Definition ddiv : double -> double -> double := SFdiv prec emax.
Definition dsqrt : double -> double := SFsqrt prec emax.

(** [n] shifted left by [k] bits (for [0 <= k]). *)
Definition pshl (n : positive) (k : Z) : positive :=
  match k with Zpos d => Pos.iter xO n d | _ => n end.

(** The binary64 representation of a non-zero integer of at most 53 bits:
    the mantissa is normalised to exactly 53 bits. *)
Definition canon (s : bool) (n : positive) : double :=
  S754_finite s (pshl n (53 - Zpos (digits2_pos n))) (Zpos (digits2_pos n) - 53).



(** ** Machine integers *)

Definition wrap (bits z : Z) : Z :=
  (z + 2 ^ (bits - 1)) mod 2 ^ bits - 2 ^ (bits - 1).
Definition wrap32 : Z -> Z := wrap 32.
Definition wrap64 : Z -> Z := wrap 64.

Definition INT_MIN : Z := - 2 ^ 31.
Definition INT_MAX : Z := 2 ^ 31 - 1.
Definition LLONG_MAX : Z := 2 ^ 63 - 1.
Definition LLONG_MIN : Z := - 2 ^ 63.
Definition EINTR : Z := 4.

(** C's [a % b] on [int]: undefined for [b = 0] and for [INT_MIN % -1]. *)
Definition c_rem (a b : Z) : option Z :=
  if (b =? 0) || ((a =? INT_MIN) && (b =? -1)) then None else Some (Z.rem a b).

(** ** Configuration: the globals set by [parse_options] *)

Record config := mkConfig {
  quiet : bool;      (* -q *)
  period : Z;        (* -p, int *)
  cached : bool;     (* -C *)
  interval : Z;      (* -i, microseconds *)
  deadline : Z;      (* -w, microseconds from the start; 0 = none *)
  count : Z          (* -c, int; 0 = none *)
}.

(** ** The world *)

Inductive event : Type :=
| EvGettimeofday (r : option Z)
| EvFadvise (ret : Z)
| EvPread (ret_size errno : Z)
| EvUsleep (usec : Z)
| EvPrintRequest (ret_size request : Z) (time_ms : double)
| EvPrintWindow (pmin : Z) (pavg : double) (pmax : Z) (pmdev : double)
| EvPrintHeader
| EvPrintCompleted (request : Z) (total_ms : double)
| EvPrintMinAvgMaxMdev (min_ms avg_ms max_ms mdev_ms : double)
| EvErr (status : Z) (msg : string).

Record world := mkWorld {
  clock : list (option Z);        (* answers of gettimeofday, in microseconds *)
  signals : list bool;            (* per look at [exiting]: was SIGINT delivered since the last one *)
  fadvise_rets : list Z;          (* return values of posix_fadvise *)
  pread_rets : list (Z * Z);      (* (return value, errno) of pread *)
  exiting : bool;                 (* the global [exiting] *)
  trace : list event              (* newest first *)
}.

(** A fresh process: [exiting = 0], nothing done yet. *)
Definition boot (clk : list (option Z)) (sigs : list bool)
           (fadv : list Z) (prd : list (Z * Z)) : world :=
  mkWorld clk sigs fadv prd false [].

(** ** The monad *)

Inductive abort : Type :=
| AExit (status : Z)     (* err(3): message on stderr, exit(status) *)
| AStarved               (* the script of the world ends here *)
| ATrap                  (* undefined behaviour *)
| AOutOfFuel.

Inductive outcome (A : Type) : Type :=
| Ok (a : A)
| Abort (r : abort).
Arguments Ok {A} a.
Arguments Abort {A} r.

Definition M (A : Type) : Type := world -> outcome A * world.

Definition ret {A} (a : A) : M A := fun w => (Ok a, w).

Definition bind {A B} (m : M A) (k : A -> M B) : M B :=
  fun w =>
    match m w with
    | (Ok a, w') => k a w'
    | (Abort r, w') => (Abort r, w')
    end.

Declare Scope io_scope.
Delimit Scope io_scope with io.
Notation "x <- m ;; k" := (bind m (fun x => k))
  (at level 61, m at next level, right associativity) : io_scope.
Notation "m ;; k" := (bind m (fun _ => k))
  (at level 61, right associativity) : io_scope.
Local Open Scope io_scope.

Definition push (e : event) (w : world) : world :=
  mkWorld (clock w) (signals w) (fadvise_rets w) (pread_rets w) (exiting w)
          (e :: trace w).

Definition emit (e : event) : M unit := fun w => (Ok tt, push e w).

Definition err {A} (status : Z) (msg : string) : M A :=
  fun w => (Abort (AExit status), push (EvErr status msg) w).

Definition undefined {A} : M A := fun w => (Abort ATrap, w).

Definition gettimeofday : M (option Z) := fun w =>
  match clock w with
  | [] => (Abort AStarved, w)
  | r :: clk =>
      (Ok r, mkWorld clk (signals w) (fadvise_rets w) (pread_rets w) (exiting w)
                     (EvGettimeofday r :: trace w))
  end.

Definition posix_fadvise : M Z := fun w =>
  match fadvise_rets w with
  | [] => (Abort AStarved, w)
  | r :: rs =>
      (Ok r, mkWorld (clock w) (signals w) rs (pread_rets w) (exiting w)
                     (EvFadvise r :: trace w))
  end.

Definition pread : M (Z * Z) := fun w =>
  match pread_rets w with
  | [] => (Abort AStarved, w)
  | rd :: rs =>
      (Ok rd, mkWorld (clock w) (signals w) (fadvise_rets w) rs (exiting w)
                      (EvPread (fst rd) (snd rd) :: trace w))
  end.

(** [useconds_t], the type of the argument of [usleep], is unsigned and 32
    bits wide: what the [long long] passed at line 414 is converted to. *)
Definition useconds (z : Z) : Z := z mod 2 ^ 32.

Definition usleep (usec : Z) : M unit := emit (EvUsleep (useconds usec)).

(** [sig_exit] (lines 276-280): the handler sets [exiting = 1]. *)
Definition sig_exit (w : world) : world :=
  mkWorld (clock w) (signals w) (fadvise_rets w) (pread_rets w) true (trace w).

(** A look at the global [exiting]; a SIGINT delivered since the last look
    has run [sig_exit] by now. *)
Definition read_exiting : M bool := fun w =>
  let w1 := mkWorld (clock w) (tl (signals w)) (fadvise_rets w) (pread_rets w)
                    (exiting w) (trace w) in
  let w2 := if hd false (signals w) then sig_exit w1 else w1 in
  (Ok (exiting w2), w2).

(** [now] (lines 39-47). *)
Definition now : M Z :=
  r <- gettimeofday ;;
  match r with
  | None => err 1 "gettimeofday failed"%string
  | Some t => ret t
  end.

(** ** The program *)

(** [request] and the accumulators of [main] (lines 297-300). *)
Record vars := mkVars {
  request : Z;
  part_min : Z;
  part_max : Z;
  time_min : Z;
  time_max : Z;
  time_sum : double;
  time_sum2 : double;
  part_sum : double;
  part_sum2 : double
}.

(** Lines 353-357. *)
Definition init_vars : vars :=
  mkVars 0 LLONG_MAX LLONG_MIN LLONG_MAX LLONG_MIN
         (of_ll 0) (of_ll 0) (of_ll 0) (of_ll 0).

(** Line 367: [request++]. *)
Definition next_request (v : vars) : vars :=
  mkVars (wrap32 (request v + 1)) (part_min v) (part_max v) (time_min v) (time_max v)
         (time_sum v) (time_sum2 v) (part_sum v) (part_sum2 v).

(** Lines 382-387. *)
Definition record (this_time : Z) (v : vars) : vars :=
  mkVars (request v)
         (if this_time <? part_min v then this_time else part_min v)
         (if this_time >? part_max v then this_time else part_max v)
         (time_min v) (time_max v) (time_sum v) (time_sum2 v)
         (dadd (part_sum v) (of_ll this_time))
         (dadd (part_sum2 v) (of_ll (wrap64 (this_time * this_time)))).

(** Lines 395-396 and 426-427: average and deviation from a sum, a sum of
    squares and the number of samples. *)
Definition mdev (sum sum2 n : double) : double * double :=
  let avg := ddiv sum n in
  (avg, dsqrt (dsub (ddiv sum2 n) (dmul avg avg))).

(** Lines 402-407 and 419-424: the window is folded into the run. *)
Definition fold_part (v : vars) : vars :=
  mkVars (request v) (part_min v) (part_max v)
         (if part_min v <? time_min v then part_min v else time_min v)
         (if part_max v >? time_max v then part_max v else time_max v)
         (dadd (time_sum v) (part_sum v)) (dadd (time_sum2 v) (part_sum2 v))
         (part_sum v) (part_sum2 v).

(** Lines 408-410. *)
Definition reset_part (v : vars) : vars :=
  mkVars (request v) LLONG_MAX LLONG_MIN (time_min v) (time_max v)
         (time_sum v) (time_sum2 v) (of_ll 0) (of_ll 0).

(** Lines 369-380: the timed read; returns [(ret_size, this_time)]. *)
Definition timed_read (c : config) : M (Z * Z) :=
  (if cached c then ret tt
   else r <- posix_fadvise ;;
        if r =? 0 then ret tt else err 1 "fadvise failed"%string) ;;
  t0 <- now ;;
  rd <- pread ;;
  (if (fst rd <? 0) && negb (snd rd =? EINTR)
   then err 1 "read failed"%string else ret tt) ;;
  t1 <- now ;;
  ret (fst rd, wrap64 (t1 - t0)).

(** The four numbers of the raw statistics line (lines 395-400). *)
Definition window_line (c : config) (v : vars) : Z * double * Z * double :=
  let '(part_avg, part_mdev) := mdev (part_sum v) (part_sum2 v) (of_ll (period c)) in
  (part_min v, part_avg, part_max v, part_mdev).

Definition ev_window (l : Z * double * Z * double) : event :=
  let '(pmin, part_avg, pmax, part_mdev) := l in
  EvPrintWindow pmin part_avg pmax part_mdev.

(** Lines 395-410. *)
Definition flush_window (c : config) (v : vars) : M vars :=
  emit (ev_window (window_line c v)) ;;
  ret (reset_part (fold_part v)).

(** Line 394: [if (period && request % period == 0)]. *)
Definition window_check (c : config) (v : vars) : M vars :=
  if period c =? 0 then ret v
  else match c_rem (request v) (period c) with
       | None => undefined
       | Some r => if r =? 0 then flush_window c v else ret v
       end.

Definition ms (us : Z) : double := ddiv (of_ll us) (of_ll 1000).
Definition dms (us : double) : double := ddiv us (of_ll 1000).

(** Lines 367-414: one pass through the body of the loop. *)
Definition body (c : config) (v : vars) : M vars :=
  let v := next_request v in
  rt <- timed_read c ;;
  let v := record (snd rt) v in
  (if quiet c then ret tt
   else emit (EvPrintRequest (fst rt) (request v) (ms (snd rt)))) ;;
  v <- window_check c v ;;
  ex <- read_exiting ;;
  (if ex then ret tt else usleep (interval c)) ;;
  ret v.

(** Lines 360-365: the three tests made before a request is issued;
    [true] when the loop goes on. [dl] is the absolute deadline. *)
Definition loop_head (c : config) (dl : Z) (v : vars) : M bool :=
  ex <- read_exiting ;;
  if ex then ret false
  else if negb (count c =? 0) && (request v >=? count c) then ret false
  else if dl =? 0 then ret true
  else t <- now ;; ret (negb (t >=? dl)).

(** Lines 360-415. *)
Fixpoint loop (fuel : nat) (c : config) (dl : Z) (v : vars) : M vars :=
  match fuel with
  | O => fun w => (Abort AOutOfFuel, w)
  | S fuel' =>
      go <- loop_head c dl v ;;
      if go then v' <- body c v ;; loop fuel' c dl v'
      else ret v
  end.

(** What [main] holds when it returns. *)
Record summary := mkSummary {
  final : vars;
  time_total : Z;
  time_avg : double;
  time_mdev : double
}.

(** The lines of the final summary (lines 429-436), newest first. *)
Definition summary_lines (c : config) (s : summary) : list event :=
  if quiet c then []
  else [EvPrintMinAvgMaxMdev (ms (time_min (final s))) (dms (time_avg s))
                             (ms (time_max (final s))) (dms (time_mdev s));
        EvPrintCompleted (request (final s)) (ms (time_total s));
        EvPrintHeader].

(** Lines 417-438. *)
Definition finalize (c : config) (t_start : Z) (v : vars) : M summary :=
  t_end <- now ;;
  let time_total := wrap64 (t_end - t_start) in
  let v := fold_part v in
  let am := mdev (time_sum v) (time_sum2 v) (of_ll (request v)) in
  let time_avg := fst am in
  let time_mdev := snd am in
  (if quiet c then ret tt
   else emit EvPrintHeader ;;
        emit (EvPrintCompleted (request v) (ms time_total)) ;;
        emit (EvPrintMinAvgMaxMdev (ms (time_min v)) (dms time_avg)
                                   (ms (time_max v)) (dms time_mdev))) ;;
  ret (mkSummary v time_total time_avg time_mdev).

(** Lines 348-438 of [main]. Every turn of the loop that goes on reads the
    clock, so the length of the clock script bounds the number of turns: the
    fuel given here never runs out ([main_fuel]). *)
Definition main (c : config) : M summary :=
  dl <- (if deadline c =? 0 then ret 0
         else t <- now ;; ret (wrap64 (deadline c + t))) ;;
  t_start <- now ;;
  v <- (fun w => loop (S (List.length (clock w))) c dl init_vars w) ;;
  finalize c t_start v.

(** ** Reading a trace *)

(** The latencies measured in a trace, newest first: the time between the
    two clock readings around each [pread]. *)
Fixpoint latencies (tr : list event) : list Z :=
  match tr with
  | EvGettimeofday (Some t1) :: ((EvPread _ _ :: EvGettimeofday (Some t0) :: _) as tr') =>
      wrap64 (t1 - t0) :: latencies tr'
  | _ :: tr' => latencies tr'
  | [] => []
  end.

(** The raw statistics lines of a trace, newest first. *)
Fixpoint window_reports (tr : list event) : list (Z * double * Z * double) :=
  match tr with
  | EvPrintWindow a b c d :: tr' => (a, b, c, d) :: window_reports tr'
  | _ :: tr' => window_reports tr'
  | [] => []
  end.

(** No [pread] is waiting for its second clock reading. *)
Definition quiescent (tr : list event) : Prop :=
  match tr with
  | EvPread _ _ :: _ => False
  | _ => True
  end.

Definition is_window (e : event) : bool :=
  match e with EvPrintWindow _ _ _ _ => true | _ => false end.

(** The human-readable lines: the per-request line and the final summary. *)
Definition is_human (e : event) : bool :=
  match e with
  | EvPrintRequest _ _ _ | EvPrintHeader | EvPrintCompleted _ _
  | EvPrintMinAvgMaxMdev _ _ _ _ => true
  | _ => false
  end.

Definition is_summary (e : event) : bool :=
  match e with
  | EvPrintHeader | EvPrintCompleted _ _ | EvPrintMinAvgMaxMdev _ _ _ _ => true
  | _ => false
  end.

(** A read that failed with something else than EINTR, or a failed
    cache invalidation. *)
Definition is_fatal (e : event) : bool :=
  match e with
  | EvPread r eno => (r <? 0) && negb (eno =? EINTR)
  | EvFadvise r => negb (r =? 0)
  | _ => false
  end.

Definition is_request (e : event) : bool :=
  match e with EvPread _ _ => true | _ => false end.

(** What the world looks like with the human-readable lines removed. *)
Definition mute (w : world) : world :=
  mkWorld (clock w) (signals w) (fadvise_rets w) (pread_rets w) (exiting w)
          (filter (fun e => negb (is_human e)) (trace w)).

(** ** The accumulator on its own *)

(** What one sample does to the variables (lines 367, 382-387, 394-411). *)
Definition flushes (c : config) (v : vars) : bool :=
  negb (period c =? 0) &&
  match c_rem (request v) (period c) with
  | Some r => r =? 0
  | None => false
  end.

Definition step (c : config) (x : Z) (v : vars) : vars :=
  let v1 := record x (next_request v) in
  if flushes c v1 then reset_part (fold_part v1) else v1.

(** The variables after the samples [xs] (newest first), from [v]. *)
Definition feed_from (c : config) (v : vars) (xs : list Z) : vars :=
  fold_right (step c) v xs.

Definition feed (c : config) (xs : list Z) : vars := feed_from c init_vars xs.

(** The raw statistics lines printed while [xs] is fed, newest first. *)
Fixpoint reports_from (c : config) (v : vars) (xs : list Z)
  : list (Z * double * Z * double) :=
  match xs with
  | [] => []
  | x :: xs' =>
      let v1 := record x (next_request (feed_from c v xs')) in
      if flushes c v1 then window_line c v1 :: reports_from c v xs'
      else reports_from c v xs'
  end.

(** Sums over a list of samples. *)
Definition zsum (xs : list Z) : Z := fold_right Z.add 0 xs.
Definition sum_abs (xs : list Z) : Z := fold_right (fun x a => Z.abs x + a) 0 xs.
Definition sum_sq (xs : list Z) : Z := fold_right (fun x a => x * x + a) 0 xs.

Definition is_min (m : Z) (xs : list Z) : Prop := In m xs /\ Forall (fun x => m <= x) xs.
Definition is_max (m : Z) (xs : list Z) : Prop := In m xs /\ Forall (fun x => x <= m) xs.

(** One accumulator in the program's arithmetic: sum, sum of squares,
    minimum and maximum of the samples [zs] (newest first). *)
Definition acc_sum (zs : list Z) : double :=
  fold_right (fun x a => dadd a (of_ll x)) (of_ll 0) zs.
Definition acc_sum2 (zs : list Z) : double :=
  fold_right (fun x a => dadd a (of_ll (wrap64 (x * x)))) (of_ll 0) zs.
Definition acc_min (zs : list Z) : Z :=
  fold_right (fun x m => if x <? m then x else m) LLONG_MAX zs.
Definition acc_max (zs : list Z) : Z :=
  fold_right (fun x m => if x >? m then x else m) LLONG_MIN zs.

(** The run accumulators after the windows [ws] (newest first) were folded. *)
Definition run_sum (ws : list (list Z)) : double :=
  fold_right (fun w a => dadd a (acc_sum w)) (of_ll 0) ws.
Definition run_sum2 (ws : list (list Z)) : double :=
  fold_right (fun w a => dadd a (acc_sum2 w)) (of_ll 0) ws.
Definition run_min (ws : list (list Z)) : Z :=
  fold_right (fun w m => if acc_min w <? m then acc_min w else m) LLONG_MAX ws.
Definition run_max (ws : list (list Z)) : Z :=
  fold_right (fun w m => if acc_max w >? m then acc_max w else m) LLONG_MIN ws.

(** The variables when the windows [ws] are closed and [zs] is open. *)
Definition vars_of (ws : list (list Z)) (zs : list Z) : vars :=
  mkVars (wrap32 (Z.of_nat (List.length (zs ++ concat ws))))
         (acc_min zs) (acc_max zs) (run_min ws) (run_max ws)
         (run_sum ws) (run_sum2 ws) (acc_sum zs) (acc_sum2 zs).

(** The raw statistics line of the closed window [w]. *)
Definition line_of (c : config) (w : list Z) : Z * double * Z * double :=
  let '(avg, dev) := mdev (acc_sum w) (acc_sum2 w) (of_ll (period c)) in
  (acc_min w, avg, acc_max w, dev).

(** The four aggregates of a finished run. *)
Definition aggregates (s : summary) : double * Z * Z * double :=
  (time_avg s, time_min (final s), time_max (final s), time_mdev s).

(** The components of four aggregates. *)
Definition mean_of (a : double * Z * Z * double) : double := fst (fst (fst a)).
Definition min_of (a : double * Z * Z * double) : Z := snd (fst (fst a)).
Definition max_of (a : double * Z * Z * double) : Z := snd (fst a).
Definition dev_of (a : double * Z * Z * double) : double := snd a.

(** All samples fed to a single accumulator that is never flushed, then
    mean, minimum, maximum and deviation taken from it. *)
Definition single_accumulator (xs : list Z) : double * Z * Z * double :=
  let '(avg, dev) :=
    mdev (acc_sum xs) (acc_sum2 xs) (of_ll (Z.of_nat (List.length xs))) in
  (avg, acc_min xs, acc_max xs, dev).

(** The configuration with another [quiet]. *)
Definition with_quiet (q : bool) (c : config) : config :=
  mkConfig q (period c) (cached c) (interval c) (deadline c) (count c).

(** ** Concrete runs *)

(** A clock script for requests that take [xs] microseconds, one second
    apart, the first one starting at [t]; the last entry is the reading taken
    after the loop. *)
Fixpoint clock_of (t : Z) (xs : list Z) : list (option Z) :=
  match xs with
  | [] => [Some t]
  | x :: xs' => Some t :: Some (t + x) :: clock_of (t + x + 1000000) xs'
  end.

(** A world in which every call succeeds, no signal arrives and the
    requests take [xs]. *)
Definition world_of (xs : list Z) : world :=
  boot (Some 0 :: clock_of 5 xs) [] (map (fun _ => 0) xs) (map (fun _ => (512, 0)) xs).

(** Everything succeeds, no deadline, one second between requests. *)
Definition cfg (q : bool) (p n : Z) : config := mkConfig q p false 1000000 0 n.

(** ** Vocabulary of the statements *)

(** Mean and deviation by the population formula on the exact sums:
    [mean = sum/n], [stdev = sqrt(sum2/n - mean*mean)], each operation
    rounded to binary64. *)
Definition pop_mean (xs : list Z) : double :=
  ddiv (of_ll (zsum xs)) (of_ll (Z.of_nat (List.length xs))).
Definition pop_stdev (xs : list Z) : double :=
  dsqrt (dsub (ddiv (of_ll (sum_sq xs)) (of_ll (Z.of_nat (List.length xs))))
              (dmul (pop_mean xs) (pop_mean xs))).


(** Nothing of the final summary was printed, no call failed fatally. *)
Definition clean (tr : list event) : Prop :=
  existsb is_summary tr = false /\ existsb is_fatal tr = false.

(** The process died with status 1 right after the first fatal failure:
    the error message is the last thing it did. *)
Definition died_at_failure (r : abort) (tr : list event) : Prop :=
  r = AExit 1 /\
  exists msg e tr', tr = EvErr 1 msg :: e :: tr' /\ is_fatal e = true /\ clean tr'.

(** The summary line does not show the initial values of min and max. *)
Definition sentinel_free (tr : list event) : Prop :=
  forall mn av mx md,
    In (EvPrintMinAvgMaxMdev mn av mx md) tr ->
    mn <> ms LLONG_MAX /\ mx <> ms LLONG_MIN.

(** The world after a look at [exiting], and what the look saw. *)
Definition looked (w : world) : world := snd (read_exiting w).
Definition observed (w : world) : bool := exiting w || hd false (signals w).

(** The cache invalidation, if any, will succeed. *)
Definition fadvise_ok (c : config) (fadv : list Z) : Prop :=
  cached c = true \/ exists rs, fadv = 0 :: rs.

(** ** Outcomes of computations *)

(** What holds of the outcome of a computation started in a world where
    [P] holds: [Q] after a normal return, [E] after an abort. *)
Definition triple {A} (P : world -> Prop) (m : M A)
           (Q : A -> world -> Prop) (E : abort -> world -> Prop) : Prop :=
  forall w, P w ->
    match m w with
    | (Ok a, w') => Q a w'
    | (Abort r, w') => E r w'
    end.

(** [I] is kept by a normal return. *)
Definition ends {A} (m : M A) (I : world -> Prop) (E : abort -> world -> Prop) : Prop :=
  triple I m (fun _ => I) E.

(** How a run ends when a call fails fatally. *)
Definition fatal_end (r : abort) (w : world) : Prop :=
  existsb is_summary (trace w) = false /\
  (existsb is_fatal (trace w) = true -> died_at_failure r (trace w)).

(** How a run ends when no window is configured. *)
Definition no_window_end (r : abort) (w : world) : Prop :=
  r <> ATrap /\ existsb is_window (trace w) = false.

(** [mq] run without the human-readable lines does what [ml] does with
    them. *)
Definition sim {A} (mq ml : M A) : Prop :=
  forall w, mq (mute w) = (fst (ml w), mute (snd (ml w))).

(** ** More concrete worlds *)

(** A world where the second read fails with EIO. *)
Definition world_eio : world :=
  boot [Some 0; Some 5; Some 15; Some 1000015] [] [0; 0] [(512, 0); (-1, 5)].

(** SIGINT arrives before the first request. *)
Definition world_sigint : world := boot [Some 0; Some 7] [true] [] [].


(* ================================================================== *)
(** * Definitions for the rest of the program *)
(* ================================================================== *)

(** ** More ways to read a trace *)

Definition is_usleep (e : event) : bool :=
  match e with EvUsleep _ => true | _ => false end.

(** The number of reads issued in a trace. *)
Definition requests_issued (tr : list event) : Z :=
  Z.of_nat (List.length (filter is_request tr)).

(** The per-request lines of a trace, newest first: request number and
    time printed. *)
Fixpoint request_lines (tr : list event) : list (Z * double) :=
  match tr with
  | EvPrintRequest _ n t :: tr' => (n, t) :: request_lines tr'
  | _ :: tr' => request_lines tr'
  | [] => []
  end.

(** What the per-request lines of the samples [xs] (newest first) should
    be: numbered from 1 in the order of the requests, the latency in
    milliseconds. *)
Fixpoint numbered (xs : list Z) : list (Z * double) :=
  match xs with
  | [] => []
  | x :: xs' => (Z.of_nat (List.length xs), ms x) :: numbered xs'
  end.

(** The arguments of the [usleep] calls of a trace, newest first. *)
Fixpoint sleeps (tr : list event) : list Z :=
  match tr with
  | EvUsleep d :: tr' => d :: sleeps tr'
  | _ :: tr' => sleeps tr'
  | [] => []
  end.

(** Every SIGINT that set [exiting] came from the script [sigs]: the looks
    made so far consumed a prefix of it. *)
Definition signals_from (sigs : list bool) (w : world) : Prop :=
  exists seen, sigs = seen ++ signals w /\ (exiting w = true -> In true seen).

(** The same with the number as the program keeps it, in an [int]. *)
Fixpoint numbered32 (xs : list Z) : list (Z * double) :=
  match xs with
  | [] => []
  | x :: xs' => (wrap32 (Z.of_nat (List.length xs)), ms x) :: numbered32 xs'
  end.

(** The loop's invariant for the per-request lines: no read is pending, the
    counter is the number of samples, and the lines printed so far are the
    numbered samples. *)
Definition lines_numbered (v : vars) (w : world) : Prop :=
  quiescent (trace w) /\
  request v = wrap32 (Z.of_nat (List.length (latencies (trace w)))) /\
  request_lines (trace w) = numbered32 (latencies (trace w)).

(** The loop's invariant for the pauses: the program called [usleep] with
    [interval], as a [useconds_t], after every request so far, the last one
    excepted if SIGINT has been seen. *)
Definition paced (c : config) (w : world) : Prop :=
  quiescent (trace w) /\
  exists k,
    sleeps (trace w) = repeat (useconds (interval c)) k /\
    (k = List.length (latencies (trace w)) \/
     (exiting w = true /\ S k = List.length (latencies (trace w)))).

(** ** Option values: [parse_suffix] and its tables (lines 49-140) *)

(** [(long long) x] for a [double] [x]: the value is truncated toward zero;
    undefined behaviour when the result is not a [long long] (NaN and the
    infinities included). *)
Definition to_ll (x : double) : option Z :=
  match x with
  | S754_zero _ => Some 0
  | S754_finite s m e =>
      let z := cond_Zopp s (Z.shiftl (Zpos m) e) in
      if (LLONG_MIN <=? z) && (z <=? LLONG_MAX) then Some z else None
  | _ => None
  end.

(** [tolower] in the C locale. *)
Definition tolower (c : ascii) : ascii :=
  let n := N_of_ascii c in
  if (65 <=? n)%N && (n <=? 90)%N then ascii_of_N (n + 32) else c.

(** [!strcasecmp(a, b)]: the two strings are equal up to the case of
    their letters. *)
Fixpoint strcaseeq (a b : string) : bool :=
  match a, b with
  | EmptyString, EmptyString => true
  | String x a', String y b' => Ascii.eqb (tolower x) (tolower y) && strcaseeq a' b'
  | _, _ => false
  end.

(** The loop of [parse_suffix] (lines 60-63) over a table of suffixes: the
    multiplier of the first entry that matches. *)
Fixpoint find_suffix (e : string) (sfx : list (string * Z)) : option Z :=
  match sfx with
  | [] => None
  | (txt, mul) :: sfx' => if strcaseeq e txt then Some mul else find_suffix e sfx'
  end.

(** The tables of [parse_int], [parse_size] and [parse_time]. *)
Definition sfx_int : list (string * Z) :=
  [ ("", 1); ("da", 10); ("k", 1000); ("M", 1000000); ("G", 1000000000);
    ("T", 1000000000000); ("P", 1000000000000000);
    ("E", 1000000000000000000) ]%string.

Definition sfx_size : list (string * Z) :=
  [ ("", 1); ("b", 1); ("s", Z.shiftl 1 9); ("k", Z.shiftl 1 10);
    ("kb", Z.shiftl 1 10); ("p", Z.shiftl 1 12); ("m", Z.shiftl 1 20);
    ("mb", Z.shiftl 1 20); ("g", Z.shiftl 1 30); ("gb", Z.shiftl 1 30);
    ("t", Z.shiftl 1 40); ("tb", Z.shiftl 1 40); ("p", Z.shiftl 1 50);
    ("pb", Z.shiftl 1 50); ("e", Z.shiftl 1 60); ("eb", Z.shiftl 1 60) ]%string.

Definition sfx_time : list (string * Z) :=
  [ ("us", 1); ("usec", 1); ("ms", 1000); ("msec", 1000);
    ("", 1000000); ("s", 1000000); ("sec", 1000000);
    ("m", 1000000 * 60); ("min", 1000000 * 60);
    ("h", 1000000 * 60 * 60); ("hour", 1000000 * 60 * 60);
    ("day", 1000000 * 60 * 60 * 24);
    ("week", 1000000 * 60 * 60 * 24 * 7);
    ("month", 1000000 * 60 * 60 * 24 * 7 * 30);
    ("year", 1000000 * 60 * 60 * 24 * 7 * 365);
    ("century", 1000000 * 60 * 60 * 24 * 7 * 365 * 100);
    ("millenium", 1000000 * 60 * 60 * 24 * 7 * 365 * 1000) ]%string.

(** The table of [parse_size] without its second ["p"] entry. *)
Definition sfx_size_once : list (string * Z) :=
  [ ("", 1); ("b", 1); ("s", Z.shiftl 1 9); ("k", Z.shiftl 1 10);
    ("kb", Z.shiftl 1 10); ("p", Z.shiftl 1 12); ("m", Z.shiftl 1 20);
    ("mb", Z.shiftl 1 20); ("g", Z.shiftl 1 30); ("gb", Z.shiftl 1 30);
    ("t", Z.shiftl 1 40); ("tb", Z.shiftl 1 40);
    ("pb", Z.shiftl 1 50); ("e", Z.shiftl 1 60); ("eb", Z.shiftl 1 60) ]%string.

(** ** The globals set by [parse_options] (lines 163-182) *)

Record globals := mkGlobals {
  opt_path : option string;   (* path, NULL until a destination is seen *)
  opt_quiet : bool;
  opt_period : Z;             (* int *)
  opt_direct : bool;
  opt_cached : bool;
  opt_interval : Z;           (* long long *)
  opt_deadline : Z;           (* long long *)
  opt_size : Z;               (* ssize_t *)
  opt_offset : Z;             (* off_t *)
  opt_count : Z               (* int *)
}.

(** The initialisers of lines 163-182. *)
Definition initial_globals : globals :=
  mkGlobals None false 0 false false 1000000 0 512 0 0.

Definition set_path (p : string) (g : globals) : globals :=
  mkGlobals (Some p) (opt_quiet g) (opt_period g) (opt_direct g) (opt_cached g)
            (opt_interval g) (opt_deadline g) (opt_size g) (opt_offset g) (opt_count g).
Definition set_quiet (g : globals) : globals :=
  mkGlobals (opt_path g) true (opt_period g) (opt_direct g) (opt_cached g)
            (opt_interval g) (opt_deadline g) (opt_size g) (opt_offset g) (opt_count g).
Definition set_period (v : Z) (g : globals) : globals :=
  mkGlobals (opt_path g) (opt_quiet g) v (opt_direct g) (opt_cached g)
            (opt_interval g) (opt_deadline g) (opt_size g) (opt_offset g) (opt_count g).
Definition set_direct (g : globals) : globals :=
  mkGlobals (opt_path g) (opt_quiet g) (opt_period g) true (opt_cached g)
            (opt_interval g) (opt_deadline g) (opt_size g) (opt_offset g) (opt_count g).
Definition set_cached (g : globals) : globals :=
  mkGlobals (opt_path g) (opt_quiet g) (opt_period g) (opt_direct g) true
            (opt_interval g) (opt_deadline g) (opt_size g) (opt_offset g) (opt_count g).
Definition set_interval (v : Z) (g : globals) : globals :=
  mkGlobals (opt_path g) (opt_quiet g) (opt_period g) (opt_direct g) (opt_cached g)
            v (opt_deadline g) (opt_size g) (opt_offset g) (opt_count g).
Definition set_deadline (v : Z) (g : globals) : globals :=
  mkGlobals (opt_path g) (opt_quiet g) (opt_period g) (opt_direct g) (opt_cached g)
            (opt_interval g) v (opt_size g) (opt_offset g) (opt_count g).
Definition set_size (v : Z) (g : globals) : globals :=
  mkGlobals (opt_path g) (opt_quiet g) (opt_period g) (opt_direct g) (opt_cached g)
            (opt_interval g) (opt_deadline g) v (opt_offset g) (opt_count g).
Definition set_offset (v : Z) (g : globals) : globals :=
  mkGlobals (opt_path g) (opt_quiet g) (opt_period g) (opt_direct g) (opt_cached g)
            (opt_interval g) (opt_deadline g) (opt_size g) v (opt_count g).
Definition set_count (v : Z) (g : globals) : globals :=
  mkGlobals (opt_path g) (opt_quiet g) (opt_period g) (opt_direct g) (opt_cached g)
            (opt_interval g) (opt_deadline g) (opt_size g) (opt_offset g) v.

(** [usage] (lines 142-161): the help text on stderr, then [exit(0)]. *)
Definition usage {A} : M A := err 0 "Usage: ioping"%string.

(** What [getopt] answers for a command line, one pair for each call until
    it returns -1: the option character and [optarg]. With the leading [-]
    of the option string an argument that is not an option is answered as
    the argument of an option with code 1. *)
Definition getopt_answers := list (ascii * string).

(** The code 1 of a destination. *)
Definition NONOPT : ascii := ascii_of_N 1.

(** The last argument given to option [o], if any. *)
Fixpoint last_arg (o : ascii) (gs : getopt_answers) : option string :=
  match gs with
  | [] => None
  | (o', a) :: gs' =>
      match last_arg o gs' with
      | Some s => Some s
      | None => if Ascii.eqb o' o then Some a else None
      end
  end.

(** Option [o] is on the command line. *)
Definition given (o : ascii) (gs : getopt_answers) : bool :=
  existsb (fun x => Ascii.eqb (fst x) o) gs.

(** The destinations of the command line. *)
Definition destinations (gs : getopt_answers) : list string :=
  map snd (filter (fun x => Ascii.eqb (fst x) NONOPT) gs).

Section Options.

(** [strtod] of the C library: the value of the longest prefix of the string
    that is a number (zero if there is none) and the rest of the string. *)
Variable strtod : string -> double * string.

(** [parse_suffix] (lines 54-66). The product is taken in [double] and
    converted to [long long] by the [return]. *)
Definition parse_suffix (str : string) (sfx : list (string * Z)) : M Z :=
  let (val, e) := strtod str in
  match find_suffix e sfx with
  | Some mul =>
      match to_ll (dmul val (of_ll mul)) with
      | Some r => ret r
      | None => undefined
      end
  | None => err 1 "invalid suffix"%string
  end.

Definition parse_int (str : string) : M Z := parse_suffix str sfx_int.
Definition parse_size (str : string) : M Z := parse_suffix str sfx_size.
Definition parse_time (str : string) : M Z := parse_suffix str sfx_time.

(** The [switch] of lines 194-234. *)
Definition option_case (opt : ascii) (optarg : string) (g : globals) : M globals :=
  if Ascii.eqb opt "h"%char then usage
  else if Ascii.eqb opt "D"%char then ret (set_direct g)
  else if Ascii.eqb opt "C"%char then ret (set_cached g)
  else if Ascii.eqb opt "i"%char then v <- parse_time optarg ;; ret (set_interval v g)
  else if Ascii.eqb opt "w"%char then v <- parse_time optarg ;; ret (set_deadline v g)
  else if Ascii.eqb opt "s"%char then v <- parse_size optarg ;; ret (set_size v g)
  else if Ascii.eqb opt "o"%char then v <- parse_size optarg ;; ret (set_offset v g)
  else if Ascii.eqb opt "p"%char then v <- parse_int optarg ;; ret (set_period (wrap32 v) g)
  else if Ascii.eqb opt "q"%char then ret (set_quiet g)
  else if Ascii.eqb opt "c"%char then v <- parse_int optarg ;; ret (set_count (wrap32 v) g)
  else if Ascii.eqb opt NONOPT then
    match opt_path g with
    | Some _ => err 1 "more than one destination"%string
    | None => ret (set_path optarg g)
    end
  else if Ascii.eqb opt "?"%char then err 1 "unknown option"%string
  else ret g.

(** The [while] of lines 193-235. *)
Fixpoint getopt_loop (gs : getopt_answers) (g : globals) : M globals :=
  match gs with
  | [] => ret g
  | (opt, optarg) :: gs' => g' <- option_case opt optarg g ;; getopt_loop gs' g'
  end.

(** [parse_options] (lines 186-239), from the initial values of the
    globals. *)
Definition parse_options (argc : Z) (gs : getopt_answers) : M globals :=
  (if argc <? 2 then usage else ret tt) ;;
  g <- getopt_loop gs initial_globals ;;
  match opt_path g with
  | None => err 1 "no destination specified"%string
  | Some _ => ret g
  end.

(** The global [v] after the options: the default [dflt] if option [o] was
    not given, else what its last argument parses to, converted by [conv]. *)
Definition assigned (parse : string -> M Z) (conv : Z -> Z) (o : ascii)
           (gs : getopt_answers) (dflt v : Z) (w : world) : Prop :=
  match last_arg o gs with
  | None => v = dflt
  | Some s => exists r, parse s w = (Ok r, w) /\ v = conv r
  end.

(** The argument of one answer of [getopt] can be parsed, if the option
    takes a value. *)
Definition arg_ok (w : world) (x : ascii * string) : Prop :=
  let (o, a) := x in
  (o = "i"%char \/ o = "w"%char -> exists r, parse_time a w = (Ok r, w)) /\
  (o = "s"%char \/ o = "o"%char -> exists r, parse_size a w = (Ok r, w)) /\
  (o = "p"%char \/ o = "c"%char -> exists r, parse_int a w = (Ok r, w)).

End Options.

(** A [strtod] for the examples: it reads unsigned decimal integers, which
    is what the C library does on a string of digits followed by one of the
    suffixes of the tables. *)
Fixpoint digits_value (acc : Z) (s : string) : Z * string :=
  match s with
  | String c s' =>
      let n := N_of_ascii c in
      if (48 <=? n)%N && (n <=? 57)%N then digits_value (10 * acc + Z.of_N (n - 48)) s'
      else (acc, s)
  | EmptyString => (acc, s)
  end.

Definition strtod_digits (s : string) : double * string :=
  let (n, e) := digits_value 0 s in (of_ll n, e).

(** ** More vocabulary for the loop *)

(** Every read of the trace comes right after a clock reading, and that
    one right after a cache invalidation that succeeded. *)
Fixpoint prepared (tr : list event) : bool :=
  match tr with
  | EvPread _ _ :: ((EvGettimeofday (Some _) :: EvFadvise 0 :: _) as tr') => prepared tr'
  | EvPread _ _ :: _ => false
  | _ :: tr' => prepared tr'
  | [] => true
  end.

Definition is_fadvise (e : event) : bool :=
  match e with EvFadvise _ => true | _ => false end.

(** A line on standard output. *)
Definition is_print (e : event) : bool := is_human e || is_window e.

(** ** [parse_device] (lines 241-274) *)

(** A [char *] into a string is the rest of the string from there on. *)

(** [s] begins with [pat]. *)
Fixpoint starts_with (pat s : string) : bool :=
  match pat with
  | EmptyString => true
  | String a pat' =>
      match s with
      | EmptyString => false
      | String b s' => Ascii.eqb b a && starts_with pat' s'
      end
  end.

(** [strstr(s, pat)]: from the first occurrence of [pat] on, if any. *)
Fixpoint strstr (s pat : string) : option string :=
  if starts_with pat s then Some s
  else match s with
       | EmptyString => None
       | String _ s' => strstr s' pat
       end.

(** [strchr(s, c)]: from the first [c] on, if any. *)
Fixpoint strchr (s : string) (c : ascii) : option string :=
  match s with
  | EmptyString => None
  | String x s' => if Ascii.eqb x c then Some s else strchr s' c
  end.

(** [ptr + n], within the string. *)
Fixpoint advance (n : nat) (ptr : string) : string :=
  match n, ptr with
  | S n', String _ ptr' => advance n' ptr'
  | _, _ => ptr
  end.

(** [strndup(ptr, sep - ptr)] for a [sep] that points into [ptr]. *)
Definition strndup_to (ptr sep : string) : string :=
  substring 0 (String.length ptr - String.length sep) ptr.

(** Lines 257-270: the fields after the separator of a mountinfo line;
    [names] is the pair of the globals [fstype] and [device]. *)
Definition parse_mount_line (buf : string) (names : string * string) : string * string :=
  match strstr buf " - " with
  | None => names
  | Some ptr =>
      let ptr := advance 3 ptr in
      match strchr ptr " " with
      | None => names
      | Some sep =>
          let fstype := strndup_to ptr sep in
          let ptr := advance 1 sep in
          match strchr ptr " " with
          | None => (fstype, snd names)
          | Some sep => (fstype, strndup_to ptr sep)
          end
      end
  end.

Section Device.

(** What [sscanf(buf, "%*d %*d %u:%u", &major, &minor)] stores: the major
    number if the input matches that far, and then the minor number. *)
Variable sscanf_dev : string -> option Z * option Z.

(** [makedev] of the C library. *)
Variable makedev : Z -> Z -> Z.

(** The [while] of lines 253-271 over the lines that [getline] returns.
    [major] and [minor] keep what an earlier line stored; [None] is an
    uninitialised variable, and comparing it is undefined behaviour, for
    which the result is [None]. *)
Fixpoint mount_loop (lines : list string) (major minor : option Z) (dev : Z)
         (names : string * string) : option (string * string) :=
  match lines with
  | [] => Some names
  | buf :: lines' =>
      let (ma, mi) := sscanf_dev buf in
      let major := match ma with Some x => Some x | None => major end in
      let minor := match mi with Some x => Some x | None => minor end in
      match major, minor with
      | Some x, Some y =>
          if makedev x y =? dev then Some (parse_mount_line buf names)
          else mount_loop lines' major minor dev names
      | _, _ => None
      end
  end.

(** [parse_device]; [mountinfo] is [None] when [/proc/self/mountinfo] cannot
    be opened. *)
Definition parse_device (mountinfo : option (list string)) (dev : Z)
           (names : string * string) : option (string * string) :=
  match mountinfo with
  | None => Some names
  | Some lines => mount_loop lines None None dev names
  end.

End Device.

(** A mountinfo line whose third field is [major:minor], for the examples:
    the two numbers are taken from the first two characters after the
    second space, one digit each. *)
Definition sscanf_digits (buf : string) : option Z * option Z :=
  match strchr buf " " with
  | Some (String _ rest) =>
      match strchr rest " " with
      | Some (String _ (String a (String _ (String b _)))) =>
          (Some (Z.of_N (N_of_ascii a) - 48), Some (Z.of_N (N_of_ascii b) - 48))
      | _ => (None, None)
      end
  | _ => (None, None)
  end.

(** [makedev] of the GNU C library. *)
Definition gnu_makedev (major minor : Z) : Z :=
  Z.lor (Z.lor (Z.shiftl (Z.land major 4095) 8) (Z.shiftl (Z.land major 4294963200) 32))
        (Z.lor (Z.land minor 255) (Z.shiftl (Z.land minor 4294967040) 12)).

(** A mount table for the examples. *)
Definition sample_mountinfo : list string :=
  [ "21 35 0:5 / /proc rw - proc proc rw"%string;
    "36 35 8:1 / / rw shared:1 - ext4 /dev/sda1 rw,errors=remount-ro"%string;
    "40 35 8:1 / /mnt rw - xfs /dev/other rw"%string ].

(* ================================================================== *)
(** * Lemmas *)
(* ================================================================== *)

(** ** Binary64: integers below 2^53 are added without rounding *)

Lemma digits2_size p : digits2_pos p = Pos.size p.
Proof. induction p; simpl; congruence. Qed.

Lemma digits2_iter n d : digits2_pos (Pos.iter xO n d) = (digits2_pos n + d)%positive.
Proof.
  induction d using Pos.peano_ind.
  - simpl. lia.
  - rewrite Pos.iter_succ. simpl. rewrite IHd. lia.
Qed.

Lemma digits2_pshl n k : 0 <= k -> Zpos (digits2_pos (pshl n k)) = Zpos (digits2_pos n) + k.
Proof.
  destruct k; simpl; intros; try lia. rewrite digits2_iter. lia.
Qed.

Lemma pshl_pshl n j k : 0 <= j -> 0 <= k -> pshl (pshl n j) k = pshl n (j + k).
Proof.
  destruct j, k; simpl; intros; try lia; try reflexivity.
  rewrite Pos.add_comm. now rewrite Pos.iter_add.
Qed.

Lemma Zpos_pshl n k : 0 <= k -> Zpos (pshl n k) = Zpos n * 2 ^ k.
Proof.
  destruct k; cbn [pshl]; intros; try lia.
  induction p using Pos.peano_ind.
  - cbn. lia.
  - rewrite Pos.iter_succ. rewrite Pos2Z.inj_xO, IHp by lia.
    replace (Z.pos (Pos.succ p)) with (Z.succ (Z.pos p)) by lia.
    rewrite Z.pow_succ_r by lia. ring.
Qed.

Lemma iter_pos_iter {A} (f : A -> A) p x : iter_pos f p x = Pos.iter f x p.
Proof.
  revert x. induction p; intros; simpl.
  - rewrite !IHp. now rewrite <- !Pos.iter_swap.
  - now rewrite !IHp.
  - reflexivity.
Qed.

Lemma shr_exact q j :
  iter_pos shr_1 j {| shr_m := Zpos (Pos.iter xO q j); shr_r := false; shr_s := false |}
  = {| shr_m := Zpos q; shr_r := false; shr_s := false |}.
Proof.
  rewrite iter_pos_iter.
  induction j using Pos.peano_ind.
  - reflexivity.
  - rewrite Pos.iter_succ_r. rewrite Pos.iter_succ. simpl. exact IHj.
Qed.


Lemma fexp_eq e : fexp prec emax e = Z.max (e - 53) (-1074).
Proof. reflexivity. Qed.

Lemma round_shifted s q j e :
  Zpos (digits2_pos q) = 53 -> 0 <= j -> -1074 <= e + j <= 971 ->
  binary_round_aux prec emax s (Zpos (pshl q j)) e loc_Exact = S754_finite s q (e + j).
Proof.
  intros Hd Hj He.
  unfold binary_round_aux, shr_fexp.
  cbn [Zdigits2]. rewrite digits2_pshl, Hd, fexp_eq by assumption.
  replace (Z.max (53 + j + e - 53) (-1074) - e) with j by lia.
  cbn [shr_record_of_loc].
  destruct j as [|j|j]; [| |lia].
  - cbn [shr pshl shr_m loc_of_shr_record round_nearest_even Zdigits2].
    rewrite Hd, fexp_eq.
    replace (Z.max (53 + e - 53) (-1074) - e) with 0 by lia.
    cbn [shr shr_record_of_loc shr_m].
    replace (e + 0) with e by lia.
    replace (e <=? emax - prec) with true; [reflexivity|].
    symmetry. apply Z.leb_le. unfold emax, prec. lia.
  - cbn [shr pshl]. rewrite shr_exact.
    cbn [shr_m loc_of_shr_record round_nearest_even Zdigits2].
    rewrite Hd, fexp_eq.
    replace (Z.max (53 + (e + Z.pos j) - 53) (-1074) - (e + Z.pos j)) with 0 by lia.
    cbn [shr shr_record_of_loc shr_m].
    replace (e + Z.pos j <=? emax - prec) with true; [reflexivity|].
    symmetry. apply Z.leb_le. unfold emax, prec. lia.
Qed.

Lemma round_canon s q e :
  Zpos (digits2_pos q) = 53 -> -1074 <= e <= 971 ->
  binary_round_aux prec emax s (Zpos q) e loc_Exact = S754_finite s q e.
Proof.
  intros Hd He. pose proof (round_shifted s q 0 e Hd) as H.
  cbn [pshl] in H. rewrite H by lia. f_equal. lia.
Qed.

Lemma binary_round_int s n K :
  Zpos (digits2_pos n) <= 53 -> 0 <= K ->
  binary_round prec emax s (pshl n K) (- K) = canon s n.
Proof.
  intros Hd HK. unfold binary_round, canon.
  set (d := Zpos (digits2_pos n)) in *.
  assert (Hd1 : 1 <= d) by (unfold d; lia).
  rewrite digits2_pshl by assumption. fold d. rewrite fexp_eq.
  replace (Z.max (d + K + - K - 53) (-1074)) with (d - 53) by lia.
  unfold shl_align.
  assert (Hq : Zpos (digits2_pos (pshl n (53 - d))) = 53)
    by (rewrite digits2_pshl by lia; fold d; lia).
  destruct (d - 53 - - K) as [|p|p] eqn:E.
  - replace K with (53 - d) by lia.
    rewrite round_canon by (assumption || lia). f_equal; lia.
  - replace (pshl n K) with (pshl (pshl n (53 - d)) (K - (53 - d)))
      by (rewrite pshl_pshl by lia; f_equal; lia).
    rewrite round_shifted by (assumption || lia). f_equal. lia.
  - change (Pos.iter xO (pshl n K) p) with (pshl (pshl n K) (Zpos p)).
    rewrite pshl_pshl by lia.
    replace (K + Z.pos p) with (53 - d) by lia.
    rewrite round_canon by (assumption || lia). reflexivity.
Qed.

Lemma of_ll_pos n : Zpos (digits2_pos n) <= 53 -> of_ll (Zpos n) = canon false n.
Proof. intros. unfold of_ll. cbn [binary_normalize]. now apply (binary_round_int false n 0). Qed.

Lemma of_ll_neg n : Zpos (digits2_pos n) <= 53 -> of_ll (Zneg n) = canon true n.
Proof. intros. unfold of_ll. cbn [binary_normalize]. now apply (binary_round_int true n 0). Qed.

Lemma digits2_bound n : Zpos n < 2 ^ 53 -> Zpos (digits2_pos n) <= 53.
Proof.
  intros H. rewrite digits2_size.
  destruct (Z_le_gt_dec (Zpos (Pos.size n)) 53) as [L|G]; [assumption|exfalso].
  pose proof (Pos.size_le n) as Hs.
  assert (2 ^ 54 <= Zpos (2 ^ Pos.size n)).
  { rewrite Pos2Z.inj_pow. apply Z.pow_le_mono_r; lia. }
  lia.
Qed.

Lemma fst_shl_align m e e' : e' <= e -> fst (shl_align m e e') = pshl m (e - e').
Proof.
  intros H. unfold shl_align.
  destruct (e' - e) as [|p|p] eqn:E; try lia.
  - replace (e - e') with 0 by lia. reflexivity.
  - replace (e - e') with (Zpos p) by lia. reflexivity.
Qed.

Lemma cond_Zopp_pshl s n k :
  0 <= k -> cond_Zopp s (Zpos (pshl n k)) = cond_Zopp s (Zpos n) * 2 ^ k.
Proof. intros. rewrite Zpos_pshl by assumption. destruct s; cbn [cond_Zopp]; ring. Qed.

Lemma normalize_int z K :
  Z.abs z < 2 ^ 53 -> 0 <= K ->
  binary_normalize prec emax (z * 2 ^ K) (- K) false = of_ll z.
Proof.
  intros Hz HK.
  destruct z as [|n|n].
  - reflexivity.
  - assert (Hd : Zpos (digits2_pos n) <= 53) by (apply digits2_bound; lia).
    rewrite <- Zpos_pshl by assumption. cbn [binary_normalize].
    rewrite binary_round_int by assumption. now rewrite of_ll_pos.
  - assert (Hd : Zpos (digits2_pos n) <= 53) by (apply digits2_bound; lia).
    change (Z.neg n) with (- Zpos n). rewrite Z.mul_opp_l, <- Zpos_pshl by assumption.
    cbn [binary_normalize Z.opp].
    rewrite binary_round_int by assumption.
    change (- Z.pos n) with (Z.neg n). now rewrite of_ll_neg.
Qed.

Lemma dadd_canon sa a sb b :
  Zpos (digits2_pos a) <= 53 -> Zpos (digits2_pos b) <= 53 ->
  Z.abs (cond_Zopp sa (Zpos a) + cond_Zopp sb (Zpos b)) < 2 ^ 53 ->
  dadd (canon sa a) (canon sb b) = of_ll (cond_Zopp sa (Zpos a) + cond_Zopp sb (Zpos b)).
Proof.
  intros Ha Hb Hab. unfold dadd, canon. cbn [SFadd].
  set (da := Zpos (digits2_pos a)) in *. set (db := Zpos (digits2_pos b)) in *.
  assert (1 <= da) by (unfold da; lia). assert (1 <= db) by (unfold db; lia).
  set (ez := Z.min (da - 53) (db - 53)).
  rewrite !fst_shl_align by (unfold ez; lia).
  rewrite !pshl_pshl by (unfold ez; lia).
  replace (53 - da + (da - 53 - ez)) with (- ez) by lia.
  replace (53 - db + (db - 53 - ez)) with (- ez) by lia.
  rewrite !cond_Zopp_pshl by (unfold ez; lia).
  rewrite <- Z.mul_add_distr_r.
  pose proof (normalize_int (cond_Zopp sa (Z.pos a) + cond_Zopp sb (Z.pos b)) (- ez) Hab) as N.
  rewrite Z.opp_involutive in N. apply N. unfold ez; lia.
Qed.

(** Integers of magnitude below 2^53 add without rounding. *)
Lemma dadd_exact a b :
  Z.abs a < 2 ^ 53 -> Z.abs b < 2 ^ 53 -> Z.abs (a + b) < 2 ^ 53 ->
  dadd (of_ll a) (of_ll b) = of_ll (a + b).
Proof.
  intros Ha Hb Hab.
  destruct a as [|a|a]; destruct b as [|b|b].
  - reflexivity.
  - rewrite Z.add_0_l, of_ll_pos by (apply digits2_bound; lia). reflexivity.
  - rewrite Z.add_0_l, of_ll_neg by (apply digits2_bound; lia). reflexivity.
  - rewrite Z.add_0_r, of_ll_pos by (apply digits2_bound; lia). reflexivity.
  - rewrite !of_ll_pos by (apply digits2_bound; lia).
    apply (dadd_canon false a false b); try (apply digits2_bound; lia). exact Hab.
  - rewrite of_ll_pos, of_ll_neg by (apply digits2_bound; lia).
    apply (dadd_canon false a true b); try (apply digits2_bound; lia). exact Hab.
  - rewrite Z.add_0_r, of_ll_neg by (apply digits2_bound; lia). reflexivity.
  - rewrite of_ll_pos, of_ll_neg by (apply digits2_bound; lia).
    apply (dadd_canon true a false b); try (apply digits2_bound; lia). exact Hab.
  - rewrite !of_ll_neg by (apply digits2_bound; lia).
    apply (dadd_canon true a true b); try (apply digits2_bound; lia). exact Hab.
Qed.

(** ** Machine integers *)

Lemma wrap_small bits z :
  0 < bits -> - 2 ^ (bits - 1) <= z < 2 ^ (bits - 1) -> wrap bits z = z.
Proof.
  intros Hb Hz. unfold wrap.
  assert (E : 2 ^ bits = 2 * 2 ^ (bits - 1)).
  { replace bits with (Z.succ (bits - 1)) at 1 by lia. apply Z.pow_succ_r. lia. }
  rewrite Z.mod_small by lia. lia.
Qed.

Lemma wrap32_small z : INT_MIN <= z <= INT_MAX -> wrap32 z = z.
Proof. unfold INT_MIN, INT_MAX. intros. apply wrap_small; [lia|]. change (32 - 1) with 31. lia. Qed.

Lemma wrap64_small z : LLONG_MIN <= z <= LLONG_MAX -> wrap64 z = z.
Proof. unfold LLONG_MIN, LLONG_MAX. intros. apply wrap_small; [lia|]. change (64 - 1) with 63. lia. Qed.

Lemma wrap64_range z : LLONG_MIN <= wrap64 z <= LLONG_MAX.
Proof.
  unfold wrap64, wrap, LLONG_MIN, LLONG_MAX. change (64 - 1) with 63.
  pose proof (Z.mod_pos_bound (z + 2 ^ 63) (2 ^ 64) ltac:(lia)).
  change (2 ^ 64) with (2 * 2 ^ 63) in *. lia.
Qed.

Lemma wrap32_succ k : wrap32 (wrap32 k + 1) = wrap32 (k + 1).
Proof.
  unfold wrap32, wrap. f_equal.
  replace ((k + 2 ^ (32 - 1)) mod 2 ^ 32 - 2 ^ (32 - 1) + 1 + 2 ^ (32 - 1))
    with ((k + 2 ^ (32 - 1)) mod 2 ^ 32 + 1) by lia.
  rewrite Z.add_mod_idemp_l by lia. f_equal. lia.
Qed.

(** ** One accumulator *)

Lemma min_if x m : (if x <? m then x else m) = Z.min x m.
Proof. destruct (Z.ltb_spec x m); lia. Qed.

Lemma max_if x m : (if x >? m then x else m) = Z.max x m.
Proof. rewrite Z.gtb_ltb. destruct (Z.ltb_spec m x); lia. Qed.

Lemma acc_min_cons x zs : acc_min (x :: zs) = Z.min x (acc_min zs).
Proof. unfold acc_min. cbn [fold_right]. apply min_if. Qed.

Lemma acc_max_cons x zs : acc_max (x :: zs) = Z.max x (acc_max zs).
Proof. unfold acc_max. cbn [fold_right]. apply max_if. Qed.

Lemma acc_min_le_max zs : acc_min zs <= LLONG_MAX.
Proof. induction zs; [unfold acc_min; simpl; lia | rewrite acc_min_cons; lia]. Qed.

Lemma acc_max_ge_min zs : LLONG_MIN <= acc_max zs.
Proof. induction zs; [unfold acc_max; simpl; lia | rewrite acc_max_cons; lia]. Qed.

Lemma acc_min_app a b : acc_min (a ++ b) = Z.min (acc_min a) (acc_min b).
Proof.
  induction a as [|x a IH]; cbn [app].
  - pose proof (acc_min_le_max b). change (acc_min []) with LLONG_MAX. lia.
  - rewrite !acc_min_cons, IH. lia.
Qed.

Lemma acc_max_app a b : acc_max (a ++ b) = Z.max (acc_max a) (acc_max b).
Proof.
  induction a as [|x a IH]; cbn [app].
  - pose proof (acc_max_ge_min b). change (acc_max []) with LLONG_MIN. lia.
  - rewrite !acc_max_cons, IH. lia.
Qed.

Lemma acc_min_is_min zs :
  zs <> [] -> Forall (fun x => x <= LLONG_MAX) zs -> is_min (acc_min zs) zs.
Proof.
  intros Hne Hr. split.
  - induction zs as [|x zs IH]; [congruence|].
    rewrite acc_min_cons. inversion Hr; subst.
    destruct zs as [|y zs].
    + left. change (acc_min []) with LLONG_MAX. lia.
    + destruct (Z.min_spec x (acc_min (y :: zs))) as [[_ E]|[_ E]]; rewrite E.
      * now left.
      * right. apply IH; [congruence | assumption].
  - clear. induction zs as [|x zs IH]; constructor.
    + rewrite acc_min_cons. lia.
    + rewrite acc_min_cons. eapply Forall_impl; [|exact IH]. cbn. lia.
Qed.

Lemma acc_max_is_max zs :
  zs <> [] -> Forall (fun x => LLONG_MIN <= x) zs -> is_max (acc_max zs) zs.
Proof.
  intros Hne Hr. split.
  - induction zs as [|x zs IH]; [congruence|].
    rewrite acc_max_cons. inversion Hr; subst.
    destruct zs as [|y zs].
    + left. change (acc_max []) with LLONG_MIN. lia.
    + destruct (Z.max_spec x (acc_max (y :: zs))) as [[_ E]|[_ E]]; rewrite E.
      * right. apply IH; [congruence | assumption].
      * now left.
  - clear. induction zs as [|x zs IH]; constructor.
    + rewrite acc_max_cons. lia.
    + rewrite acc_max_cons. eapply Forall_impl; [|exact IH]. cbn. lia.
Qed.

Lemma zsum_app a b : zsum (a ++ b) = zsum a + zsum b.
Proof. induction a; cbn [app zsum fold_right] in *; [reflexivity | unfold zsum in *; lia]. Qed.

Lemma sum_abs_app a b : sum_abs (a ++ b) = sum_abs a + sum_abs b.
Proof. induction a; cbn [app sum_abs fold_right] in *; [reflexivity | unfold sum_abs in *; lia]. Qed.

Lemma sum_sq_app a b : sum_sq (a ++ b) = sum_sq a + sum_sq b.
Proof. induction a; cbn [app sum_sq fold_right] in *; [reflexivity | unfold sum_sq in *; lia]. Qed.

Lemma sum_abs_nonneg xs : 0 <= sum_abs xs.
Proof. induction xs; cbn [sum_abs fold_right] in *; [lia | unfold sum_abs in *; lia]. Qed.

Lemma sum_sq_nonneg xs : 0 <= sum_sq xs.
Proof. induction xs; cbn [sum_sq fold_right] in *; [lia | unfold sum_sq in *; nia]. Qed.

Lemma zsum_le_abs xs : Z.abs (zsum xs) <= sum_abs xs.
Proof. induction xs; cbn [zsum sum_abs fold_right] in *; [lia | unfold zsum, sum_abs in *; lia]. Qed.

Lemma sum_abs_le_sq xs : sum_abs xs <= sum_sq xs.
Proof. induction xs; cbn [sum_sq sum_abs fold_right] in *; [lia | unfold sum_sq, sum_abs in *; nia]. Qed.

Lemma acc_sum_exact zs : sum_abs zs < 2 ^ 53 -> acc_sum zs = of_ll (zsum zs).
Proof.
  induction zs as [|x zs IH]; intros H; [reflexivity|].
  change (acc_sum (x :: zs)) with (dadd (acc_sum zs) (of_ll x)).
  change (sum_abs (x :: zs)) with (Z.abs x + sum_abs zs) in H.
  change (zsum (x :: zs)) with (x + zsum zs).
  pose proof (sum_abs_nonneg zs). pose proof (zsum_le_abs zs).
  rewrite IH by lia. rewrite dadd_exact by lia. f_equal. lia.
Qed.

Lemma acc_sum2_exact zs : sum_sq zs < 2 ^ 53 -> acc_sum2 zs = of_ll (sum_sq zs).
Proof.
  induction zs as [|x zs IH]; intros H; [reflexivity|].
  change (acc_sum2 (x :: zs)) with (dadd (acc_sum2 zs) (of_ll (wrap64 (x * x)))).
  change (sum_sq (x :: zs)) with (x * x + sum_sq zs) in *.
  pose proof (sum_sq_nonneg zs). assert (0 <= x * x) by nia.
  rewrite IH by lia. rewrite wrap64_small by (unfold LLONG_MIN, LLONG_MAX; lia).
  rewrite dadd_exact by lia. f_equal. lia.
Qed.

(** ** The run accumulators *)

Lemma run_min_concat ws : run_min ws = acc_min (concat ws).
Proof.
  induction ws as [|w ws IH]; [reflexivity|].
  change (run_min (w :: ws)) with (if acc_min w <? run_min ws then acc_min w else run_min ws).
  cbn [concat]. rewrite min_if, acc_min_app, IH. reflexivity.
Qed.

Lemma run_max_concat ws : run_max ws = acc_max (concat ws).
Proof.
  induction ws as [|w ws IH]; [reflexivity|].
  change (run_max (w :: ws)) with (if acc_max w >? run_max ws then acc_max w else run_max ws).
  cbn [concat]. rewrite max_if, acc_max_app, IH. reflexivity.
Qed.

Lemma run_sum_exact ws :
  sum_abs (concat ws) < 2 ^ 53 -> run_sum ws = of_ll (zsum (concat ws)).
Proof.
  induction ws as [|w ws IH]; intros H; [reflexivity|].
  change (run_sum (w :: ws)) with (dadd (run_sum ws) (acc_sum w)).
  cbn [concat] in *. rewrite sum_abs_app in H. rewrite zsum_app.
  pose proof (sum_abs_nonneg w). pose proof (sum_abs_nonneg (concat ws)).
  pose proof (zsum_le_abs w). pose proof (zsum_le_abs (concat ws)).
  rewrite IH, acc_sum_exact by lia. rewrite dadd_exact by lia. f_equal. lia.
Qed.

Lemma run_sum2_exact ws :
  sum_sq (concat ws) < 2 ^ 53 -> run_sum2 ws = of_ll (sum_sq (concat ws)).
Proof.
  induction ws as [|w ws IH]; intros H; [reflexivity|].
  change (run_sum2 (w :: ws)) with (dadd (run_sum2 ws) (acc_sum2 w)).
  cbn [concat] in *. rewrite sum_sq_app in *.
  pose proof (sum_sq_nonneg w). pose proof (sum_sq_nonneg (concat ws)).
  rewrite IH, acc_sum2_exact by lia. rewrite dadd_exact by lia. f_equal. lia.
Qed.

(** ** Feeding samples: closed windows and the open one *)

Lemma length_concat_windows (p : Z) (ws : list (list Z)) :
  Forall (fun w => Z.of_nat (List.length w) = p) ws ->
  Z.of_nat (List.length (concat ws)) = p * Z.of_nat (List.length ws).
Proof.
  induction 1 as [|w ws Hw _ IH]; cbn [concat List.length]; [lia|].
  rewrite length_app. lia.
Qed.

Lemma record_vars_of ws zs x :
  record x (next_request (vars_of ws zs)) = vars_of ws (x :: zs).
Proof.
  unfold record, next_request, vars_of. cbn [request part_min part_max time_min
    time_max time_sum time_sum2 part_sum part_sum2]. f_equal.
  rewrite wrap32_succ. f_equal. cbn [app List.length]. lia.
Qed.

Lemma flush_vars_of ws zs :
  reset_part (fold_part (vars_of ws zs)) = vars_of (zs :: ws) [].
Proof.
  unfold reset_part, fold_part, vars_of. cbn [request part_min part_max time_min
    time_max time_sum time_sum2 part_sum part_sum2]. reflexivity.
Qed.

Lemma window_line_vars_of c ws zs : window_line c (vars_of ws zs) = line_of c zs.
Proof. reflexivity. Qed.

(** With a positive period and a counter that has not wrapped, the window is
    flushed exactly when it holds [period] samples. *)
Lemma flushes_full c ws zs x :
  0 < period c ->
  Z.of_nat (List.length ((x :: zs) ++ concat ws)) <= INT_MAX ->
  Forall (fun w => Z.of_nat (List.length w) = period c) ws ->
  Z.of_nat (List.length zs) < period c ->
  flushes c (vars_of ws (x :: zs)) = (Z.of_nat (List.length (x :: zs)) =? period c).
Proof.
  intros Hp Hn Hws Hzs. unfold flushes, vars_of. cbn [request].
  rewrite wrap32_small by (unfold INT_MIN, INT_MAX in *; lia).
  unfold c_rem.
  replace (period c =? 0) with false by (symmetry; apply Z.eqb_neq; lia).
  replace (period c =? -1) with false by (symmetry; apply Z.eqb_neq; lia).
  rewrite andb_false_r. cbn [negb orb andb].
  rewrite Z.rem_mod_nonneg by lia.
  rewrite length_app, Nat2Z.inj_add, (length_concat_windows (period c)) by assumption.
  rewrite Z.mul_comm, Z_mod_plus_full.
  set (k := Z.of_nat (List.length (x :: zs))) in *.
  assert (1 <= k <= period c) by (unfold k; cbn [List.length]; lia).
  destruct (Z.eqb_spec k (period c)) as [E|E].
  - rewrite E, Z_mod_same_full. reflexivity.
  - rewrite Z.mod_small by lia. apply Z.eqb_neq. lia.
Qed.

Lemma feed_shape c xs :
  exists ws zs,
    xs = zs ++ concat ws /\
    feed c xs = vars_of ws zs /\
    reports_from c init_vars xs = map (line_of c) ws /\
    (0 < period c -> Z.of_nat (List.length xs) <= INT_MAX ->
     Forall (fun w => Z.of_nat (List.length w) = period c) ws /\
     Z.of_nat (List.length zs) < period c).
Proof.
  induction xs as [|x xs IH].
  - exists [], []. repeat split; try reflexivity; intros; [constructor | cbn; lia].
  - destruct IH as (ws & zs & Exs & Ef & Er & Hw).
    unfold feed in *. cbn [feed_from fold_right reports_from] in *.
    fold (feed_from c init_vars xs) in *. rewrite Ef. unfold step.
    rewrite record_vars_of.
    destruct (flushes c (vars_of ws (x :: zs))) eqn:Fl.
    + exists ((x :: zs) :: ws), []. rewrite flush_vars_of, window_line_vars_of.
      repeat split.
      * cbn [app concat]. now rewrite Exs.
      * cbn [map]. now rewrite Er.
      * destruct Hw as [Hws Hzs]; [assumption | cbn [List.length] in *; lia |].
        constructor; [|assumption].
        rewrite flushes_full in Fl; try assumption.
        -- now apply Z.eqb_eq in Fl.
        -- rewrite <- app_comm_cons, <- Exs. assumption.
      * cbn [List.length]. lia.
    + exists ws, (x :: zs). repeat split.
      * cbn [app]. now rewrite Exs.
      * assumption.
      * destruct Hw as [Hws Hzs]; [assumption | cbn [List.length] in *; lia |]. assumption.
      * destruct Hw as [Hws Hzs]; [assumption | cbn [List.length] in *; lia |].
        rewrite flushes_full in Fl; try assumption.
        -- apply Z.eqb_neq in Fl. cbn [List.length] in *. lia.
        -- rewrite <- app_comm_cons, <- Exs. assumption.
Qed.

Lemma final_shape c xs :
  let v := fold_part (feed c xs) in
  request v = wrap32 (Z.of_nat (List.length xs)) /\
  time_min v = acc_min xs /\
  time_max v = acc_max xs /\
  (sum_abs xs < 2 ^ 53 -> time_sum v = of_ll (zsum xs)) /\
  (sum_sq xs < 2 ^ 53 -> time_sum2 v = of_ll (sum_sq xs)).
Proof.
  destruct (feed_shape c xs) as (ws & zs & Exs & Ef & _ & _).
  cbn zeta. rewrite Ef. unfold fold_part, vars_of.
  cbn [request part_min part_max time_min time_max time_sum time_sum2 part_sum part_sum2].
  rewrite min_if, max_if, run_min_concat, run_max_concat, <- acc_min_app, <- acc_max_app, <- Exs.
  repeat split; intros H.
  - rewrite Exs, sum_abs_app in H. rewrite Exs, zsum_app.
    pose proof (sum_abs_nonneg zs). pose proof (sum_abs_nonneg (concat ws)).
    pose proof (zsum_le_abs zs). pose proof (zsum_le_abs (concat ws)).
    rewrite run_sum_exact, acc_sum_exact by lia. rewrite dadd_exact by lia. f_equal. lia.
  - rewrite Exs, sum_sq_app in *.
    pose proof (sum_sq_nonneg zs). pose proof (sum_sq_nonneg (concat ws)).
    rewrite run_sum2_exact, acc_sum2_exact by lia. rewrite dadd_exact by lia. f_equal. lia.
Qed.

(** ** The driver *)

Arguments of_ll : simpl never.
Arguments dadd : simpl never.
Arguments dsub : simpl never.
Arguments dmul : simpl never.
Arguments ddiv : simpl never.
Arguments dsqrt : simpl never.
Arguments wrap32 : simpl never.
Arguments wrap64 : simpl never.
Arguments c_rem : simpl never.
Arguments record : simpl never.
Arguments next_request : simpl never.
Arguments fold_part : simpl never.
Arguments reset_part : simpl never.
Arguments window_line : simpl never.
Arguments ev_window : simpl never.
Arguments mdev : simpl never.
Arguments ms : simpl never.
Arguments dms : simpl never.
Arguments useconds : simpl never.

Lemma window_reports_window l tr :
  window_reports (ev_window l :: tr) = l :: window_reports tr.
Proof. destruct l as [[[a b] c] d]. reflexivity. Qed.

Lemma latencies_window l tr : latencies (ev_window l :: tr) = latencies tr.
Proof. destruct l as [[[a b] c] d]. reflexivity. Qed.


Ltac inv H := inversion H; subst; clear H.

Ltac unfold_io H :=
  unfold body, timed_read, window_check, flush_window, loop_head, finalize, now, bind,
    gettimeofday, posix_fadvise, pread, usleep, emit, err, ret, undefined,
    read_exiting, sig_exit, push in H;
  cbn in H.

Ltac step_run H :=
  match type of H with
  | context [match ?l with [] => _ | _ :: _ => _ end] => is_var l; destruct l as [|? ?]
  | context [match ?o with Some _ => _ | None => _ end] => is_var o; destruct o
  | context [let (_, _) := ?p in _] => is_var p; destruct p
  | context [if ?b then _ else _] =>
      lazymatch b with
      | context [match _ with _ => _ end] => fail
      | _ => destruct b eqn:?
      end
  | context [match ?o with Some _ => _ | None => _ end] =>
      lazymatch o with
      | context [match _ with _ => _ end] => fail
      | _ => destruct o eqn:?
      end
  end; cbn in H; try discriminate H.

Lemma latencies_measured t1 r e t0 tr :
  latencies (EvGettimeofday (Some t1) :: EvPread r e :: EvGettimeofday (Some t0) :: tr)
  = wrap64 (t1 - t0) :: latencies (EvGettimeofday (Some t0) :: tr).
Proof. reflexivity. Qed.

Lemma latencies_skip e tr :
  match e with EvGettimeofday _ => False | _ => True end ->
  latencies (e :: tr) = latencies tr.
Proof. destruct e; cbn; tauto. Qed.

Lemma latencies_clock r tr :
  quiescent tr -> latencies (EvGettimeofday r :: tr) = latencies tr.
Proof. destruct r; [|reflexivity]. destruct tr as [|[] tr]; cbn; intros; tauto. Qed.

Lemma body_ok c v w v' w' :
  body c v w = (Ok v', w') -> quiescent (trace w) ->
  exists x,
    v' = step c x v /\
    latencies (trace w') = x :: latencies (trace w) /\
    window_reports (trace w') =
      (if flushes c (record x (next_request v))
       then [window_line c (record x (next_request v))] else [])
      ++ window_reports (trace w) /\
    quiescent (trace w') /\
    (List.length (clock w') < List.length (clock w))%nat.
Proof.
  destruct w as [clk sigs fadv prd ex tr]. cbn [trace clock].
  intros H Q. unfold_io H.
  repeat step_run H.
  all: inv H; eexists; unfold step, flushes.
  all: cbn [trace clock].
  all: repeat match goal with E : _ = _ |- _ => rewrite E end.
  all: cbn [negb andb app List.length].
  all: repeat rewrite latencies_window.
  all: repeat rewrite latencies_skip by exact I.
  all: rewrite latencies_measured.
  all: repeat rewrite latencies_skip by exact I.
  all: rewrite latencies_clock by (assumption || exact I).
  all: repeat split; try lia.
Qed.

Lemma loop_head_ok c dl v w go w' :
  loop_head c dl v w = (Ok go, w') -> quiescent (trace w) ->
  latencies (trace w') = latencies (trace w) /\
  window_reports (trace w') = window_reports (trace w) /\
  quiescent (trace w') /\
  (List.length (clock w') <= List.length (clock w))%nat.
Proof.
  destruct w as [clk sigs fadv prd ex tr]. cbn [trace clock].
  intros H Q. unfold_io H.
  repeat step_run H.
  all: inv H; cbn [trace clock List.length].
  all: try rewrite latencies_clock by assumption.
  all: repeat split; try assumption; try lia.
Qed.

Lemma feed_from_app c v a b :
  feed_from c v (a ++ b) = feed_from c (feed_from c v b) a.
Proof. unfold feed_from. apply fold_right_app. Qed.

Lemma reports_from_app c v a b :
  reports_from c v (a ++ b) = reports_from c (feed_from c v b) a ++ reports_from c v b.
Proof.
  induction a as [|x a IH]; [reflexivity|].
  cbn [app reports_from]. rewrite feed_from_app, IH.
  destruct (flushes c _); reflexivity.
Qed.

Lemma loop_ok c dl fuel : forall v w v' w',
  loop fuel c dl v w = (Ok v', w') -> quiescent (trace w) ->
  exists xs,
    v' = feed_from c v xs /\
    latencies (trace w') = xs ++ latencies (trace w) /\
    window_reports (trace w') = reports_from c v xs ++ window_reports (trace w) /\
    quiescent (trace w').
Proof.
  induction fuel as [|fuel IH]; intros v w v' w' H Q; [discriminate|].
  cbn [loop] in H. unfold bind at 1 in H.
  destruct (loop_head c dl v w) as [[go|r] w1] eqn:Eh; [|discriminate].
  destruct (loop_head_ok _ _ _ _ _ _ Eh Q) as (L1 & R1 & Q1 & _).
  destruct go.
  - unfold bind in H.
    destruct (body c v w1) as [[v1|r] w2] eqn:Eb; [|discriminate].
    destruct (body_ok _ _ _ _ _ Eb Q1) as (x & Ev & L2 & R2 & Q2 & _).
    destruct (IH _ _ _ _ H Q2) as (xs & Ev' & L3 & R3 & Q3).
    exists (xs ++ [x]). rewrite feed_from_app, reports_from_app.
    cbn [feed_from fold_right reports_from]. fold (feed_from c v []).
    repeat split.
    + now rewrite Ev', Ev.
    + rewrite L3, L2, L1, <- app_assoc. reflexivity.
    + rewrite R3, R2, R1, <- app_assoc, Ev. f_equal.
    + assumption.
  - unfold ret in H. inv H. exists []. cbn. auto.
Qed.

Lemma finalize_ok c t0 v w sm w' :
  finalize c t0 v w = (Ok sm, w') -> quiescent (trace w) ->
  exists t1,
    sm = mkSummary (fold_part v) (wrap64 (t1 - t0))
           (fst (mdev (time_sum (fold_part v)) (time_sum2 (fold_part v))
                      (of_ll (request (fold_part v)))))
           (snd (mdev (time_sum (fold_part v)) (time_sum2 (fold_part v))
                      (of_ll (request (fold_part v))))) /\
    trace w' = summary_lines c sm ++ EvGettimeofday (Some t1) :: trace w /\
    latencies (trace w') = latencies (trace w) /\
    window_reports (trace w') = window_reports (trace w).
Proof.
  destruct w as [clk sigs fadv prd ex tr]. cbn [trace clock].
  intros H Q. unfold_io H.
  repeat step_run H.
  all: inv H; eexists; split; [reflexivity|].
  all: unfold summary_lines; cbn [final time_total time_avg time_mdev trace].
  all: repeat match goal with E : _ = _ |- _ => rewrite E end; cbn [app].
  all: repeat rewrite latencies_skip by exact I.
  all: rewrite latencies_clock by assumption.
  all: repeat split.
Qed.

Lemma bind_ok {A B} (m : M A) (k : A -> M B) w b w2 :
  bind m k w = (Ok b, w2) ->
  exists a w1, m w = (Ok a, w1) /\ k a w1 = (Ok b, w2).
Proof.
  unfold bind. destruct (m w) as [[a|r] w1]; intros H; [eauto | discriminate].
Qed.

Lemma now_ok w t w' :
  now w = (Ok t, w') ->
  trace w' = EvGettimeofday (Some t) :: trace w /\
  clock w = Some t :: clock w' /\
  exiting w' = exiting w.
Proof.
  destruct w as [clk sigs fadv prd ex tr]. intros H. unfold_io H.
  repeat step_run H. inv H. cbn. auto.
Qed.

(** What [main] leaves behind when it returns, in terms of the samples it
    measured. *)
Lemma main_ok c clk sigs fadv prd sm w' :
  main c (boot clk sigs fadv prd) = (Ok sm, w') ->
  let xs := latencies (trace w') in
  let v := fold_part (feed c xs) in
  final sm = v /\
  time_avg sm = fst (mdev (time_sum v) (time_sum2 v) (of_ll (request v))) /\
  time_mdev sm = snd (mdev (time_sum v) (time_sum2 v) (of_ll (request v))) /\
  window_reports (trace w') = reports_from c init_vars xs /\
  exists tr, trace w' = summary_lines c sm ++ tr.
Proof.
  intros H. unfold main in H.
  apply bind_ok in H. destruct H as (dl & w1 & H1 & H).
  apply bind_ok in H. destruct H as (t0 & w2 & H2 & H).
  apply bind_ok in H. destruct H as (v1 & w3 & H3 & H).
  assert (T1 : quiescent (trace w1) /\ latencies (trace w1) = [] /\ window_reports (trace w1) = []).
  { destruct (deadline c =? 0).
    - unfold ret in H1. inv H1. cbn. auto.
    - apply bind_ok in H1. destruct H1 as (t & wa & Ha & H1).
      unfold ret in H1. inv H1. apply now_ok in Ha. destruct Ha as (Tr & _).
      rewrite Tr. cbn. auto. }
  destruct T1 as (Q1 & L1 & R1).
  apply now_ok in H2. destruct H2 as (Tr2 & _ & _).
  assert (Q2 : quiescent (trace w2)) by (rewrite Tr2; exact I).
  destruct (loop_ok _ _ _ _ _ _ _ H3 Q2) as (xs & Ev & L3 & R3 & Q3).
  destruct (finalize_ok _ _ _ _ _ _ H Q3) as (t1 & Es & Tr & L4 & R4).
  rewrite Tr2, latencies_clock, L1, app_nil_r in L3 by assumption.
  rewrite Tr2 in R3. cbn [window_reports] in R3. rewrite R1, app_nil_r in R3.
  cbn zeta. rewrite L4, L3, R4, R3. fold (feed c xs) in Ev. rewrite <- Ev.
  rewrite Es at 1 2 3. cbn [final time_avg time_mdev].
  repeat split. eauto.
Qed.

Lemma latencies_range tr :
  Forall (fun x => LLONG_MIN <= x <= LLONG_MAX) (latencies tr).
Proof.
  induction tr as [|e tr IH]; [constructor|].
  destruct e as [[t1|]| | | | | | | | |]; try exact IH.
  destruct tr as [|[| |r e| | | | | | |] [|[[t0|]| | | | | | | | |] tr]]; try exact IH.
  cbn [latencies] in *. constructor; [apply wrap64_range | exact IH].
Qed.

(** C1. A run that returns after N >= 1 requests reports the true minimum
    and maximum of the N measured latencies, has counted N requests, and its
    mean is the quotient of the accumulated sum by N; as long as the
    latencies add up to less than 2^53 microseconds the accumulated sum is the
    exact sum, so the mean is the correctly rounded sum/N. This holds however
    the loop was left (count, deadline or SIGINT) and whatever the period. *)
Theorem C1_run_mean_min_max c clk sigs fadv prd sm w' :
  main c (boot clk sigs fadv prd) = (Ok sm, w') ->
  let xs := latencies (trace w') in
  let n := Z.of_nat (List.length xs) in
  1 <= n <= INT_MAX ->
  is_min (time_min (final sm)) xs /\
  is_max (time_max (final sm)) xs /\
  request (final sm) = n /\
  time_avg sm = ddiv (time_sum (final sm)) (of_ll n) /\
  (sum_abs xs < 2 ^ 53 ->
   time_avg sm = ddiv (of_ll (zsum xs)) (of_ll n)) /\
  (quiet c = false ->
   exists tr,
     trace w' = EvPrintMinAvgMaxMdev (ms (time_min (final sm))) (dms (time_avg sm))
                                     (ms (time_max (final sm))) (dms (time_mdev sm))
                :: EvPrintCompleted n (ms (time_total sm)) :: EvPrintHeader :: tr).
Proof.
  intros H xs n Hn.
  destruct (main_ok _ _ _ _ _ _ _ H) as (Ef & Ea & _ & _ & tr & Etr).
  fold xs in Ef, Ea. destruct (final_shape c xs) as (Er & Emin & Emax & Esum & _).
  cbn zeta in Er, Emin, Emax, Esum. rewrite <- Ef in *.
  assert (Hne : xs <> []) by (intros E; subst n; rewrite E in Hn; cbn in Hn; lia).
  pose proof (latencies_range (trace w')) as Hr. fold xs in Hr.
  fold n in Er. rewrite wrap32_small in Er by (unfold INT_MIN; lia).
  rewrite Er in Ea. cbn [mdev fst] in Ea.
  split; [|split; [|split; [|split; [|split]]]].
  - rewrite Emin. apply acc_min_is_min; [assumption|].
    eapply Forall_impl; [|exact Hr]. cbn. lia.
  - rewrite Emax. apply acc_max_is_max; [assumption|].
    eapply Forall_impl; [|exact Hr]. cbn. lia.
  - exact Er.
  - exact Ea.
  - intros Hs. rewrite Ea, Esum by assumption. reflexivity.
  - intros Hq. unfold summary_lines in Etr. rewrite Hq, Er in Etr. exists tr. exact Etr.
Qed.

Lemma C1_witness :
  exists sm w',
    main (cfg false 2 3) (world_of [10; 20; 30]) = (Ok sm, w') /\
    latencies (trace w') = [30; 20; 10] /\
    is_min (time_min (final sm)) [30; 20; 10] /\
    is_max (time_max (final sm)) [30; 20; 10] /\
    time_avg sm = ddiv (of_ll 60) (of_ll 3).
Proof.
  destruct (main (cfg false 2 3) (world_of [10; 20; 30])) as [[sm|r] w'] eqn:E.
  - pose proof (C1_run_mean_min_max _ _ _ _ _ _ _ E) as T.
    vm_compute in E. inv E. cbn zeta in T.
    change (latencies _) with [30; 20; 10] in T.
    assert (Hn : 1 <= Z.of_nat (List.length [30; 20; 10]) <= INT_MAX)
      by (vm_compute; split; discriminate).
    destruct (T Hn) as (T1 & T2 & _ & _ & T3 & _).
    eexists _, _. split; [reflexivity|]. split; [reflexivity|].
    split; [exact T1|]. split; [exact T2|].
    apply T3. vm_compute. reflexivity.
  - vm_compute in E. discriminate E.
Defined.


(** Under the bound the accumulated sums are the exact ones. *)
Lemma mdev_exact zs n :
  sum_sq zs < 2 ^ 53 -> n = Z.of_nat (List.length zs) ->
  mdev (acc_sum zs) (acc_sum2 zs) (of_ll n) = (pop_mean zs, pop_stdev zs).
Proof.
  intros Hs ->. pose proof (sum_abs_le_sq zs).
  rewrite acc_sum_exact, acc_sum2_exact by lia. reflexivity.
Qed.

Lemma summary_exact c clk sigs fadv prd sm w' :
  main c (boot clk sigs fadv prd) = (Ok sm, w') ->
  let xs := latencies (trace w') in
  Z.of_nat (List.length xs) <= INT_MAX ->
  sum_sq xs < 2 ^ 53 ->
  time_avg sm = pop_mean xs /\ time_mdev sm = pop_stdev xs /\
  time_min (final sm) = acc_min xs /\ time_max (final sm) = acc_max xs.
Proof.
  intros H xs Hn Hs.
  destruct (main_ok _ _ _ _ _ _ _ H) as (Ef & Ea & Ed & _).
  fold xs in Ef, Ea, Ed. destruct (final_shape c xs) as (Er & Emin & Emax & Esum & Esum2).
  cbn zeta in Er, Emin, Emax, Esum, Esum2. rewrite <- Ef in *.
  pose proof (sum_abs_le_sq xs).
  rewrite wrap32_small in Er by (unfold INT_MIN; lia).
  rewrite Er, Esum, Esum2 in Ea, Ed by lia.
  repeat split; assumption.
Qed.

(** C2 (amended). A run that flushes its window every P requests, P > 0
    dividing N, ends with
    - the same minimum and the same maximum as a single accumulator fed with
      all N samples and never flushed, with no bound on anything;
    - the same mean, while the counter has not wrapped and the absolute
      values of the latencies add up to less than 2^53;
    - the same deviation, and so the same four aggregates, while the counter
      has not wrapped and the squares of the latencies add up to less than
      2^53 (no accumulation rounds then). *)
Theorem C2_windowed_equals_single_accumulator c clk sigs fadv prd sm w' :
  main c (boot clk sigs fadv prd) = (Ok sm, w') ->
  let xs := latencies (trace w') in
  let n := Z.of_nat (List.length xs) in
  0 < period c -> (period c | n) ->
  min_of (aggregates sm) = min_of (single_accumulator xs) /\
  max_of (aggregates sm) = max_of (single_accumulator xs) /\
  (n <= INT_MAX -> sum_abs xs < 2 ^ 53 ->
   mean_of (aggregates sm) = mean_of (single_accumulator xs)) /\
  (n <= INT_MAX -> sum_sq xs < 2 ^ 53 ->
   aggregates sm = single_accumulator xs).
Proof.
  intros H xs n _ _.
  assert (All : n <= INT_MAX -> sum_sq xs < 2 ^ 53 -> aggregates sm = single_accumulator xs).
  { intros Hn Hs.
    destruct (summary_exact _ _ _ _ _ _ _ H Hn Hs) as (Ea & Ed & Emin & Emax).
    unfold aggregates, single_accumulator. fold xs in Ea, Ed, Emin, Emax |- *.
    rewrite (mdev_exact xs _ Hs eq_refl), Ea, Ed, Emin, Emax. reflexivity. }
  destruct (main_ok _ _ _ _ _ _ _ H) as (Ef & Ea & _).
  fold xs in Ef, Ea. destruct (final_shape c xs) as (Er & Emin & Emax & Esum & _).
  cbn zeta in Er, Emin, Emax, Esum. rewrite <- Ef in *.
  unfold aggregates, single_accumulator, mdev, min_of, max_of, mean_of. cbn [fst snd].
  split; [exact Emin|]. split; [exact Emax|]. split.
  - intros Hn Hs. rewrite Ea. unfold mdev. cbn [fst].
    rewrite wrap32_small in Er by (unfold INT_MIN; lia).
    rewrite Er, Esum, acc_sum_exact by assumption. reflexivity.
  - exact All.
Qed.

Lemma C2_witness :
  exists sm w',
    main (cfg true 2 4) (world_of [10; 20; 30; 40]) = (Ok sm, w') /\
    aggregates sm = single_accumulator [40; 30; 20; 10] /\
    min_of (aggregates sm) = 10 /\ max_of (aggregates sm) = 40 /\
    mean_of (aggregates sm) = of_ll 25.
Proof.
  destruct (main (cfg true 2 4) (world_of [10; 20; 30; 40])) as [[sm|r] w'] eqn:E.
  - pose proof (C2_windowed_equals_single_accumulator _ _ _ _ _ _ _ E) as T.
    vm_compute in E. inv E. cbn zeta in T.
    change (latencies _) with [40; 30; 20; 10] in T.
    destruct T as (Tmin & Tmax & Tmean & Tall).
    + reflexivity.
    + exists 2. reflexivity.
    + eexists _, _. split; [reflexivity|].
      split; [apply Tall; [vm_compute; discriminate | vm_compute; reflexivity]|].
      split; [rewrite Tmin; reflexivity|]. split; [rewrite Tmax; reflexivity|].
      rewrite Tmean; [vm_compute; reflexivity | vm_compute; discriminate
                     | vm_compute; reflexivity].
  - vm_compute in E. discriminate E.
Defined.

(** C2 as stated fails: with latencies 2^30, 0, 11, 11 microseconds and
    P = 2 the sum of squares is rounded differently in the two windows than
    in one accumulator, and the deviations differ in the last bit; the mean,
    the minimum and the maximum are the same. The same requests measured
    with no period give the single accumulator's value. *)
Lemma C2_counterexample :
  exists sm w' sm0 w0,
    main (cfg true 2 4) (world_of [2 ^ 30; 0; 11; 11]) = (Ok sm, w') /\
    main (cfg true 0 4) (world_of [2 ^ 30; 0; 11; 11]) = (Ok sm0, w0) /\
    latencies (trace w') = [11; 11; 0; 2 ^ 30] /\
    latencies (trace w0) = [11; 11; 0; 2 ^ 30] /\
    0 < period (cfg true 2 4) /\
    (period (cfg true 2 4) | Z.of_nat (List.length (latencies (trace w')))) /\
    aggregates sm0 = single_accumulator [11; 11; 0; 2 ^ 30] /\
    aggregates sm <> single_accumulator [11; 11; 0; 2 ^ 30] /\
    mean_of (aggregates sm) = mean_of (single_accumulator [11; 11; 0; 2 ^ 30]) /\
    min_of (aggregates sm) = min_of (single_accumulator [11; 11; 0; 2 ^ 30]) /\
    max_of (aggregates sm) = max_of (single_accumulator [11; 11; 0; 2 ^ 30]) /\
    dev_of (aggregates sm) <> dev_of (single_accumulator [11; 11; 0; 2 ^ 30]) /\
    2 ^ 53 <= sum_sq [11; 11; 0; 2 ^ 30].
Proof.
  eexists _, _, _, _.
  split; [vm_compute; reflexivity|]. split; [vm_compute; reflexivity|].
  split; [vm_compute; reflexivity|]. split; [vm_compute; reflexivity|].
  split; [reflexivity|]. split; [exists 2; reflexivity|].
  split; [vm_compute; reflexivity|]. split; [vm_compute; discriminate|].
  split; [vm_compute; reflexivity|]. split; [vm_compute; reflexivity|].
  split; [vm_compute; reflexivity|]. split; [vm_compute; discriminate|].
  vm_compute. discriminate.
Qed.




(** ** Every way a run can end *)

Lemma summary_window l : is_summary (ev_window l) = false.
Proof. destruct l as [[[a b] c] d]. reflexivity. Qed.

Lemma fatal_window l : is_fatal (ev_window l) = false.
Proof. destruct l as [[[a b] c] d]. reflexivity. Qed.

Lemma human_window l : is_human (ev_window l) = false.
Proof. destruct l as [[[a b] c] d]. reflexivity. Qed.

Lemma window_window l : is_window (ev_window l) = true.
Proof. destruct l as [[[a b] c] d]. reflexivity. Qed.

Create Rewrite HintDb events.
#[local] Hint Rewrite summary_window fatal_window human_window window_window
  window_reports_window latencies_window : events.


Lemma triple_bind {A B} (m : M A) (k : A -> M B) P Q R E :
  triple P m Q E -> (forall a, triple (Q a) (k a) R E) -> triple P (bind m k) R E.
Proof.
  intros Hm Hk w Hw. unfold bind. specialize (Hm w Hw).
  destruct (m w) as [[a|r] w1]; [apply (Hk a w1 Hm) | exact Hm].
Qed.

Lemma ends_bind {A B} (m : M A) (k : A -> M B) I E :
  ends m I E -> (forall a, ends (k a) I E) -> ends (bind m k) I E.
Proof. apply triple_bind. Qed.

Lemma ends_ret {A} (a : A) I E : ends (ret a) I E.
Proof. intros w Hw. exact Hw. Qed.

Lemma ends_loop c dl I E :
  (forall v, ends (loop_head c dl v) I E) ->
  (forall v, ends (body c v) I E) ->
  (forall w, I w -> E AOutOfFuel w) ->
  forall fuel v, ends (loop fuel c dl v) I E.
Proof.
  intros Hh Hb Hf. induction fuel as [|fuel IH]; intros v.
  - intros w Hw. cbn. auto.
  - cbn [loop]. apply ends_bind; [apply Hh|]. intros [|].
    + apply ends_bind; [apply Hb | apply IH].
    + apply ends_ret.
Qed.

Lemma main_triple c (I : world -> Prop) Q E :
  ends now I E ->
  (forall dl v, ends (loop_head c dl v) I E) ->
  (forall v, ends (body c v) I E) ->
  (forall w, I w -> E AOutOfFuel w) ->
  (forall t0 v, triple I (finalize c t0 v) Q E) ->
  triple I (main c) Q E.
Proof.
  intros Hn Hh Hb Hf Hz. unfold main.
  apply triple_bind with (Q := fun _ => I).
  { destruct (deadline c =? 0); [apply ends_ret|].
    apply ends_bind; [exact Hn | intros; apply ends_ret]. }
  intros dl. apply triple_bind with (Q := fun _ => I); [exact Hn|].
  intros t0. apply triple_bind with (Q := fun _ => I).
  { intros w Hw. apply (ends_loop c dl I E (Hh dl) Hb Hf); exact Hw. }
  intros v. apply Hz.
Qed.


Lemma no_window_reports tr : existsb is_window tr = false -> window_reports tr = [].
Proof.
  induction tr as [|e tr IH]; [reflexivity|].
  destruct e; cbn [existsb is_window orb window_reports]; intros H;
    (discriminate H || now apply IH).
Qed.


Ltac simpl_trace :=
  cbn [trace existsb is_summary is_fatal orb];
  autorewrite with events;
  repeat match goal with E : _ = _ |- _ => rewrite E end;
  cbn [negb orb andb].

Ltac all_paths H :=
  unfold_io H; repeat step_run H; inv H.

Ltac fatal_case :=
  match goal with
  | |- clean _ => split; simpl_trace; reflexivity
  | |- existsb _ _ = false => simpl_trace; reflexivity
  | |- fatal_end _ _ =>
      split; [simpl_trace; reflexivity |];
      simpl_trace; intros F;
      first [ discriminate F
            | split; [reflexivity|];
              eexists _, _, _; split; [reflexivity|];
              split; [simpl_trace; reflexivity | split; simpl_trace; reflexivity] ]
  end.

Ltac fatal_paths m :=
  let H := fresh "H" in
  let Hs := fresh "Hs" in
  let Hf := fresh "Hf" in
  intros [clk sigs fadv prd ex tr] [Hs Hf]; cbn [trace] in Hs, Hf;
  destruct (m (mkWorld clk sigs fadv prd ex tr)) as [[?|?] ?] eqn:H;
  all_paths H; fatal_case.

Lemma main_fatal c :
  triple (fun w => clean (trace w)) (main c)
         (fun _ w => existsb is_fatal (trace w) = false) fatal_end.
Proof.
  apply main_triple.
  - fatal_paths now.
  - intros dl v. fatal_paths (loop_head c dl v).
  - intros v. fatal_paths (body c v).
  - intros w [Hs Hf]. split; [assumption|]. rewrite Hf. discriminate.
  - intros t0 v. fatal_paths (finalize c t0 v).
Qed.

(** C3 (amended). When a read fails with anything but EINTR, or the cache
    invalidation fails, the process exits at once with status 1: the error
    message is the last thing it does, the failing call the one before, and
    no line of the final summary is printed. *)
Theorem C3_fatal_error_exits_without_summary c clk sigs fadv prd o w' :
  main c (boot clk sigs fadv prd) = (o, w') ->
  existsb is_fatal (trace w') = true ->
  o = Abort (AExit 1) /\
  (exists msg e tr, trace w' = EvErr 1 msg :: e :: tr /\ is_fatal e = true) /\
  existsb is_summary (trace w') = false.
Proof.
  intros H F.
  pose proof (main_fatal c (boot clk sigs fadv prd)) as T.
  rewrite H in T. specialize (T (conj eq_refl eq_refl)).
  destruct o as [sm|r].
  - rewrite T in F. discriminate.
  - destruct T as [S D]. destruct (D F) as (-> & msg & e & tr & Etr & Fe & _).
    split; [reflexivity|]. split; [|assumption]. eauto.
Qed.


Lemma C3_witness :
  fst (main (cfg false 0 0) world_eio) = Abort (AExit 1) /\
  existsb is_summary (trace (snd (main (cfg false 0 0) world_eio))) = false.
Proof.
  destruct (main (cfg false 0 0) world_eio) as [o w'] eqn:E.
  pose proof (C3_fatal_error_exits_without_summary _ _ _ _ _ _ _ E) as T.
  vm_compute in E. inv E.
  destruct T as (T1 & _ & T2); [vm_compute; reflexivity|].
  split; assumption.
Defined.

(** C3 as stated fails: in this run one sample was collected before the
    second read failed; the process exits with status 1 and no summary line
    is ever printed. *)
Lemma C3_counterexample :
  let r := main (cfg false 0 0) world_eio in
  existsb is_fatal (trace (snd r)) = true /\
  latencies (trace (snd r)) = [10] /\
  fst r = Abort (AExit 1) /\
  ~ (exists e, In e (trace (snd r)) /\ is_summary e = true).
Proof.
  vm_compute. repeat split.
  intros (e & Hin & Hs).
  repeat (destruct Hin as [<-|Hin]; [discriminate Hs|]). destruct Hin.
Qed.

(** ** The fuel of [main] never runs out *)

Lemma body_clock c v n :
  triple (fun w => List.length (clock w) = n) (body c v)
         (fun _ w => (List.length (clock w) < n)%nat) (fun r _ => r <> AOutOfFuel).
Proof.
  intros [clk sigs fadv prd ex tr] Hn. cbn [clock] in Hn.
  destruct (body c v _) as [[?|?] ?] eqn:H; all_paths H;
    cbn [clock List.length] in *; (lia || discriminate).
Qed.

Lemma loop_head_clock c dl v n :
  triple (fun w => List.length (clock w) = n) (loop_head c dl v)
         (fun _ w => (List.length (clock w) <= n)%nat) (fun r _ => r <> AOutOfFuel).
Proof.
  intros [clk sigs fadv prd ex tr] Hn. cbn [clock] in Hn.
  destruct (loop_head c dl v _) as [[?|?] ?] eqn:H; all_paths H;
    cbn [clock List.length] in *; (lia || discriminate).
Qed.

Lemma loop_fuel c dl : forall fuel v w,
  (List.length (clock w) < fuel)%nat ->
  fst (loop fuel c dl v w) <> Abort AOutOfFuel.
Proof.
  induction fuel as [|fuel IH]; intros v w Hf; [lia|].
  cbn [loop]. unfold bind at 1.
  pose proof (loop_head_clock c dl v _ w eq_refl) as Hh.
  destruct (loop_head c dl v w) as [[go|r1] w1].
  - destruct go; [|discriminate].
    unfold bind. pose proof (body_clock c v _ w1 eq_refl) as Hb.
    destruct (body c v w1) as [[v1|r2] w2].
    + apply IH. lia.
    + cbn [fst]. congruence.
  - cbn [fst]. congruence.
Qed.

Lemma main_fuel c w : fst (main c w) <> Abort AOutOfFuel.
Proof.
  assert (T : triple (fun _ => True) (main c) (fun _ _ => True) (fun r _ => r <> AOutOfFuel)).
  { assert (Hn : ends now (fun _ => True) (fun r _ => r <> AOutOfFuel)).
    { intros [clk sigs fadv prd ex tr] _.
      destruct (now _) as [[?|?] ?] eqn:H; all_paths H; (exact I || discriminate). }
    unfold main. apply triple_bind with (Q := fun _ _ => True).
    { destruct (deadline c =? 0); [apply ends_ret|].
      apply ends_bind; [exact Hn | intros; apply ends_ret]. }
    intros dl. apply triple_bind with (Q := fun _ _ => True); [exact Hn|].
    intros t0. apply triple_bind with (Q := fun _ _ => True).
    { intros w1 _.
      pose proof (loop_fuel c dl (S (List.length (clock w1))) init_vars w1
                            (Nat.lt_succ_diag_r _)) as L.
      destruct (loop _ c dl init_vars w1) as [[v|r] w2]; [exact I|].
      cbn [fst] in L. congruence. }
    intros v [clk sigs fadv prd ex tr] _.
    destruct (finalize c t0 v _) as [[?|?] ?] eqn:H; all_paths H; (exact I || discriminate). }
  specialize (T w I). destruct (main c w) as [[sm|r] w']; [discriminate|].
  cbn [fst]. congruence.
Qed.

(** ** No period, no window *)


Ltac window_paths Hp m :=
  let H := fresh "H" in
  let Hw := fresh "Hw" in
  intros [clk sigs fadv prd ex tr] Hw; cbn [trace] in Hw;
  destruct (m (mkWorld clk sigs fadv prd ex tr)) as [[?|?] ?] eqn:H;
  all_paths H;
  try match goal with E : (period _ =? 0) = false |- _ => rewrite Hp in E; discriminate E end;
  try split; try discriminate; cbn [trace existsb is_window orb]; assumption.

Lemma main_no_window c :
  period c = 0 ->
  triple (fun w => existsb is_window (trace w) = false) (main c)
         (fun _ w => existsb is_window (trace w) = false) no_window_end.
Proof.
  intros Hp. apply main_triple.
  - window_paths Hp now.
  - intros dl v. window_paths Hp (loop_head c dl v).
  - intros v. window_paths Hp (body c v).
  - intros w Hw. split; [discriminate | assumption].
  - intros t0 v. window_paths Hp (finalize c t0 v).
Qed.

(** C9. With [period = 0] the test of line 394 stops at [period]: the
    remainder is never taken, so no run divides by zero, and no raw
    statistics line is ever printed, however the run ends. *)
Theorem C9_period_zero_no_modulo_no_window c :
  period c = 0 ->
  (forall v, window_check c v = ret v) /\
  (forall clk sigs fadv prd,
     let r := main c (boot clk sigs fadv prd) in
     fst r <> Abort ATrap /\
     existsb is_window (trace (snd r)) = false /\
     window_reports (trace (snd r)) = []).
Proof.
  intros Hp. split.
  - intros v. unfold window_check. rewrite Hp. reflexivity.
  - intros clk sigs fadv prd r.
    pose proof (main_no_window c Hp (boot clk sigs fadv prd) eq_refl) as T.
    fold r in T. destruct r as [[sm|a] w'].
    + cbn [fst snd]. split; [discriminate|]. split; [exact T|].
      now apply no_window_reports.
    + destruct T as [T1 T2]. cbn [fst snd]. split; [congruence|]. split; [exact T2|].
      now apply no_window_reports.
Qed.

Lemma C9_witness :
  fst (main (cfg false 0 5) (world_of [10; 20; 30; 40; 50])) <> Abort ATrap /\
  window_reports (trace (snd (main (cfg false 0 5) (world_of [10; 20; 30; 40; 50])))) = [] /\
  List.length (filter is_request
                 (trace (snd (main (cfg false 0 5) (world_of [10; 20; 30; 40; 50]))))) = 5%nat.
Proof.
  destruct (C9_period_zero_no_modulo_no_window (cfg false 0 5) eq_refl) as [_ T].
  destruct (T (Some 0 :: clock_of 5 [10; 20; 30; 40; 50]) []
              (map (fun _ => 0) [10; 20; 30; 40; 50])
              (map (fun _ => (512, 0)) [10; 20; 30; 40; 50])) as (T1 & _ & T3).
  split; [exact T1|]. split; [exact T3|]. vm_compute. reflexivity.
Defined.

(** ** A run without a single sample *)

Lemma main_quiet_no_summary c :
  quiet c = true ->
  ends (main c) (fun w => existsb is_summary (trace w) = false)
       (fun _ w => existsb is_summary (trace w) = false).
Proof.
  intros Hq.
  assert (P : forall A (m : M A),
    (forall w o w', m w = (o, w') ->
       existsb is_summary (trace w) = false -> existsb is_summary (trace w') = false) ->
    ends m (fun w => existsb is_summary (trace w) = false)
         (fun _ w => existsb is_summary (trace w) = false)).
  { intros A m Hm w Hw. specialize (Hm w).
    destruct (m w) as [[a|r] w']; now apply (Hm _ _ eq_refl). }
  apply main_triple; intros; try assumption; apply P;
    intros [clk sigs fadv prd ex tr] o w' H Hw; cbn [trace] in Hw;
    all_paths H; try congruence;
    cbn [trace existsb is_summary orb]; rewrite ?summary_window; assumption.
Qed.

Lemma zero_samples_nan :
  mdev (time_sum (fold_part init_vars)) (time_sum2 (fold_part init_vars))
       (of_ll (request (fold_part init_vars))) = (S754_nan, S754_nan).
Proof. vm_compute. reflexivity. Qed.

(** When [main] exits, the status is 1. *)
Lemma main_exit_status c :
  triple (fun _ => True) (main c) (fun _ _ => True)
         (fun r _ => forall st, r = AExit st -> st = 1).
Proof.
  apply main_triple.
  - intros [clk sigs fadv prd ex tr] _.
    destruct (now _) as [[?|?] ?] eqn:H; all_paths H; try exact I;
      intros st E; congruence.
  - intros dl v [clk sigs fadv prd ex tr] _.
    destruct (loop_head _ _ _ _) as [[?|?] ?] eqn:H; all_paths H; try exact I;
      intros st E; congruence.
  - intros v [clk sigs fadv prd ex tr] _.
    destruct (body _ _ _) as [[?|?] ?] eqn:H; all_paths H; try exact I;
      intros st E; congruence.
  - intros w _ st E. discriminate E.
  - intros t0 v [clk sigs fadv prd ex tr] _.
    destruct (finalize _ _ _ _) as [[?|?] ?] eqn:H; all_paths H; try exact I;
      intros st E; congruence.
Qed.

(** C4 (amended). A run that ends without a sample: if it dies (an error
    before the first sample was measured, exit status 1) nothing of the
    summary is printed; if [main] returns, the summary is omitted only
    under [-q], and otherwise the summary line shows the initial values of
    the minimum and the maximum, LLONG_MAX and LLONG_MIN (in milliseconds),
    next to a mean and a deviation that are NaN. *)
Theorem C4_zero_samples_summary c clk sigs fadv prd :
  let res := main c (boot clk sigs fadv prd) in
  latencies (trace (snd res)) = [] ->
  match fst res with
  | Ok sm =>
      (quiet c = true -> existsb is_summary (trace (snd res)) = false) /\
      (quiet c = false ->
       exists total tr,
         trace (snd res)
         = EvPrintMinAvgMaxMdev (ms LLONG_MAX) S754_nan (ms LLONG_MIN) S754_nan
             :: EvPrintCompleted 0 total :: EvPrintHeader :: tr)
  | Abort r =>
      r <> AOutOfFuel /\ (forall st, r = AExit st -> st = 1) /\
      existsb is_summary (trace (snd res)) = false
  end.
Proof.
  intros res L.
  destruct res as [[sm|r] w'] eqn:H; cbn [fst snd] in *.
  - split; intros Hq.
    + pose proof (main_quiet_no_summary c Hq (boot clk sigs fadv prd) eq_refl) as T.
      unfold res in H. rewrite H in T. exact T.
    + destruct (main_ok _ _ _ _ _ _ _ H) as (Ef & Ea & Ed & _ & tr & Etr).
      rewrite L in Ef, Ea, Ed. change (feed c []) with init_vars in Ef, Ea, Ed.
      rewrite zero_samples_nan in Ea, Ed. cbn [fst snd] in Ea, Ed.
      unfold summary_lines in Etr. rewrite Hq, Ef, Ea, Ed in Etr.
      exists (ms (time_total sm)), tr. exact Etr.
  - split; [|split].
    + pose proof (main_fuel c (boot clk sigs fadv prd)) as F.
      unfold res in H. rewrite H in F. cbn [fst] in F. congruence.
    + pose proof (main_exit_status c (boot clk sigs fadv prd) I) as T.
      unfold res in H. rewrite H in T. exact T.
    + pose proof (main_fatal c (boot clk sigs fadv prd)) as T.
      unfold res in H. rewrite H in T. apply T. split; reflexivity.
Qed.

Lemma C4_witness :
  existsb is_summary (trace (snd (main (cfg true 0 0) world_sigint))) = false /\
  (exists total tr,
     trace (snd (main (cfg false 0 0) world_sigint))
     = EvPrintMinAvgMaxMdev (ms LLONG_MAX) S754_nan (ms LLONG_MIN) S754_nan
         :: EvPrintCompleted 0 total :: EvPrintHeader :: tr) /\
  fst (main (cfg false 0 0) (boot [Some 0; Some 5] [] [0] [(-1, 5)])) = Abort (AExit 1) /\
  existsb is_summary
    (trace (snd (main (cfg false 0 0) (boot [Some 0; Some 5] [] [0] [(-1, 5)])))) = false.
Proof.
  split; [|split; [|split]].
  - pose proof (C4_zero_samples_summary (cfg true 0 0) [Some 0; Some 7] [true] [] []) as T.
    cbn zeta in T. change (boot _ _ _ _) with world_sigint in T.
    specialize (T ltac:(vm_compute; reflexivity)).
    destruct (main (cfg true 0 0) world_sigint) as [[sm|r] w'] eqn:E.
    + cbn [fst snd] in *. apply T. reflexivity.
    + vm_compute in E. discriminate E.
  - pose proof (C4_zero_samples_summary (cfg false 0 0) [Some 0; Some 7] [true] [] []) as T.
    cbn zeta in T. change (boot _ _ _ _) with world_sigint in T.
    specialize (T ltac:(vm_compute; reflexivity)).
    destruct (main (cfg false 0 0) world_sigint) as [[sm|r] w'] eqn:E.
    + cbn [fst snd] in *. apply T. reflexivity.
    + vm_compute in E. discriminate E.
  - vm_compute. reflexivity.
  - pose proof (C4_zero_samples_summary (cfg false 0 0) [Some 0; Some 5] [] [0] [(-1, 5)]) as T.
    cbn zeta in T. specialize (T ltac:(vm_compute; reflexivity)).
    destruct (main (cfg false 0 0) (boot [Some 0; Some 5] [] [0] [(-1, 5)]))
      as [[sm|r] w'] eqn:E.
    + vm_compute in E. discriminate E.
    + cbn [fst snd] in *. apply T.
Defined.

(** C4 as stated fails: SIGINT before the first request, no [-q]; the
    summary line is printed and shows both initial values. *)
Lemma C4_counterexample :
  exists sm w',
    main (cfg false 0 0) world_sigint = (Ok sm, w') /\
    latencies (trace w') = [] /\
    ~ sentinel_free (trace w').
Proof.
  eexists _, _. split; [vm_compute; reflexivity|]. split; [reflexivity|].
  intros S.
  destruct (S (ms LLONG_MAX) S754_nan (ms LLONG_MIN) S754_nan) as [S1 _].
  - left. vm_compute. reflexivity.
  - now apply S1.
Qed.

(** C8. Finalizing with no request recorded returns normally: the mean is
    [0.0/0 = NaN] and the deviation [sqrt(NaN) = NaN], both kept as they are;
    without [-q] they are printed as NaN after a count of 0. This is so for
    the code after the loop on its own (as soon as the clock answers) and
    for every whole run that measured nothing. *)
Theorem C8_zero_request_finalize :
  (forall c t_start w t clk,
     clock w = Some t :: clk ->
     exists sm w',
       finalize c t_start init_vars w = (Ok sm, w') /\
       request (final sm) = 0 /\
       time_avg sm = S754_nan /\ time_mdev sm = S754_nan /\
       trace w' = summary_lines c sm ++ EvGettimeofday (Some t) :: trace w) /\
  (forall c clk sigs fadv prd sm w',
     main c (boot clk sigs fadv prd) = (Ok sm, w') ->
     latencies (trace w') = [] ->
     request (final sm) = 0 /\
     time_avg sm = S754_nan /\ time_mdev sm = S754_nan /\
     (quiet c = false ->
      exists mn mx total tr,
        trace w' = EvPrintMinAvgMaxMdev mn S754_nan mx S754_nan
                   :: EvPrintCompleted 0 total :: EvPrintHeader :: tr)).
Proof.
  split.
  - intros c t_start [clk0 sigs fadv prd ex tr] t clk Hc. cbn [clock] in Hc. subst clk0.
    unfold finalize, bind, now, gettimeofday, ret, emit, push. cbn [clock trace].
    unfold summary_lines. destruct (quiet c); eexists _, _;
      (split; [reflexivity|]); cbn [final time_avg time_mdev trace app];
      rewrite zero_samples_nan; repeat split.
  - intros c clk sigs fadv prd sm w' H L.
    destruct (main_ok _ _ _ _ _ _ _ H) as (Ef & Ea & Ed & _ & tr & Etr).
    rewrite L in Ef, Ea, Ed. change (feed c []) with init_vars in Ef, Ea, Ed.
    rewrite zero_samples_nan in Ea, Ed. cbn [fst snd] in Ea, Ed.
    rewrite Ef. repeat split; try assumption.
    intros Hq. unfold summary_lines in Etr. rewrite Hq, Ef, Ea, Ed in Etr.
    eexists _, _, _, tr. exact Etr.
Qed.

Lemma C8_witness :
  exists sm w',
    main (cfg false 0 0) world_sigint = (Ok sm, w') /\
    time_avg sm = S754_nan /\ time_mdev sm = S754_nan /\
    exists mn mx total tr,
      trace w' = EvPrintMinAvgMaxMdev mn S754_nan mx S754_nan
                 :: EvPrintCompleted 0 total :: EvPrintHeader :: tr.
Proof.
  destruct C8_zero_request_finalize as [_ T].
  destruct (main (cfg false 0 0) world_sigint) as [[sm|r] w'] eqn:E.
  - specialize (T _ _ _ _ _ _ _ E).
    vm_compute in E. inv E.
    destruct T as (_ & Ta & Td & Tp); [reflexivity|].
    eexists _, _. split; [reflexivity|]. split; [exact Ta|]. split; [exact Td|].
    apply Tp. reflexivity.
  - vm_compute in E. discriminate E.
Defined.

(** ** Quiet and loud runs side by side *)


Lemma sim_ret {A} (a : A) : sim (ret a) (ret a).
Proof. intros w. reflexivity. Qed.

Lemma sim_bind {A B} (mq ml : M A) (kq kl : A -> M B) :
  sim mq ml -> (forall a, sim (kq a) (kl a)) -> sim (bind mq kq) (bind ml kl).
Proof.
  intros Hm Hk w. unfold bind. rewrite Hm.
  destruct (ml w) as [[a|r] w1]; cbn [fst snd]; [apply Hk | reflexivity].
Qed.

Lemma sim_emit_kept e : is_human e = false -> sim (emit e) (emit e).
Proof.
  intros He w. unfold emit, push, mute. cbn [fst snd trace filter clock signals
    fadvise_rets pread_rets exiting]. rewrite He. reflexivity.
Qed.

Lemma sim_emit_dropped e : is_human e = true -> sim (ret tt) (emit e).
Proof.
  intros He w. unfold emit, push, mute, ret. cbn [fst snd trace filter clock signals
    fadvise_rets pread_rets exiting]. rewrite He. reflexivity.
Qed.

Lemma sim_err {A} st msg : sim (@err A st msg) (err st msg).
Proof. intros w. reflexivity. Qed.

Lemma sim_undefined {A} : sim (@undefined A) undefined.
Proof. intros w. reflexivity. Qed.

Lemma sim_gettimeofday : sim gettimeofday gettimeofday.
Proof. intros [[|r clk] sigs fadv prd ex tr]; reflexivity. Qed.

Lemma sim_now : sim now now.
Proof.
  apply sim_bind; [apply sim_gettimeofday|]. intros [t|]; [apply sim_ret | apply sim_err].
Qed.

Lemma sim_posix_fadvise : sim posix_fadvise posix_fadvise.
Proof. intros [clk sigs [|r fadv] prd ex tr]; reflexivity. Qed.

Lemma sim_pread : sim pread pread.
Proof. intros [clk sigs fadv [|rd prd] ex tr]; reflexivity. Qed.

Lemma sim_read_exiting : sim read_exiting read_exiting.
Proof. intros [clk [|[|] sigs] fadv prd ex tr]; reflexivity. Qed.

Section QuietAndLoud.

(** The same configuration, once with [-q] and once without. *)
Variable c : config.

Lemma sim_timed_read : sim (timed_read (with_quiet true c)) (timed_read (with_quiet false c)).
Proof.
  unfold timed_read. cbn [cached with_quiet].
  apply sim_bind.
  { destruct (cached c); [apply sim_ret|].
    apply sim_bind; [apply sim_posix_fadvise|]. intros r.
    destruct (r =? 0); [apply sim_ret | apply sim_err]. }
  intros _. apply sim_bind; [apply sim_now|]. intros t0.
  apply sim_bind; [apply sim_pread|]. intros rd.
  apply sim_bind.
  { destruct ((fst rd <? 0) && negb (snd rd =? EINTR)); [apply sim_err | apply sim_ret]. }
  intros _. apply sim_bind; [apply sim_now|]. intros t1. apply sim_ret.
Qed.

Lemma sim_window_check v :
  sim (window_check (with_quiet true c) v) (window_check (with_quiet false c) v).
Proof.
  unfold window_check. cbn [period with_quiet].
  destruct (period c =? 0); [apply sim_ret|].
  destruct (c_rem (request v) (period c)) as [r|]; [|apply sim_undefined].
  destruct (r =? 0); [|apply sim_ret].
  unfold flush_window. apply sim_bind; [|intros; apply sim_ret].
  apply sim_emit_kept. apply human_window.
Qed.

Lemma sim_body v : sim (body (with_quiet true c) v) (body (with_quiet false c) v).
Proof.
  unfold body. apply sim_bind; [apply sim_timed_read|]. intros rt.
  cbn [quiet with_quiet interval].
  apply sim_bind; [now apply sim_emit_dropped|]. intros _.
  apply sim_bind; [apply sim_window_check|]. intros v1.
  apply sim_bind; [apply sim_read_exiting|]. intros ex.
  apply sim_bind; [|intros; apply sim_ret].
  destruct ex; [apply sim_ret | now apply sim_emit_kept].
Qed.

Lemma sim_loop_head dl v :
  sim (loop_head (with_quiet true c) dl v) (loop_head (with_quiet false c) dl v).
Proof.
  unfold loop_head. cbn [count with_quiet].
  apply sim_bind; [apply sim_read_exiting|]. intros ex.
  destruct ex; [apply sim_ret|].
  destruct (negb (count c =? 0) && (request v >=? count c)); [apply sim_ret|].
  destruct (dl =? 0); [apply sim_ret|].
  apply sim_bind; [apply sim_now | intros; apply sim_ret].
Qed.

Lemma sim_loop dl fuel : forall v,
  sim (loop fuel (with_quiet true c) dl v) (loop fuel (with_quiet false c) dl v).
Proof.
  induction fuel as [|fuel IH]; intros v; [intros w; reflexivity|].
  cbn [loop]. apply sim_bind; [apply sim_loop_head|]. intros [|]; [|apply sim_ret].
  apply sim_bind; [apply sim_body | apply IH].
Qed.

Lemma sim_finalize t0 v :
  sim (finalize (with_quiet true c) t0 v) (finalize (with_quiet false c) t0 v).
Proof.
  unfold finalize. apply sim_bind; [apply sim_now|]. intros t1.
  cbn [quiet with_quiet]. apply sim_bind; [|intros; apply sim_ret].
  intros w. reflexivity.
Qed.

Lemma sim_main : sim (main (with_quiet true c)) (main (with_quiet false c)).
Proof.
  unfold main. cbn [deadline with_quiet].
  apply sim_bind.
  { destruct (deadline c =? 0); [apply sim_ret|].
    apply sim_bind; [apply sim_now | intros; apply sim_ret]. }
  intros dl. apply sim_bind; [apply sim_now|]. intros t0.
  apply sim_bind; [|intros; apply sim_finalize].
  intros w. apply (sim_loop dl (S (List.length (clock w))) init_vars w).
Qed.

End QuietAndLoud.

Lemma window_reports_mute tr :
  window_reports (filter (fun e => negb (is_human e)) tr) = window_reports tr.
Proof.
  induction tr as [|e tr IH]; [reflexivity|].
  destruct e; cbn [filter is_human negb window_reports]; try exact IH.
  now rewrite IH.
Qed.

Lemma no_human_mute tr :
  existsb is_human (filter (fun e => negb (is_human e)) tr) = false.
Proof.
  induction tr as [|e tr IH]; [reflexivity|].
  cbn [filter]. destruct (is_human e) eqn:E; cbn [negb]; [exact IH|].
  cbn [existsb]. now rewrite E, IH.
Qed.

(** C10. Started in the same world, the run with [-q] and the run without
    end the same way with the same variables, and the quiet run's trace is
    the loud run's trace without the per-request lines and the three lines of
    the final summary: every raw statistics line of a window is printed in
    both. And they are printed: at a flush the line goes out whatever
    [quiet] is, and a quiet run that returns after N requests (N within the
    counter) with a period P > 0 has printed exactly N / P raw statistics
    lines, one for each full window of P samples, and nothing else. *)
Theorem C10_quiet_keeps_raw_lines c clk sigs fadv prd :
  let loud := main (with_quiet false c) (boot clk sigs fadv prd) in
  let hush := main (with_quiet true c) (boot clk sigs fadv prd) in
  fst hush = fst loud /\
  trace (snd hush) = filter (fun e => negb (is_human e)) (trace (snd loud)) /\
  window_reports (trace (snd hush)) = window_reports (trace (snd loud)) /\
  existsb is_human (trace (snd hush)) = false /\
  (forall v w,
     exists avg dev,
       flush_window (with_quiet true c) v w
       = (Ok (reset_part (fold_part v)),
          push (EvPrintWindow (part_min v) avg (part_max v) dev) w)) /\
  (forall sm, fst hush = Ok sm -> 0 < period c ->
     let xs := latencies (trace (snd hush)) in
     Z.of_nat (List.length xs) <= INT_MAX ->
     Z.of_nat (List.length (window_reports (trace (snd hush))))
     = Z.of_nat (List.length xs) / period c /\
     Z.of_nat (List.length (filter is_print (trace (snd hush))))
     = Z.of_nat (List.length xs) / period c /\
     exists ws zs,
       xs = zs ++ concat ws /\
       Forall (fun w => Z.of_nat (List.length w) = period c) ws /\
       Z.of_nat (List.length zs) < period c /\
       window_reports (trace (snd hush)) = map (line_of c) ws).
Proof.
  intros loud hush.
  pose proof (sim_main c (boot clk sigs fadv prd)) as S.
  change (mute (boot clk sigs fadv prd)) with (boot clk sigs fadv prd) in S.
  fold loud hush in S.
  assert (Hh : existsb is_human (trace (snd hush)) = false).
  { rewrite S. cbn [snd]. unfold mute. cbn [trace]. apply no_human_mute. }
  split; [rewrite S; reflexivity|].
  split; [rewrite S; reflexivity|].
  split; [rewrite S; cbn [snd]; unfold mute; cbn [trace]; apply window_reports_mute|].
  split; [exact Hh|].
  split.
  { intros v w. unfold flush_window, window_line, mdev, ev_window, bind, emit, ret.
    eexists _, _. reflexivity. }
  intros sm Hsm Hp xs Hn.
  destruct hush as [o w'] eqn:E. cbn [fst snd] in *. subst o.
  destruct (main_ok _ _ _ _ _ _ _ E) as (_ & _ & _ & Er & _). fold xs in Er.
  destruct (feed_shape (with_quiet true c) xs) as (ws & zs & Exs & _ & Erep & Hw).
  destruct (Hw Hp Hn) as (Hws & Hzs).
  change (period (with_quiet true c)) with (period c) in Hws, Hzs.
  assert (Hlen : Z.of_nat (List.length (window_reports (trace w')))
                 = Z.of_nat (List.length xs) / period c).
  { rewrite Er, Erep, length_map.
    rewrite Exs, length_app, Nat2Z.inj_add, (length_concat_windows (period c)) by assumption.
    apply (Z.div_unique_pos _ _ _ (Z.of_nat (List.length zs))); lia. }
  split; [exact Hlen|]. split.
  - rewrite <- Hlen. f_equal. clear - Hh.
    induction (trace w') as [|e tr IH]; [reflexivity|].
    cbn [existsb] in Hh. apply orb_false_iff in Hh. destruct Hh as [He Ht].
    specialize (IH Ht). cbn [filter]. unfold is_print at 1. rewrite He.
    destruct e; cbn [orb is_window window_reports List.length]; try exact IH.
    rewrite IH. reflexivity.
  - exists ws, zs. split; [exact Exs|]. split; [exact Hws|]. split; [exact Hzs|].
    rewrite Er, Erep. reflexivity.
Qed.

Lemma C10_witness :
  let hush := main (with_quiet true (cfg false 2 4)) (world_of [10; 20; 30; 40]) in
  Z.of_nat (List.length (window_reports (trace (snd hush)))) = 2 /\
  Z.of_nat (List.length (filter is_print (trace (snd hush)))) = 2 /\
  existsb is_human (trace (snd hush)) = false.
Proof.
  pose proof (C10_quiet_keeps_raw_lines (cfg false 2 4) (Some 0 :: clock_of 5 [10; 20; 30; 40])
                [] [0; 0; 0; 0] [(512, 0); (512, 0); (512, 0); (512, 0)]) as T.
  cbn zeta in T. change (boot _ _ _ _) with (world_of [10; 20; 30; 40]) in T.
  destruct T as (_ & _ & _ & Th & _ & T).
  intros hush. fold hush in Th, T.
  destruct (fst hush) as [sm|r] eqn:E.
  - destruct (T sm eq_refl) as (T1 & T2 & _).
    + reflexivity.
    + vm_compute. discriminate.
    + split; [rewrite T1; vm_compute; reflexivity|].
      split; [rewrite T2; vm_compute; reflexivity | exact Th].
  - vm_compute in E. discriminate E.
Defined.

(** ** One turn of the loop *)

Lemma read_exiting_looked w : read_exiting w = (Ok (observed w), looked w).
Proof.
  destruct w as [clk [|[|] sigs] fadv prd [|] tr]; reflexivity.
Qed.

Lemma looked_same w :
  clock (looked w) = clock w /\ trace (looked w) = trace w /\
  pread_rets (looked w) = pread_rets w /\ fadvise_rets (looked w) = fadvise_rets w.
Proof.
  destruct w as [clk [|[|] sigs] fadv prd ex tr]; cbn; auto.
Qed.

(** One turn of the loop, test by test. *)
Lemma loop_unfold fuel c dl v w :
  loop (S fuel) c dl v w =
    if observed w then (Ok v, looked w)
    else if negb (count c =? 0) && (request v >=? count c) then (Ok v, looked w)
    else if dl =? 0 then bind (body c v) (loop fuel c dl) (looked w)
    else bind (bind now (fun t => ret (negb (t >=? dl))))
              (fun go : bool => if go then bind (body c v) (loop fuel c dl) else ret v)
              (looked w).
Proof.
  cbn [loop]. unfold loop_head. unfold bind at 1 2. rewrite read_exiting_looked.
  destruct (observed w); [reflexivity|].
  destruct (negb (count c =? 0) && (request v >=? count c)); [reflexivity|].
  destruct (dl =? 0); reflexivity.
Qed.

(** C6. The tests at the top of the loop, in their order: a SIGINT that
    has been observed stops the loop before anything else happens; failing
    that, a count that is set and reached stops it, still without reading the
    clock; failing that, a deadline that is set makes the loop read the clock
    once and stop if the deadline is reached. In all three cases the loop
    returns with the variables unchanged and no request issued. Only when
    none holds is the body entered. *)
Theorem C6_termination_checks c dl v w fuel :
  (observed w = true ->
   loop (S fuel) c dl v w = (Ok v, looked w) /\
   clock (looked w) = clock w /\ trace (looked w) = trace w /\
   pread_rets (looked w) = pread_rets w) /\
  (observed w = false -> count c <> 0 -> count c <= request v ->
   loop (S fuel) c dl v w = (Ok v, looked w) /\
   clock (looked w) = clock w /\ trace (looked w) = trace w /\
   pread_rets (looked w) = pread_rets w) /\
  (observed w = false -> count c = 0 \/ request v < count c -> dl <> 0 ->
   forall t clk, clock w = Some t :: clk -> dl <= t ->
   exists w',
     loop (S fuel) c dl v w = (Ok v, w') /\
     clock w' = clk /\ trace w' = EvGettimeofday (Some t) :: trace w /\
     pread_rets w' = pread_rets w) /\
  (observed w = false -> count c = 0 \/ request v < count c ->
   (dl = 0 ->
    loop (S fuel) c dl v w = bind (body c v) (loop fuel c dl) (looked w)) /\
   (dl <> 0 -> forall t clk, clock w = Some t :: clk -> t < dl ->
    exists w',
      loop (S fuel) c dl v w = bind (body c v) (loop fuel c dl) w' /\
      clock w' = clk /\ trace w' = EvGettimeofday (Some t) :: trace w)).
Proof.
  assert (Hcount : forall a b : bool, a = false \/ b = false -> a && b = false)
    by (intros [|] [|] [H|H]; auto; discriminate).
  destruct (looked_same w) as (Lc & Lt & Lp & _).
  rewrite loop_unfold.
  split; [|split; [|split]].
  - intros Ho. rewrite Ho. unfold ret. auto.
  - intros Ho Hc Hr. rewrite Ho.
    replace (negb (count c =? 0) && (request v >=? count c)) with true.
    + unfold ret. auto.
    + symmetry. apply andb_true_iff. split.
      * apply negb_true_iff, Z.eqb_neq. assumption.
      * apply Z.geb_le. assumption.
  - intros Ho Hc Hd t clk Hclk Ht. rewrite Ho.
    rewrite Hcount.
    2:{ destruct Hc as [Hc|Hc]; [left; rewrite Hc; reflexivity|right].
        rewrite Z.geb_leb. apply Z.leb_gt. assumption. }
    replace (dl =? 0) with false by (symmetry; now apply Z.eqb_neq).
    unfold bind, now, bind, gettimeofday, ret. rewrite Lc, Hclk.
    replace (t >=? dl) with true by (symmetry; apply Z.geb_le; assumption).
    cbn [negb]. eexists. split; [reflexivity|]. cbn [clock trace pread_rets].
    rewrite Lt, Lp. auto.
  - intros Ho Hc. rewrite Ho. rewrite Hcount.
    2:{ destruct Hc as [Hc|Hc]; [left; rewrite Hc; reflexivity|right].
        rewrite Z.geb_leb. apply Z.leb_gt. assumption. }
    split.
    + intros ->. reflexivity.
    + intros Hd t clk Hclk Ht.
      replace (dl =? 0) with false by (symmetry; now apply Z.eqb_neq).
      unfold bind at 1 2, now, bind, gettimeofday, ret. rewrite Lc, Hclk.
      replace (t >=? dl) with false by (symmetry; rewrite Z.geb_leb; apply Z.leb_gt; assumption).
      cbn [negb]. eexists. split; [reflexivity|]. cbn [clock trace]. rewrite Lt. auto.
Qed.

Lemma request_step c x v :
  0 <= request v < INT_MAX -> request (step c x v) = request v + 1.
Proof.
  intros H. unfold step.
  destruct (flushes c _); unfold reset_part, fold_part, record, next_request; cbn [request];
    apply wrap32_small; unfold INT_MIN, INT_MAX in *; lia.
Qed.

Lemma c_rem_request c x v :
  0 <= request v < INT_MAX -> period c <> 0 ->
  c_rem (request (record x (next_request v))) (period c)
  = Some (Z.rem (request v + 1) (period c)).
Proof.
  intros Hv Hp. unfold record, next_request. cbn [request].
  rewrite wrap32_small by (unfold INT_MIN, INT_MAX in *; lia).
  unfold c_rem.
  replace (period c =? 0) with false by (symmetry; now apply Z.eqb_neq).
  replace (request v + 1 =? INT_MIN) with false
    by (symmetry; apply Z.eqb_neq; unfold INT_MIN; lia).
  reflexivity.
Qed.

(** A turn of the loop in a world where the clock answers twice, the cache
    invalidation succeeds and the read does not fail fatally. *)
Lemma body_runs c v clk sigs fadv prd ex tr t0 t1 r e :
  (r <? 0) && negb (e =? EINTR) = false ->
  fadvise_ok c fadv -> 0 <= request v < INT_MAX -> quiescent tr ->
  exists w',
    body c v (mkWorld (Some t0 :: Some t1 :: clk) sigs fadv ((r, e) :: prd) ex tr)
    = (Ok (step c (wrap64 (t1 - t0)) v), w') /\
    (exists pre post, trace w' = post ++ EvGettimeofday (Some t1) :: EvPread r e
                                  :: EvGettimeofday (Some t0) :: pre ++ tr) /\
    latencies (trace w') = wrap64 (t1 - t0) :: latencies tr /\
    In (EvPread r e) (trace w') /\
    existsb is_fatal (trace w') = existsb is_fatal tr /\
    clock w' = clk /\ pread_rets w' = prd /\
    fadvise_rets w' = (if cached c then fadv else tl fadv) /\
    signals w' = tl sigs /\ exiting w' = ex || hd false sigs.
Proof.
  intros He Hf Hv Q.
  destruct (body c v _) as [o w'] eqn:H.
  unfold_io H.
  assert (Hrem : (period c =? 0) = false ->
            c_rem (request (record (wrap64 (t1 - t0)) (next_request v))) (period c)
            = Some (Z.rem (request v + 1) (period c))).
  { intros Ep. apply c_rem_request; [assumption | now apply Z.eqb_neq]. }
  (destruct Hf as [Hc|[rs ->]]; [rewrite Hc in H | destruct (cached c) eqn:Hc]);
    cbn in H; rewrite He in H; cbn in H;
    (destruct (period c =? 0) eqn:Ep; [|rewrite (Hrem eq_refl) in H]);
    cbn in H; repeat step_run H; inv H.
  all: eexists; split;
    [ unfold step, flushes; rewrite ?Ep, ?Hrem by reflexivity;
      repeat match goal with E : _ = _ |- _ => rewrite E end; reflexivity |].
  all: cbn [trace].
  all: split; [first [ eexists [], []; reflexivity | eexists [], [_]; reflexivity
                     | eexists [], [_; _]; reflexivity | eexists [], [_; _; _]; reflexivity
                     | eexists [_], []; reflexivity | eexists [_], [_]; reflexivity
                     | eexists [_], [_; _]; reflexivity | eexists [_], [_; _; _]; reflexivity ]|].
  all: split;
    [ rewrite ?latencies_window; repeat rewrite latencies_skip by exact I;
      rewrite latencies_measured; rewrite latencies_clock by (assumption || exact I);
      reflexivity |].
  all: split; [cbn [In]; tauto|].
  all: split; [cbn [existsb is_fatal orb]; rewrite ?fatal_window, ?He; reflexivity|].
  all: cbn [clock pread_rets fadvise_rets signals exiting tl]; rewrite ?Hc.
  all: repeat match goal with E : hd false _ = _ |- _ => rewrite E end.
  all: rewrite ?orb_true_r, ?orb_false_r; repeat split.
Qed.

Lemma C6_witness :
  loop 1 (cfg false 0 0) 0 init_vars (boot [Some 5] [true] [] [])
    = (Ok init_vars, looked (boot [Some 5] [true] [] [])) /\
  loop 1 (cfg false 0 3) 0 (feed (cfg false 0 3) [1; 2; 3]) (boot [Some 5] [] [] [])
    = (Ok (feed (cfg false 0 3) [1; 2; 3]), looked (boot [Some 5] [] [] [])) /\
  (exists w', loop 1 (cfg false 0 0) 100 init_vars (boot [Some 150] [] [] [(512, 0)])
                = (Ok init_vars, w') /\
              trace w' = [EvGettimeofday (Some 150)] /\ pread_rets w' = [(512, 0)]) /\
  (exists w', loop 1 (cfg false 0 0) 100 init_vars (boot [Some 50] [] [] [(512, 0)])
                = bind (body (cfg false 0 0) init_vars) (loop 0 (cfg false 0 0) 100) w' /\
              trace w' = [EvGettimeofday (Some 50)]).
Proof.
  split; [|split; [|split]].
  - destruct (C6_termination_checks (cfg false 0 0) 0 init_vars
                (boot [Some 5] [true] [] []) 0) as (T & _).
    apply T. reflexivity.
  - destruct (C6_termination_checks (cfg false 0 3) 0 (feed (cfg false 0 3) [1; 2; 3])
                (boot [Some 5] [] [] []) 0) as (_ & T & _).
    apply T; [reflexivity | discriminate | vm_compute; discriminate].
  - destruct (C6_termination_checks (cfg false 0 0) 100 init_vars
                (boot [Some 150] [] [] [(512, 0)]) 0) as (_ & _ & T & _).
    destruct (T eq_refl (or_introl eq_refl) ltac:(discriminate) 150 [] eq_refl
                ltac:(discriminate)) as (w' & E & _ & Tr & Pr).
    exists w'. auto.
  - destruct (C6_termination_checks (cfg false 0 0) 100 init_vars
                (boot [Some 50] [] [] [(512, 0)]) 0) as (_ & _ & _ & T).
    destruct (T eq_refl (or_introl eq_refl)) as (_ & T2).
    destruct (T2 ltac:(discriminate) 50 [] eq_refl eq_refl) as (w' & E & _ & Tr).
    exists w'. auto.
Defined.




(** ** Every sequence of samples is measured by some run *)

Lemma looked_signals w :
  signals (looked w) = tl (signals w) /\ exiting (looked w) = observed w.
Proof. destruct w as [clk [|[|] sigs] fadv prd [|] tr]; cbn; auto. Qed.

Lemma length_clock_of xs : forall t,
  List.length (clock_of t xs) = S (2 * List.length xs).
Proof.
  induction xs as [|x xs IH]; intros t; [reflexivity|].
  cbn [clock_of List.length]. rewrite IH. lia.
Qed.

Lemma finalize_runs c t0 v w t clk :
  clock w = Some t :: clk ->
  exists sm w', finalize c t0 v w = (Ok sm, w').
Proof.
  destruct w as [clk0 sigs fadv prd ex tr]. cbn [clock]. intros ->.
  unfold finalize, bind, now, gettimeofday, ret, emit, push. cbn [clock].
  destruct (quiet c); eexists _, _; reflexivity.
Qed.

(** The loop in a world scripted for the requests [xs], stopped by the
    count. *)
Lemma loop_scripted q p n xs : forall fuel v t w,
  (List.length xs < fuel)%nat ->
  n = request v + Z.of_nat (List.length xs) -> n <> 0 -> 0 <= request v -> n <= INT_MAX ->
  Forall (fun x => LLONG_MIN <= x <= LLONG_MAX) xs ->
  clock w = clock_of t xs -> signals w = [] -> exiting w = false ->
  fadvise_rets w = map (fun _ => 0) xs ->
  pread_rets w = map (fun _ => (512, 0)) xs ->
  quiescent (trace w) ->
  exists w',
    loop fuel (cfg q p n) 0 v w = (Ok (feed_from (cfg q p n) v (rev xs)), w') /\
    latencies (trace w') = rev xs ++ latencies (trace w) /\
    (exists tf, clock w' = [Some tf]) /\
    quiescent (trace w').
Proof.
  induction xs as [|x xs IH]; intros fuel v t w Hf Hn Hn0 Hv Hmax Hr Hc Hs He Hfa Hp Q;
    (destruct fuel as [|fuel]; [cbn in Hf; lia|]); rewrite loop_unfold;
    destruct (looked_same w) as (Lc & Lt & Lp & La);
    destruct (looked_signals w) as (Ls & Le);
    assert (Ho : observed w = false) by (unfold observed; rewrite He, Hs; reflexivity);
    rewrite Ho; cbn [count cfg].
  - replace (negb (n =? 0) && (request v >=? n)) with true.
    + exists (looked w). cbn [rev feed_from fold_right app]. rewrite Lt, Lc, Hc.
      repeat split; try assumption. now exists t.
    + symmetry. apply andb_true_iff. split.
      * now apply negb_true_iff, Z.eqb_neq.
      * apply Z.geb_le. cbn [List.length] in Hn. lia.
  - cbn [List.length] in Hn, Hf. inversion Hr as [|? ? Hx Hr']; subst.
    replace (negb (request v + Z.of_nat (S (List.length xs)) =? 0)
             && (request v >=? request v + Z.of_nat (S (List.length xs)))) with false.
    2:{ symmetry. apply andb_false_iff. right. rewrite Z.geb_leb. apply Z.leb_gt. lia. }
    cbn [Z.eqb].
    destruct (looked w) as [clk1 sigs1 fadv1 prd1 ex1 tr1] eqn:El.
    cbn [clock trace pread_rets fadvise_rets signals exiting] in Lc, Lt, Lp, La, Ls, Le.
    rewrite Hc in Lc. rewrite Hp in Lp. rewrite Hfa in La. rewrite Hs in Ls.
    rewrite Ho in Le.
    cbn [clock_of map tl] in Lc, Lp, La, Ls. subst clk1 tr1 prd1 fadv1 sigs1 ex1.
    set (c := cfg q p (request v + Z.of_nat (S (List.length xs)))) in *.
    destruct (body_runs c v (clock_of (t + x + 1000000) xs) [] (0 :: map (fun _ => 0) xs)
                (map (fun _ => (512, 0)) xs) false (trace w) t (t + x) 512 0)
      as (w1 & Hb & _ & Hl & _ & _ & Hc1 & Hp1 & Hf1 & Hs1 & He1).
    + reflexivity.
    + right. eexists. reflexivity.
    + lia.
    + assumption.
    + replace (t + x - t) with x in Hb, Hl by lia.
      rewrite wrap64_small in Hb, Hl by assumption.
      pose proof (body_ok _ _ _ _ _ Hb Q) as (_ & _ & _ & _ & Q1 & _).
      destruct (IH fuel (step c x v) (t + x + 1000000) w1) as (w' & Hloop & Hl' & Hcl & Q');
        try assumption.
      * lia.
      * rewrite request_step by lia. lia.
      * rewrite request_step by lia. lia.
      * exists w'. unfold bind. rewrite Hb. fold c in Hloop. rewrite Hloop.
        cbn [rev]. rewrite feed_from_app. cbn [feed_from fold_right].
        fold (feed_from c (step c x v) (rev xs)).
        repeat split; try assumption.
        rewrite Hl', Hl, <- app_assoc. reflexivity.
Qed.

(** Whatever the samples [xs] (at least one, as many as an [int] counts),
    the run with [-c] set to their number, in the world scripted for them,
    returns, and the latencies it measured are [xs]. *)
Lemma main_world_of q p xs :
  xs <> [] -> Z.of_nat (List.length xs) <= INT_MAX ->
  Forall (fun x => LLONG_MIN <= x <= LLONG_MAX) xs ->
  exists sm w',
    main (cfg q p (Z.of_nat (List.length xs))) (world_of xs) = (Ok sm, w') /\
    latencies (trace w') = rev xs.
Proof.
  intros Hne Hmax Hr.
  set (n := Z.of_nat (List.length xs)) in *.
  assert (Hn : n <> 0) by (destruct xs; [congruence | unfold n; cbn [List.length]; lia]).
  set (w1 := mkWorld (clock_of 5 xs) [] (map (fun _ => 0) xs) (map (fun _ => (512, 0)) xs)
                     false [EvGettimeofday (Some 0)]).
  destruct (loop_scripted q p n xs (S (List.length (clock w1))) init_vars 5 w1)
    as (w2 & Hloop & Hl & (tf & Hc) & Q); try reflexivity; try assumption.
  - cbn [clock w1]. rewrite length_clock_of. lia.
  - destruct (finalize_runs (cfg q p n) 0 (feed_from (cfg q p n) init_vars (rev xs)) w2 tf [] Hc)
      as (sm & w' & Hfin).
    exists sm, w'. split.
    + unfold main, world_of, boot. cbn [deadline cfg Z.eqb].
      unfold bind at 1, ret at 1. unfold bind at 1, now at 1, bind at 1, gettimeofday at 1.
      cbn [clock signals fadvise_rets pread_rets exiting trace]. unfold ret at 1.
      unfold bind at 1. fold w1. fold (cfg q p n). rewrite Hloop. exact Hfin.
    + destruct (finalize_ok _ _ _ _ _ _ Hfin Q) as (_ & _ & _ & L & _).
      rewrite L, Hl. cbn [w1 trace latencies]. apply app_nil_r.
Qed.

(** ** The scenarios of the specification, run *)

(** [-c 5], no period: five requests, five per-request lines, no raw
    statistics line, one summary. *)
Example scenario_count5_period0 :
  let tr := trace (snd (main (cfg false 0 5) (world_of [10; 20; 30; 40; 50]))) in
  List.length (filter is_request tr) = 5%nat /\
  List.length (filter (fun e => is_human e && negb (is_summary e)) tr) = 5%nat /\
  window_reports tr = [] /\
  List.length (filter is_summary tr) = 3%nat.
Proof. vm_compute. repeat split. Qed.

(** [-c 10 -p 3]: raw statistics lines after requests 3, 6 and 9; the tenth
    sample is folded into the summary. *)
Example scenario_count10_period3 :
  let r := main (cfg true 3 10) (world_of [1; 2; 3; 4; 5; 6; 7; 8; 9; 10]) in
  map (fun l => (fst (fst (fst l)), snd (fst l))) (window_reports (trace (snd r)))
    = [(7, 9); (4, 6); (1, 3)] /\
  exists sm, fst r = Ok sm /\
    request (final sm) = 10 /\ time_min (final sm) = 1 /\ time_max (final sm) = 10 /\
    time_sum (final sm) = of_ll 55.
Proof. vm_compute. split; [reflexivity|]. eexists. repeat split. Qed.

(** Under [-q] the raw statistics lines are still printed. *)
Example quiet_run_prints_windows :
  let tr := trace (snd (main (cfg true 2 4) (world_of [10; 20; 30; 40]))) in
  List.length (window_reports tr) = 2%nat /\ existsb is_human tr = false.
Proof. vm_compute. split; reflexivity. Qed.

(* ================================================================== *)
(** * Further properties of the loop *)
(* ================================================================== *)

(** ** A rule for the loop with an invariant on variables and world *)

Lemma loop_rule c dl (I G S : vars -> world -> Prop) (E : abort -> world -> Prop) :
  (forall v w, I v w ->
     match loop_head c dl v w with
     | (Ok true, w') => G v w'
     | (Ok false, w') => S v w'
     | (Abort r, w') => E r w'
     end) ->
  (forall v w, G v w ->
     match body c v w with
     | (Ok v', w') => I v' w'
     | (Abort r, w') => E r w'
     end) ->
  (forall v w, I v w -> E AOutOfFuel w) ->
  forall fuel v w, I v w ->
    match loop fuel c dl v w with
    | (Ok v', w') => S v' w'
    | (Abort r, w') => E r w'
    end.
Proof.
  intros Hh Hb Hf. induction fuel as [|fuel IH]; intros v w Hi.
  - cbn. eauto.
  - cbn [loop]. unfold bind at 1. specialize (Hh v w Hi).
    destruct (loop_head c dl v w) as [[[|]|r] w1]; try exact Hh.
    unfold bind. specialize (Hb v w1 Hh).
    destruct (body c v w1) as [[v1|r] w2]; [|exact Hb].
    apply IH. exact Hb.
Qed.

Lemma request_window l : is_request (ev_window l) = false.
Proof. destruct l as [[[a b] c] d]. reflexivity. Qed.

Lemma usleep_window l : is_usleep (ev_window l) = false.
Proof. destruct l as [[[a b] c] d]. reflexivity. Qed.

Lemma request_lines_window l tr : request_lines (ev_window l :: tr) = request_lines tr.
Proof. destruct l as [[[a b] c] d]. reflexivity. Qed.

Lemma sleeps_window l tr : sleeps (ev_window l :: tr) = sleeps tr.
Proof. destruct l as [[[a b] c] d]. reflexivity. Qed.

#[local] Hint Rewrite request_window usleep_window request_lines_window sleeps_window : events.

(** Boolean tests of the code as facts about integers. *)
Ltac bool_facts :=
  repeat match goal with
         | H : _ && _ = true |- _ => apply andb_true_iff in H; destruct H
         | H : negb _ = true |- _ => apply negb_true_iff in H
         | H : negb _ = false |- _ => apply negb_false_iff in H
         | H : (_ =? _) = true |- _ => apply Z.eqb_eq in H
         | H : (_ =? _) = false |- _ => apply Z.eqb_neq in H
         | H : (_ >=? _) = true |- _ => apply Z.geb_le in H
         | H : (_ >=? _) = false |- _ => rewrite Z.geb_leb in H; apply Z.leb_gt in H
         | H : (_ <? _) = true |- _ => apply Z.ltb_lt in H
         | H : (_ <? _) = false |- _ => apply Z.ltb_ge in H
         end.

Lemma requests_issued_cons e tr :
  requests_issued (e :: tr) = (if is_request e then 1 else 0) + requests_issued tr.
Proof.
  unfold requests_issued. cbn [filter]. destruct (is_request e); cbn [List.length]; lia.
Qed.

Lemma request_after_body c x v :
  request (step c x v) = wrap32 (request v + 1).
Proof.
  unfold step. destruct (flushes c _);
    unfold reset_part, fold_part, record, next_request; reflexivity.
Qed.

(** ** The request counter and the reads issued *)

Lemma wrap32_next n : 0 <= n < INT_MAX -> wrap32 (n + 1) = n + 1.
Proof. intros H. apply wrap32_small. unfold INT_MIN, INT_MAX in *. lia. Qed.

Lemma loop_head_count c dl v w :
  0 < count c ->
  match loop_head c dl v w with
  | (Ok true, w') => requests_issued (trace w') = requests_issued (trace w) /\ request v < count c
  | (Ok false, w') =>
      requests_issued (trace w') = requests_issued (trace w) /\
      (exiting w' = false -> dl = 0 -> count c <= request v)
  | (Abort _, w') => requests_issued (trace w') = requests_issued (trace w)
  end.
Proof.
  intros Hc. destruct w as [clk sigs fadv prd ex tr].
  destruct (loop_head _ _ _ _) as [[[|]|r] w'] eqn:H.
  all: unfold_io H; repeat step_run H; inv H; cbn [trace].
  all: rewrite ?requests_issued_cons; cbn [is_request exiting]; bool_facts.
  all: try split; try lia; try congruence.
Qed.

Lemma body_count c v w :
  match body c v w with
  | (Ok v', w') =>
      requests_issued (trace w') = requests_issued (trace w) + 1 /\
      request v' = wrap32 (request v + 1)
  | (Abort _, w') =>
      requests_issued (trace w') <= requests_issued (trace w) + 1
  end.
Proof.
  destruct w as [clk sigs fadv prd ex tr].
  assert (Hn : 0 <= requests_issued tr) by apply Zle_0_nat.
  destruct (body _ _ _) as [[v'|r] w'] eqn:H.
  all: unfold_io H; repeat step_run H; inv H; cbn [trace].
  all: autorewrite with events.
  all: rewrite ?requests_issued_cons; cbn [is_request]; autorewrite with events.
  all: rewrite ?requests_issued_cons; cbn [is_request].
  all: try split; try lia.
  all: unfold reset_part, fold_part, record, next_request; reflexivity.
Qed.

Lemma now_count w :
  requests_issued (trace (snd (now w))) = requests_issued (trace w).
Proof.
  destruct w as [clk sigs fadv prd ex tr].
  destruct (now _) as [[t|r] w'] eqn:H.
  all: unfold_io H; repeat step_run H; inv H; cbn [trace snd].
  all: rewrite ?requests_issued_cons; reflexivity.
Qed.

Lemma finalize_count c t0 v w :
  match finalize c t0 v w with
  | (Ok sm, w') =>
      requests_issued (trace w') = requests_issued (trace w) /\
      request (final sm) = request v /\ exiting w' = exiting w
  | (Abort _, w') => requests_issued (trace w') = requests_issued (trace w)
  end.
Proof.
  destruct w as [clk sigs fadv prd ex tr].
  destruct (finalize _ _ _ _) as [[t|r] w'] eqn:H.
  all: unfold_io H; repeat step_run H; inv H; cbn [trace exiting final].
  all: rewrite ?requests_issued_cons; cbn [is_request]; repeat split; reflexivity.
Qed.

(** X1. With [-c count] (a positive [int]) no run of [main] issues more
    than [count] reads, however it ends; a run that returns has counted
    every read it issued, and if it returns without a deadline and without
    having seen SIGINT it has issued exactly [count] reads. *)
Theorem count_bounds_requests c clk sigs fadv prd :
  0 < count c <= INT_MAX ->
  let res := main c (boot clk sigs fadv prd) in
  requests_issued (trace (snd res)) <= count c /\
  (forall sm, fst res = Ok sm ->
     request (final sm) = requests_issued (trace (snd res)) /\
     (exiting (snd res) = false -> deadline c = 0 -> request (final sm) = count c)).
Proof.
  intros Hc.
  set (n := fun w => requests_issued (trace w)).
  assert (T : triple (fun w => n w = 0) (main c)
                (fun sm w => n w <= count c /\ request (final sm) = n w /\
                             (exiting w = false -> deadline c = 0 ->
                              request (final sm) = count c))
                (fun _ w => n w <= count c)).
  { assert (Hn : forall P : Z -> Prop,
              triple (fun w => P (n w)) now (fun _ w => P (n w)) (fun _ w => P (n w))).
    { intros P w Hw. pose proof (now_count w) as E. fold (n (snd (now w))) in E. fold (n w) in E.
      destruct (now w) as [[t|r] w1]; cbn [snd] in E; rewrite E; exact Hw. }
    unfold main.
    apply triple_bind with (Q := fun dl w => n w = 0 /\ (deadline c = 0 -> dl = 0)).
    { destruct (deadline c =? 0) eqn:Ed.
      - intros w Hw. cbn. split; [exact Hw | reflexivity].
      - apply Z.eqb_neq in Ed. intros w Hw. unfold bind.
        pose proof (Hn (fun k => k = 0) w Hw) as T.
        destruct (now w) as [[t|r] w1]; [|lia].
        cbn. split; [exact T | tauto]. }
    intros dl.
    apply triple_bind with (Q := fun _ w => n w = 0 /\ (deadline c = 0 -> dl = 0)).
    { intros w [Hw Hd]. pose proof (Hn (fun k => k = 0) w Hw) as T.
      destruct (now w) as [[t|r] w1]; [tauto | lia]. }
    intros t0.
    apply triple_bind with
      (Q := fun v w => request v = n w /\ n w <= count c /\
                       (exiting w = false -> deadline c = 0 -> count c <= request v)).
    { intros w [Hw Hd].
      apply (loop_rule c dl
               (fun v w => request v = n w /\ n w <= count c)
               (fun v w => request v = n w /\ n w < count c)
               (fun v w => request v = n w /\ n w <= count c /\
                           (exiting w = false -> deadline c = 0 -> count c <= request v))
               (fun _ w => n w <= count c)).
      - intros v w1 [Hv Hle]. pose proof (loop_head_count c dl v w1 (proj1 Hc)) as L.
        fold (n w1) in L.
        destruct (loop_head c dl v w1) as [[[|]|r] w2]; fold (n w2) in L.
        + destruct L as [L1 L2]. split; lia.
        + destruct L as [L1 L2]. split; [lia|]. split; [lia|]. intros He Hd0. auto.
        + lia.
      - intros v w1 [Hv Hlt]. pose proof (body_count c v w1) as B. fold (n w1) in B.
        assert (0 <= n w1) by apply Zle_0_nat.
        destruct (body c v w1) as [[v'|r] w2]; fold (n w2) in B.
        + destruct B as [B1 B2]. rewrite wrap32_next in B2 by lia. split; lia.
        + lia.
      - intros v w1 [Hv Hle]. exact Hle.
      - cbn [init_vars request]. split; lia. }
    intros v w (Hv & Hle & Hstop).
    pose proof (finalize_count c t0 v w) as F. fold (n w) in F.
    destruct (finalize c t0 v w) as [[sm|r] w1]; fold (n w1) in F.
    - destruct F as (F1 & F2 & F3). rewrite F3.
      split; [lia|]. split; [lia|]. intros He Hd0. specialize (Hstop He Hd0). lia.
    - lia. }
  intros res. specialize (T (boot clk sigs fadv prd) eq_refl). fold res in T.
  destruct res as [[sm|r] w]; cbn [fst snd]; fold (n w).
  - split; [tauto|]. intros sm0 E. inv E. tauto.
  - split; [exact T|]. intros sm0 E. discriminate E.
Qed.

Lemma count_bounds_requests_witness :
  let res := main (cfg false 0 3) (world_of [10; 20; 30]) in
  requests_issued (trace (snd res)) <= 3 /\
  (forall sm, fst res = Ok sm ->
     request (final sm) = requests_issued (trace (snd res)) /\
     (exiting (snd res) = false -> 0 = 0 -> request (final sm) = 3)).
Proof.
  apply (count_bounds_requests (cfg false 0 3)). cbn. unfold INT_MAX. lia.
Defined.

Lemma loop_head_negative_count c dl v w :
  count c < 0 -> request v = 0 ->
  match loop_head c dl v w with
  | (Ok true, _) => False
  | (_, w') => requests_issued (trace w') = requests_issued (trace w)
  end.
Proof.
  intros Hc Hv. destruct w as [clk sigs fadv prd ex tr].
  destruct (loop_head _ _ _ _) as [[[|]|r] w'] eqn:H.
  all: unfold_io H; repeat step_run H; inv H; cbn [trace].
  all: rewrite ?requests_issued_cons; cbn [is_request]; try lia.
Qed.

(** X13. A negative count ([-c -1]) is not "no limit": the loop is left
    before the first request, so no run issues any read, however it ends,
    and a run that returns reports zero requests. *)
Theorem negative_count_no_request c clk sigs fadv prd :
  count c < 0 ->
  let res := main c (boot clk sigs fadv prd) in
  requests_issued (trace (snd res)) = 0 /\
  (forall sm, fst res = Ok sm -> request (final sm) = 0).
Proof.
  intros Hc.
  set (n := fun w => requests_issued (trace w)).
  assert (T : triple (fun w => n w = 0) (main c)
                (fun sm w => n w = 0 /\ request (final sm) = 0)
                (fun _ w => n w = 0)).
  { assert (Hn : ends now (fun w => n w = 0) (fun _ w => n w = 0)).
    { intros w Hw. pose proof (now_count w) as E. fold (n (snd (now w))) in E. fold (n w) in E.
      destruct (now w) as [[t|r] w1]; cbn [snd] in E; lia. }
    unfold main.
    apply triple_bind with (Q := fun _ w => n w = 0).
    { destruct (deadline c =? 0); [apply ends_ret|].
      apply ends_bind; [exact Hn | intros; apply ends_ret]. }
    intros dl. apply triple_bind with (Q := fun _ w => n w = 0); [exact Hn|].
    intros t0.
    apply triple_bind with (Q := fun v w => request v = 0 /\ n w = 0).
    { intros w Hw.
      apply (loop_rule c dl
               (fun v w => request v = 0 /\ n w = 0)
               (fun _ _ => False)
               (fun v w => request v = 0 /\ n w = 0)
               (fun _ w => n w = 0)).
      - intros v w1 [Hv H0]. pose proof (loop_head_negative_count c dl v w1 Hc Hv) as L.
        fold (n w1) in L.
        destruct (loop_head c dl v w1) as [[[|]|r] w2]; fold (n w2) in L.
        + exact L.
        + split; [exact Hv | lia].
        + lia.
      - intros v w1 [].
      - intros v w1 [_ H0]. exact H0.
      - split; [reflexivity | exact Hw]. }
    intros v w [Hv H0].
    pose proof (finalize_count c t0 v w) as F. fold (n w) in F.
    destruct (finalize c t0 v w) as [[sm|r] w1]; fold (n w1) in F.
    - destruct F as (F1 & F2 & _). split; lia.
    - lia. }
  intros res. specialize (T (boot clk sigs fadv prd) eq_refl). fold res in T.
  destruct res as [[sm|r] w]; cbn [fst snd]; fold (n w).
  - split; [tauto|]. intros sm0 E. inv E. tauto.
  - split; [exact T|]. intros sm0 E. discriminate E.
Qed.

Lemma negative_count_no_request_witness :
  requests_issued (trace (snd (main (cfg false 0 (-1))
                                    (boot (Some 0 :: clock_of 5 [10; 20; 30]) [] [0; 0; 0]
                                          [(512, 0); (512, 0); (512, 0)])))) = 0.
Proof.
  apply (negative_count_no_request (cfg false 0 (-1)) _ _ _ _). reflexivity.
Defined.

(** ** Why the loop is left *)

Section Signals.
Variable sigs : list bool.
Let J := signals_from sigs.
Let E := fun (_ : abort) (_ : world) => True.

Lemma ends_gettimeofday : ends gettimeofday J E.
Proof.
  intros [clk sg fadv prd ex tr] Hw. unfold gettimeofday. cbn.
  destruct clk; [exact I | exact Hw].
Qed.

Lemma ends_now : ends now J E.
Proof.
  apply ends_bind; [apply ends_gettimeofday|]. intros [t|]; [apply ends_ret|].
  intros w Hw. exact I.
Qed.

Lemma ends_fadvise : ends posix_fadvise J E.
Proof.
  intros [clk sg fadv prd ex tr] Hw. unfold posix_fadvise. cbn.
  destruct fadv; [exact I | exact Hw].
Qed.

Lemma ends_pread : ends pread J E.
Proof.
  intros [clk sg fadv prd ex tr] Hw. unfold pread. cbn.
  destruct prd; [exact I | exact Hw].
Qed.

Lemma ends_emit e : ends (emit e) J E.
Proof. intros [clk sg fadv prd ex tr] Hw. exact Hw. Qed.

Lemma ends_err A st msg : ends (@err A st msg) J E.
Proof. intros w Hw. exact I. Qed.

Lemma ends_read_exiting : ends read_exiting J E.
Proof.
  intros [clk sg fadv prd ex tr] (seen & Es & Hs). unfold read_exiting. cbn.
  cbn in Es, Hs. destruct sg as [|b sg]; cbn.
  - exists seen. split; assumption.
  - exists (seen ++ [b]). rewrite <- app_assoc, in_app_iff.
    destruct b; cbn; split; auto.
Qed.

Lemma ends_body c v : ends (body c v) J E.
Proof.
  unfold body, timed_read, window_check, flush_window, usleep.
  repeat first
    [ apply ends_ret | apply ends_now | apply ends_fadvise | apply ends_pread
    | apply ends_emit | apply ends_err | apply ends_read_exiting
    | apply ends_bind; [|intros ?]
    | match goal with
      | |- ends (if ?b then _ else _) _ _ => destruct b
      | |- ends (match ?o with Some _ => _ | None => _ end) _ _ => destruct o
      end
    | (intros w Hw; exact I) ].
Qed.

Lemma ends_loop_head c dl v : ends (loop_head c dl v) J E.
Proof.
  unfold loop_head.
  repeat first
    [ apply ends_ret | apply ends_now | apply ends_read_exiting
    | apply ends_bind; [|intros ?]
    | match goal with
      | |- ends (if ?b then _ else _) _ _ => destruct b
      end ].
Qed.

Lemma ends_finalize c t0 v : ends (finalize c t0 v) J E.
Proof.
  unfold finalize.
  repeat first
    [ apply ends_ret | apply ends_now | apply ends_emit
    | apply ends_bind; [|intros ?]
    | match goal with
      | |- ends (if ?b then _ else _) _ _ => destruct b
      end ].
Qed.

Lemma main_signals c : ends (main c) J E.
Proof.
  apply main_triple.
  - apply ends_now.
  - intros. apply ends_loop_head.
  - apply ends_body.
  - intros; exact I.
  - intros. apply ends_finalize.
Qed.

End Signals.

Lemma loop_head_stops c dl v w w' :
  loop_head c dl v w = (Ok false, w') ->
  exiting w' = true \/
  (count c <> 0 /\ count c <= request v) \/
  (dl <> 0 /\ exists t tr, trace w' = EvGettimeofday (Some t) :: tr /\ dl <= t).
Proof.
  destruct w as [clk sg fadv prd ex tr]. intros H.
  unfold_io H; repeat step_run H; inv H; cbn [exiting trace]; bool_facts.
  all: try (left; reflexivity).
  all: try (right; left; split; [assumption | lia]).
  all: right; right; split; [assumption|]; eexists _, _; split; [reflexivity | lia].
Qed.

Lemma loop_stops c dl fuel : forall v w v' w',
  loop fuel c dl v w = (Ok v', w') ->
  exiting w' = true \/
  (count c <> 0 /\ count c <= request v') \/
  (dl <> 0 /\ exists t tr, trace w' = EvGettimeofday (Some t) :: tr /\ dl <= t).
Proof.
  induction fuel as [|fuel IH]; intros v w v' w' H; [discriminate|].
  cbn [loop] in H. apply bind_ok in H. destruct H as ([|] & w1 & Hh & H).
  - apply bind_ok in H. destruct H as (v1 & w2 & _ & H). exact (IH _ _ _ _ H).
  - inv H. exact (loop_head_stops _ _ _ _ _ Hh).
Qed.

Lemma finalize_keeps c t0 v w sm w' :
  finalize c t0 v w = (Ok sm, w') ->
  request (final sm) = request v /\ exiting w' = exiting w /\
  exists pre, trace w' = pre ++ trace w.
Proof.
  destruct w as [clk sg fadv prd ex tr]. intros H.
  unfold_io H; repeat step_run H; inv H; cbn [exiting trace final].
  - split; [reflexivity|]. split; [reflexivity|]. exists [EvGettimeofday (Some z)]. reflexivity.
  - split; [reflexivity|]. split; [reflexivity|].
    eexists [_; _; _; _]. reflexivity.
Qed.

(** X2. A run of [main] returns only for one of the three reasons of the
    loop: SIGINT was delivered and seen ([exiting] is set, and the signal is
    in the script of the world); or a count is set and that many requests
    were made; or a deadline is set and a clock reading taken before a
    request reached the start time plus the deadline. In particular,
    without [-c] and [-w] a run that returns was interrupted. *)
Theorem main_returns_for_a_reason c clk sigs fadv prd sm w' :
  main c (boot clk sigs fadv prd) = (Ok sm, w') ->
  (exiting w' = true /\ In true sigs) \/
  (count c <> 0 /\ count c <= request (final sm)) \/
  (deadline c <> 0 /\
   exists t0 clk' t,
     clk = Some t0 :: clk' /\
     In (EvGettimeofday (Some t)) (trace w') /\
     wrap64 (deadline c + t0) <= t).
Proof.
  intros H.
  pose proof (main_signals sigs c (boot clk sigs fadv prd)) as Js.
  rewrite H in Js.
  assert (J0 : signals_from sigs (boot clk sigs fadv prd)).
  { exists []. split; [reflexivity | discriminate]. }
  destruct (Js J0) as (seen & Es & Hs). clear Js J0.
  unfold main in H.
  apply bind_ok in H. destruct H as (dl & w1 & H1 & H).
  apply bind_ok in H. destruct H as (t_start & w2 & _ & H).
  apply bind_ok in H. destruct H as (v & w3 & H3 & H).
  destruct (finalize_keeps _ _ _ _ _ _ H) as (Fr & Fe & pre & Ft).
  destruct (loop_stops _ _ _ _ _ _ _ H3) as [S|[S|(Hd & t & tr & Et & Ht)]].
  - left. rewrite Fe. split; [exact S|].
    rewrite Es, in_app_iff. left. apply Hs. rewrite Fe. exact S.
  - right. left. rewrite Fr. exact S.
  - right. right.
    destruct (deadline c =? 0) eqn:Ed; [inv H1; congruence|].
    apply Z.eqb_neq in Ed. split; [exact Ed|].
    apply bind_ok in H1. destruct H1 as (t0 & w0 & Hn & H1). inv H1.
    destruct (now_ok _ _ _ Hn) as (_ & Ec & _). cbn [boot clock] in Ec.
    exists t0, (clock w1), t. split; [exact Ec|]. split; [|exact Ht].
    rewrite Ft, Et, in_app_iff. right. left. reflexivity.
Qed.

Lemma main_returns_for_a_reason_witness :
  exists sm w',
    main (cfg false 0 0) world_sigint = (Ok sm, w') /\
    ((exiting w' = true /\ In true [true]) \/
     (count (cfg false 0 0) <> 0 /\ count (cfg false 0 0) <= request (final sm)) \/
     (deadline (cfg false 0 0) <> 0 /\
      exists t0 clk' t,
        [Some 0; Some 7] = Some t0 :: clk' /\
        In (EvGettimeofday (Some t)) (trace w') /\
        wrap64 (deadline (cfg false 0 0) + t0) <= t)).
Proof.
  destruct (main (cfg false 0 0) world_sigint) as [[sm|r] w'] eqn:E.
  - exists sm, w'. split; [reflexivity|].
    exact (main_returns_for_a_reason (cfg false 0 0) [Some 0; Some 7] [true] [] [] sm w' E).
  - vm_compute in E. discriminate E.
Defined.

(** ** The per-request lines *)

Lemma latencies_failed tr : latencies (EvGettimeofday None :: tr) = latencies tr.
Proof. reflexivity. Qed.

Ltac simpl_latencies :=
  repeat first
    [ rewrite latencies_window
    | rewrite latencies_measured
    | rewrite latencies_failed
    | rewrite latencies_clock by (assumption || exact I)
    | rewrite latencies_skip by exact I ].

Lemma wrap32_wrap32_succ n : wrap32 (wrap32 n + 1) = wrap32 (n + 1).
Proof.
  unfold wrap32, wrap.
  replace ((n + 2 ^ (32 - 1)) mod 2 ^ 32 - 2 ^ (32 - 1) + 1 + 2 ^ (32 - 1))
    with ((n + 2 ^ (32 - 1)) mod 2 ^ 32 + 1) by lia.
  rewrite Z.add_mod_idemp_l by (cbv; discriminate).
  f_equal. f_equal. lia.
Qed.

Lemma numbered32_small xs :
  Z.of_nat (List.length xs) <= INT_MAX -> numbered32 xs = numbered xs.
Proof.
  induction xs as [|x xs IH]; intros H; [reflexivity|].
  cbn [numbered numbered32]. cbn [List.length] in IH, H.
  rewrite IH by lia. rewrite wrap32_small; [reflexivity|].
  cbn [List.length]. unfold INT_MIN, INT_MAX in *. lia.
Qed.

Lemma body_numbered c v w :
  quiet c = false -> lines_numbered v w ->
  match body c v w with
  | (Ok v', w') => lines_numbered v' w'
  | (Abort _, w') => request_lines (trace w') = numbered32 (latencies (trace w'))
  end.
Proof.
  intros Hq (Q & Hr & Hl). destruct w as [clk sigs fadv prd ex tr].
  cbn [trace] in *.
  destruct (body _ _ _) as [[v'|r] w'] eqn:H.
  all: unfold_io H; rewrite Hq in H; cbn in H; repeat step_run H; inv H.
  all: unfold lines_numbered; cbn [trace].
  all: autorewrite with events; simpl_latencies.
  all: cbn [request_lines]; autorewrite with events; cbn [request_lines numbered32 List.length].
  all: try assumption.
  all: repeat split; try exact I.
  all: unfold reset_part, fold_part, record, next_request; cbn [request].
  all: rewrite ?Hr, ?Hl, ?Nat2Z.inj_succ, <- ?Z.add_1_r, ?wrap32_wrap32_succ; try reflexivity.
Qed.

Lemma loop_head_numbered c dl v w :
  lines_numbered v w ->
  match loop_head c dl v w with
  | (Ok _, w') => lines_numbered v w'
  | (Abort _, w') => request_lines (trace w') = numbered32 (latencies (trace w'))
  end.
Proof.
  intros (Q & Hr & Hl). destruct w as [clk sigs fadv prd ex tr].
  cbn [trace] in *.
  destruct (loop_head _ _ _ _) as [[go|r] w'] eqn:H.
  all: unfold_io H; repeat step_run H; inv H.
  all: unfold lines_numbered; cbn [trace].
  all: simpl_latencies; cbn [request_lines].
  all: try assumption.
  all: repeat split; assumption || exact I.
Qed.

Lemma now_numbered v w :
  lines_numbered v w ->
  match now w with
  | (Ok _, w') => lines_numbered v w'
  | (Abort _, w') => request_lines (trace w') = numbered32 (latencies (trace w'))
  end.
Proof.
  intros (Q & Hr & Hl). destruct w as [clk sigs fadv prd ex tr].
  cbn [trace] in *.
  destruct (now _) as [[go|r] w'] eqn:H.
  all: unfold_io H; repeat step_run H; inv H.
  all: unfold lines_numbered; cbn [trace].
  all: simpl_latencies; cbn [request_lines].
  all: try assumption.
  all: repeat split; assumption || exact I.
Qed.

Lemma finalize_numbered c t0 v w :
  lines_numbered v w ->
  let w' := snd (finalize c t0 v w) in
  request_lines (trace w') = numbered32 (latencies (trace w')).
Proof.
  intros (Q & Hr & Hl). destruct w as [clk sigs fadv prd ex tr].
  cbn [trace] in *.
  destruct (finalize _ _ _ _) as [[go|r] w'] eqn:H.
  all: unfold_io H; repeat step_run H; inv H.
  all: cbn [trace snd].
  all: simpl_latencies; cbn [request_lines]; assumption.
Qed.

(** X3. When not quiet, the per-request lines of a run of [main], however
    it ends, are one line for each latency measured, in order, numbered
    1, 2, 3, ... and showing that latency divided by 1000 (milliseconds);
    this as long as fewer than 2^31 requests were made. *)
Theorem request_lines_numbered c clk sigs fadv prd :
  quiet c = false ->
  let tr := trace (snd (main c (boot clk sigs fadv prd))) in
  Z.of_nat (List.length (latencies tr)) <= INT_MAX ->
  request_lines tr = numbered (latencies tr).
Proof.
  intros Hq tr Hn. rewrite <- numbered32_small by exact Hn. subst tr. clear Hn.
  set (E := fun (_ : abort) w => request_lines (trace w) = numbered32 (latencies (trace w))).
  assert (T : triple (lines_numbered init_vars) (main c) (fun _ => E AOutOfFuel) E).
  { assert (Hnow : ends now (lines_numbered init_vars) E).
    { intros w Hw. exact (now_numbered _ _ Hw). }
    unfold main.
    apply triple_bind with (Q := fun _ => lines_numbered init_vars).
    { destruct (deadline c =? 0); [apply ends_ret|].
      apply ends_bind; [exact Hnow | intros; apply ends_ret]. }
    intros dl. apply triple_bind with (Q := fun _ => lines_numbered init_vars); [exact Hnow|].
    intros t0. apply triple_bind with (Q := lines_numbered).
    { intros w Hw.
      apply (loop_rule c dl lines_numbered lines_numbered lines_numbered E).
      - intros v w1 H1. pose proof (loop_head_numbered c dl v w1 H1) as L.
        destruct (loop_head c dl v w1) as [[[|]|r] w2]; exact L.
      - intros v w1 H1. exact (body_numbered c v w1 Hq H1).
      - intros v w1 (_ & _ & H1). exact H1.
      - exact Hw. }
    intros v w Hw. pose proof (finalize_numbered c t0 v w Hw) as F. cbn zeta in F.
    destruct (finalize c t0 v w) as [[sm|r] w1]; exact F. }
  specialize (T (boot clk sigs fadv prd)).
  destruct (main c (boot clk sigs fadv prd)) as [[sm|r] w]; apply T.
  all: split; [exact I | split; reflexivity].
Qed.

Lemma request_lines_numbered_witness :
  request_lines (trace (snd (main (cfg false 2 3) (world_of [10; 20; 30]))))
  = [(3, ms 30); (2, ms 20); (1, ms 10)].
Proof.
  pose proof (request_lines_numbered (cfg false 2 3) (Some 0 :: clock_of 5 [10; 20; 30]) []
                [0; 0; 0] [(512, 0); (512, 0); (512, 0)] eq_refl) as T.
  cbn zeta in T. change (boot _ _ _ _) with (world_of [10; 20; 30]) in T.
  rewrite T.
  - vm_compute. reflexivity.
  - vm_compute. discriminate.
Defined.

(** ** The pause between requests *)

Lemma loop_head_paced c dl v w :
  paced c w ->
  match loop_head c dl v w with
  | (Ok true, w') =>
      quiescent (trace w') /\ exiting w' = false /\
      sleeps (trace w') = repeat (useconds (interval c)) (List.length (latencies (trace w')))
  | (Ok false, w') => paced c w'
  | (Abort _, _) => True
  end.
Proof.
  intros (Q & k & Hs & Hk). destruct w as [clk sigs fadv prd ex tr].
  cbn [trace exiting] in *.
  destruct (loop_head _ _ _ _) as [[[|]|r] w'] eqn:H.
  all: unfold_io H; repeat step_run H; inv H; try exact I.
  all: unfold paced; cbn [trace exiting]; simpl_latencies; cbn [sleeps].
  all: try (split; [exact I || exact Q|]; exists k; split; [exact Hs|];
            destruct Hk as [Hk|[He Hk]];
            [left; exact Hk
            |first [congruence | right; split; [reflexivity || exact He | exact Hk]]]).
  all: split; [exact I || exact Q|]; split; [assumption || reflexivity|].
  all: destruct Hk as [Hk|[He Hk]]; [subst k; exact Hs | congruence].
Qed.

Lemma body_paced c v w :
  quiescent (trace w) -> exiting w = false ->
  sleeps (trace w) = repeat (useconds (interval c)) (List.length (latencies (trace w))) ->
  match body c v w with
  | (Ok _, w') => paced c w'
  | (Abort _, _) => True
  end.
Proof.
  intros Q He Hs. destruct w as [clk sigs fadv prd ex tr].
  cbn [trace exiting] in *. subst ex.
  destruct (body _ _ _) as [[v'|r] w'] eqn:H.
  all: unfold_io H; repeat step_run H; inv H; try exact I.
  all: unfold paced; cbn [trace exiting].
  all: autorewrite with events; simpl_latencies; cbn [sleeps]; autorewrite with events;
       cbn [sleeps List.length].
  all: split; [exact I|].
  all: first [ exists (S (List.length (latencies tr))); split; [cbn [repeat]; rewrite <- Hs; reflexivity | left; reflexivity]
             | exists (List.length (latencies tr)); split; [exact Hs | right; split; reflexivity] ].
Qed.

Lemma now_paced c w :
  paced c w ->
  match now w with
  | (Ok _, w') => paced c w' /\ exiting w' = exiting w
  | (Abort _, _) => True
  end.
Proof.
  intros (Q & k & Hs & Hk). destruct w as [clk sigs fadv prd ex tr].
  cbn [trace exiting] in *.
  destruct (now _) as [[t|r] w'] eqn:H.
  all: unfold_io H; repeat step_run H; inv H; try exact I.
  unfold paced; cbn [trace exiting]; simpl_latencies; cbn [sleeps].
  split; [|reflexivity]. split; [exact I|]. exists k. split; assumption.
Qed.

Lemma finalize_paced c t0 v w :
  paced c w ->
  match finalize c t0 v w with
  | (Ok _, w') =>
      sleeps (trace w') = sleeps (trace w) /\
      latencies (trace w') = latencies (trace w) /\ exiting w' = exiting w
  | (Abort _, _) => True
  end.
Proof.
  intros (Q & _). destruct w as [clk sigs fadv prd ex tr].
  cbn [trace exiting] in *.
  destruct (finalize _ _ _ _) as [[t|r] w'] eqn:H.
  all: unfold_io H; repeat step_run H; inv H; try exact I.
  all: cbn [trace exiting]; simpl_latencies; cbn [sleeps]; repeat split.
Qed.

(** X4. A run of [main] that returns has called [usleep] after every
    request, the last one included: there are as many [usleep] calls as
    requests, each with [interval] converted to [useconds_t], that is
    [interval] modulo 2^32 (so [-i 2h], 7200000000 microseconds, sleeps
    2905032704). The one exception is a run stopped by SIGINT, which may have
    skipped the pause after its last request. *)
Theorem pause_after_every_request c clk sigs fadv prd sm w' :
  main c (boot clk sigs fadv prd) = (Ok sm, w') ->
  let n := List.length (latencies (trace w')) in
  exists k,
    sleeps (trace w') = repeat (useconds (interval c)) k /\
    (k <= n <= S k)%nat /\
    (exiting w' = false -> k = n).
Proof.
  intros H n.
  set (E := fun (_ : abort) (_ : world) => True).
  assert (T : triple (paced c) (main c)
                (fun _ w => exists k,
                     sleeps (trace w) = repeat (useconds (interval c)) k /\
                     (k = List.length (latencies (trace w)) \/
                      (exiting w = true /\ S k = List.length (latencies (trace w))))) E).
  { assert (Hnow : ends now (paced c) E).
    { intros w Hw. pose proof (now_paced c w Hw) as N.
      destruct (now w) as [[t|r] w1]; [exact (proj1 N) | exact I]. }
    unfold main.
    apply triple_bind with (Q := fun _ => paced c).
    { destruct (deadline c =? 0); [apply ends_ret|].
      apply ends_bind; [exact Hnow | intros; apply ends_ret]. }
    intros dl. apply triple_bind with (Q := fun _ => paced c); [exact Hnow|].
    intros t0. apply triple_bind with (Q := fun _ => paced c).
    { intros w Hw.
      apply (loop_rule c dl (fun _ => paced c)
               (fun _ w => quiescent (trace w) /\ exiting w = false /\
                           sleeps (trace w)
                           = repeat (useconds (interval c)) (List.length (latencies (trace w))))
               (fun _ => paced c) E).
      - intros v w1 H1. pose proof (loop_head_paced c dl v w1 H1) as L.
        destruct (loop_head c dl v w1) as [[[|]|r] w2]; exact L.
      - intros v w1 (Q1 & E1 & S1). exact (body_paced c v w1 Q1 E1 S1).
      - intros; exact I.
      - exact Hw. }
    intros v w Hw. pose proof (finalize_paced c t0 v w Hw) as F.
    destruct (finalize c t0 v w) as [[s|r] w1]; [|exact I].
    destruct F as (F1 & F2 & F3). destruct Hw as (_ & k & Hs & Hk).
    exists k. rewrite F1, F2, F3. split; assumption. }
  specialize (T (boot clk sigs fadv prd)). rewrite H in T.
  destruct T as (k & Hs & Hk).
  { split; [exact I|]. exists 0%nat. split; [reflexivity | left; reflexivity]. }
  exists k. split; [exact Hs|]. fold n in Hk.
  destruct Hk as [Hk|[He Hk]].
  - split; [lia | intros; exact Hk].
  - split; [lia | congruence].
Qed.

Lemma pause_after_every_request_witness :
  exists sm w',
    main (mkConfig true 0 false 7200000000 0 3) (world_of [10; 20; 30]) = (Ok sm, w') /\
    sleeps (trace w') = [2905032704; 2905032704; 2905032704].
Proof.
  destruct (main (mkConfig true 0 false 7200000000 0 3) (world_of [10; 20; 30]))
    as [[sm|r] w'] eqn:E.
  - exists sm, w'. split; [reflexivity|].
    destruct (pause_after_every_request (mkConfig true 0 false 7200000000 0 3) _ _ _ _ sm w' E)
      as (k & Hs & _ & Hk).
    rewrite Hs, Hk.
    + vm_compute in E. inv E. reflexivity.
    + vm_compute in E. inv E. reflexivity.
  - vm_compute in E. discriminate E.
Defined.

(* ================================================================== *)
(** * The options *)
(* ================================================================== *)

(** ** Exact products in binary64 *)

Lemma digits2_mono a c :
  (a <= c)%positive -> Zpos (digits2_pos a) <= Zpos (digits2_pos c).
Proof.
  intros H. rewrite (digits2_size a), (digits2_size c).
  pose proof (Pos.size_le a) as Ha. pose proof (Pos.size_gt c) as Hc.
  assert (L : 2 ^ Zpos (Pos.size a) < 2 ^ (Zpos (Pos.size c) + 1)).
  { rewrite Z.pow_add_r, <- !Pos2Z.inj_pow by lia.
    change (2 ^ 1) with 2.
    generalize dependent (2 ^ Pos.size a)%positive.
    generalize dependent (2 ^ Pos.size c)%positive. intros; lia. }
  apply Z.pow_lt_mono_r_iff in L; lia.
Qed.

Lemma dmul_canon sa a sb b :
  Zpos (digits2_pos a) <= 53 -> Zpos (digits2_pos b) <= 53 ->
  Zpos (digits2_pos (a * b)) <= 53 ->
  dmul (canon sa a) (canon sb b) = canon (xorb sa sb) (a * b).
Proof.
  intros Ha Hb Hab. unfold dmul, canon. cbn [SFmul].
  set (da := Zpos (digits2_pos a)) in *. set (db := Zpos (digits2_pos b)) in *.
  set (dp := Zpos (digits2_pos (a * b))) in *.
  assert (1 <= da) by (unfold da; lia). assert (1 <= db) by (unfold db; lia).
  assert (da <= dp) by (apply digits2_mono; nia).
  assert (E : (pshl a (53 - da) * pshl b (53 - db))%positive
              = pshl (pshl (a * b) (53 - dp)) (53 - da - db + dp)).
  { apply Pos2Z.inj. rewrite pshl_pshl by lia.
    rewrite Pos2Z.inj_mul, !Zpos_pshl by lia. rewrite Pos2Z.inj_mul.
    replace (53 - dp + (53 - da - db + dp)) with ((53 - da) + (53 - db)) by lia.
    rewrite Z.pow_add_r by lia. ring. }
  rewrite E, round_shifted.
  - f_equal. lia.
  - rewrite digits2_pshl by lia. fold dp. lia.
  - lia.
  - lia.
Qed.

Lemma to_ll_canon s n :
  Zpos (digits2_pos n) <= 53 -> to_ll (canon s n) = Some (cond_Zopp s (Zpos n)).
Proof.
  intros Hd. unfold canon, to_ll.
  set (d := Zpos (digits2_pos n)) in *.
  assert (1 <= d) by (unfold d; lia).
  assert (Hn : Zpos n < 2 ^ 53).
  { pose proof (Pos.size_gt n) as G. rewrite <- digits2_size in G.
    assert (Zpos n < 2 ^ d) by (unfold d; rewrite <- Pos2Z.inj_pow; lia).
    assert (2 ^ d <= 2 ^ 53) by (apply Z.pow_le_mono_r; lia). lia. }
  replace (Z.shiftl (Zpos (pshl n (53 - d))) (d - 53)) with (Zpos n).
  - assert (R : (LLONG_MIN <=? cond_Zopp s (Zpos n)) && (cond_Zopp s (Zpos n) <=? LLONG_MAX) = true).
    { apply andb_true_iff. rewrite !Z.leb_le. unfold LLONG_MIN, LLONG_MAX.
      destruct s; cbn [cond_Zopp]; lia. }
    rewrite R. reflexivity.
  - replace (d - 53) with (- (53 - d)) by lia.
    rewrite Z.shiftl_opp_r, Z.shiftr_div_pow2, Zpos_pshl by lia.
    rewrite Z.div_mul; [reflexivity|]. apply Z.pow_nonzero; lia.
Qed.

(** The product of two integers, computed in [double] and converted back,
    is exact as long as nothing exceeds 53 bits. *)
Lemma to_ll_dmul_exact a b :
  Z.abs a < 2 ^ 53 -> Z.abs b < 2 ^ 53 -> Z.abs (a * b) < 2 ^ 53 ->
  to_ll (dmul (of_ll a) (of_ll b)) = Some (a * b).
Proof.
  intros Ha Hb Hab.
  destruct a as [|a|a]; destruct b as [|b|b]; try reflexivity.
  all: rewrite ?of_ll_pos, ?of_ll_neg by (apply digits2_bound; lia).
  all: try reflexivity.
  all: rewrite dmul_canon by (apply digits2_bound; lia).
  all: rewrite to_ll_canon by (apply digits2_bound; lia).
  all: reflexivity.
Qed.

(** ** Suffixes *)

Lemma strcaseeq_left a b t :
  strcaseeq a b = true -> strcaseeq a t = strcaseeq b t.
Proof.
  revert b t. induction a as [|x a IH]; intros [|y b] [|z t] H; cbn in *;
    try reflexivity; try discriminate.
  apply andb_true_iff in H. destruct H as [Hx Ha].
  apply Ascii.eqb_eq in Hx. rewrite Hx, (IH b t Ha). reflexivity.
Qed.

Lemma find_suffix_case e e' sfx :
  strcaseeq e e' = true -> find_suffix e sfx = find_suffix e' sfx.
Proof.
  intros H. induction sfx as [|[txt mul] sfx IH]; [reflexivity|].
  cbn [find_suffix]. rewrite (strcaseeq_left e e' txt H), IH. reflexivity.
Qed.

Section OptionValues.
Variable strtod : string -> double * string.

(** X5. The suffix of an option value is matched without regard to case:
    two values with the same number whose suffixes differ only in the case
    of their letters are parsed alike, whatever the table, a rejected
    suffix included. *)
Theorem suffix_case_insensitive sfx s s' v e e' :
  strtod s = (v, e) -> strtod s' = (v, e') -> strcaseeq e e' = true ->
  parse_suffix strtod s sfx = parse_suffix strtod s' sfx.
Proof.
  intros Hs Hs' He. unfold parse_suffix. rewrite Hs, Hs'.
  rewrite (find_suffix_case e e' sfx He). reflexivity.
Qed.

(** X6. In [parse_size] the suffix [p] always means pages of 4096 bytes:
    the later entry that gives [p] the value 2^50 is never reached, so the
    table does what it would do without that entry, and petabytes can only
    be written [pb]. *)
Theorem parse_size_p_is_pages str :
  parse_size strtod str = parse_suffix strtod str sfx_size_once /\
  (forall e, strcaseeq e "p" = true ->
     find_suffix e sfx_size = Some 4096 /\
     find_suffix e sfx_size <> Some (2 ^ 50)) /\
  find_suffix "pb" sfx_size = Some (2 ^ 50).
Proof.
  split; [|split].
  - unfold parse_size, parse_suffix. destruct (strtod str) as [v e].
    replace (find_suffix e sfx_size) with (find_suffix e sfx_size_once); [reflexivity|].
    unfold sfx_size, sfx_size_once. cbn [find_suffix].
    repeat match goal with
           | |- context [strcaseeq e ?t] => destruct (strcaseeq e t) eqn:?; [reflexivity|]
           end.
    reflexivity.
  - intros e He. rewrite (find_suffix_case e "p" sfx_size He).
    split; [reflexivity | discriminate].
  - reflexivity.
Qed.

(** X7. An option value that is a whole number [n] with a suffix of
    multiplier [mul] is parsed to exactly [n * mul], without touching the
    world, as long as [n], [mul] and the product are below 2^53 in absolute
    value: the detour through [double] loses nothing. *)
Theorem parse_suffix_exact str sfx n e mul w :
  strtod str = (of_ll n, e) -> find_suffix e sfx = Some mul ->
  Z.abs n < 2 ^ 53 -> Z.abs mul < 2 ^ 53 -> Z.abs (n * mul) < 2 ^ 53 ->
  parse_suffix strtod str sfx w = (Ok (n * mul), w).
Proof.
  intros Hs Hf Hn Hm Hp. unfold parse_suffix. rewrite Hs, Hf.
  rewrite to_ll_dmul_exact by assumption. reflexivity.
Qed.

End OptionValues.

Lemma suffix_case_insensitive_witness :
  parse_suffix strtod_digits "4K" sfx_size = parse_suffix strtod_digits "4k" sfx_size.
Proof.
  apply (suffix_case_insensitive strtod_digits sfx_size "4K" "4k" (of_ll 4) "K" "k");
    reflexivity.
Defined.

Lemma parse_suffix_exact_witness :
  parse_suffix strtod_digits "3min" sfx_time world_sigint = (Ok 180000000, world_sigint).
Proof.
  apply (parse_suffix_exact strtod_digits "3min" sfx_time 3 "min" 60000000 world_sigint).
  - reflexivity.
  - reflexivity.
  - reflexivity.
  - reflexivity.
  - reflexivity.
Defined.

(** ** The command line *)

Section CommandLine.
Variable strtod : string -> double * string.

Lemma parse_suffix_pure s sfx w r w' :
  parse_suffix strtod s sfx w = (Ok r, w') -> w' = w.
Proof.
  unfold parse_suffix. destruct (strtod s) as [v e].
  destruct (find_suffix e sfx) as [mul|]; [|discriminate].
  destruct (to_ll _); [|discriminate]. intros H. inv H. reflexivity.
Qed.

Lemma parsed_value (parse : string -> M Z) (k : Z -> globals) a w g1 w1 :
  (forall s w r w', parse s w = (Ok r, w') -> w' = w) ->
  bind (parse a) (fun v => ret (k v)) w = (Ok g1, w1) ->
  w1 = w /\ exists r, parse a w = (Ok r, w) /\ g1 = k r.
Proof.
  intros Hp H. apply bind_ok in H. destruct H as (r & w0 & H1 & H2). inv H2.
  pose proof (Hp _ _ _ _ H1). subst w1. split; [reflexivity|]. exists r. auto.
Qed.

(** What one answer of [getopt] does to the globals when the [switch]
    is passed. *)
Lemma option_case_ok opt a g0 w g1 w1 :
  option_case strtod opt a g0 w = (Ok g1, w1) ->
  w1 = w /\ Ascii.eqb opt "h" = false /\ Ascii.eqb opt "?" = false /\
  (if Ascii.eqb opt NONOPT then opt_path g0 = None /\ opt_path g1 = Some a
   else opt_path g1 = opt_path g0) /\
  opt_direct g1 = opt_direct g0 || Ascii.eqb opt "D" /\
  opt_cached g1 = opt_cached g0 || Ascii.eqb opt "C" /\
  opt_quiet g1 = opt_quiet g0 || Ascii.eqb opt "q" /\
  (if Ascii.eqb opt "i" then exists r, parse_time strtod a w = (Ok r, w) /\ opt_interval g1 = r
   else opt_interval g1 = opt_interval g0) /\
  (if Ascii.eqb opt "w" then exists r, parse_time strtod a w = (Ok r, w) /\ opt_deadline g1 = r
   else opt_deadline g1 = opt_deadline g0) /\
  (if Ascii.eqb opt "s" then exists r, parse_size strtod a w = (Ok r, w) /\ opt_size g1 = r
   else opt_size g1 = opt_size g0) /\
  (if Ascii.eqb opt "o" then exists r, parse_size strtod a w = (Ok r, w) /\ opt_offset g1 = r
   else opt_offset g1 = opt_offset g0) /\
  (if Ascii.eqb opt "p" then exists r, parse_int strtod a w = (Ok r, w) /\ opt_period g1 = wrap32 r
   else opt_period g1 = opt_period g0) /\
  (if Ascii.eqb opt "c" then exists r, parse_int strtod a w = (Ok r, w) /\ opt_count g1 = wrap32 r
   else opt_count g1 = opt_count g0).
Proof.
  unfold option_case. intros H.
  repeat match type of H with
         | (if Ascii.eqb opt ?o then _ else _) _ = _ =>
             let E := fresh "E" in
             destruct (Ascii.eqb opt o) eqn:E;
             [apply Ascii.eqb_eq in E; subst opt; cbn [Ascii.eqb Bool.eqb NONOPT ascii_of_N
                                                      ascii_of_pos] in *|]
         end.
  all: try discriminate H.
  all: try (apply parsed_value in H; [|intros ? ? ? ?; apply parse_suffix_pure];
            destruct H as (-> & r & Hr & ->)).
  all: try (destruct (opt_path g0) eqn:Ep; [discriminate H|]).
  all: try (inv H).
  all: cbn; rewrite ?orb_false_r, ?orb_true_r.
  all: repeat match goal with E : Ascii.eqb _ _ = false |- _ => rewrite E; clear E end.
  all: rewrite ?orb_false_r.
  all: repeat split; try reflexivity; try assumption.
  all: try (exists r; split; [exact Hr | reflexivity]).
Qed.

Lemma assigned_cons (parse : string -> M Z) conv o opt a gs v0 v1 v w :
  (if Ascii.eqb opt o then exists r, parse a w = (Ok r, w) /\ v1 = conv r else v1 = v0) ->
  assigned parse conv o gs v1 v w ->
  assigned parse conv o ((opt, a) :: gs) v0 v w.
Proof.
  unfold assigned. cbn [last_arg]. intros H1 H.
  destruct (last_arg o gs) as [s|]; [exact H|]. subst v.
  destruct (Ascii.eqb opt o); exact H1.
Qed.

Lemma given_cons o opt a gs : given o ((opt, a) :: gs) = Ascii.eqb opt o || given o gs.
Proof. reflexivity. Qed.

Lemma destinations_cons opt a gs :
  destinations ((opt, a) :: gs)
  = if Ascii.eqb opt NONOPT then a :: destinations gs else destinations gs.
Proof.
  unfold destinations. cbn [filter fst]. destruct (Ascii.eqb opt NONOPT); reflexivity.
Qed.

Lemma getopt_loop_ok gs : forall g0 g w w',
  getopt_loop strtod gs g0 w = (Ok g, w') ->
  w' = w /\ given "h" gs = false /\ given "?" gs = false /\
  ((destinations gs = [] /\ opt_path g = opt_path g0) \/
   (exists p, destinations gs = [p] /\ opt_path g0 = None /\ opt_path g = Some p)) /\
  opt_direct g = opt_direct g0 || given "D" gs /\
  opt_cached g = opt_cached g0 || given "C" gs /\
  opt_quiet g = opt_quiet g0 || given "q" gs /\
  assigned (parse_time strtod) (fun r => r) "i" gs (opt_interval g0) (opt_interval g) w /\
  assigned (parse_time strtod) (fun r => r) "w" gs (opt_deadline g0) (opt_deadline g) w /\
  assigned (parse_size strtod) (fun r => r) "s" gs (opt_size g0) (opt_size g) w /\
  assigned (parse_size strtod) (fun r => r) "o" gs (opt_offset g0) (opt_offset g) w /\
  assigned (parse_int strtod) wrap32 "p" gs (opt_period g0) (opt_period g) w /\
  assigned (parse_int strtod) wrap32 "c" gs (opt_count g0) (opt_count g) w.
Proof.
  induction gs as [|[opt a] gs IH]; intros g0 g w w' H.
  - inv H. unfold assigned. cbn. rewrite !orb_false_r. repeat split; try reflexivity.
    left. split; reflexivity.
  - cbn [getopt_loop] in H. apply bind_ok in H. destruct H as (g1 & w1 & H1 & H).
    apply option_case_ok in H1.
    destruct H1 as (-> & Nh & Nq & Sp & Sd & Sc & Sq & Si & Sw & Ss & So & Spp & Scc).
    apply IH in H.
    destruct H as (-> & Gh & Gq & Hp & Hd & Hc & Hq & Hi & Hw & Hs & Ho & Hpp & Hcc).
    rewrite !given_cons, destinations_cons, Nh, Nq, Gh, Gq.
    split; [reflexivity|]. split; [reflexivity|]. split; [reflexivity|].
    split.
    { destruct (Ascii.eqb opt NONOPT).
      - destruct Sp as [Sp0 Sp1]. right. exists a.
        destruct Hp as [[Hp0 Hp1]|(p & Hp0 & Hp1 & Hp2)]; [|congruence].
        rewrite Hp0, Hp1. auto.
      - rewrite <- Sp. exact Hp. }
    split; [rewrite Hd, Sd, orb_assoc; reflexivity|].
    split; [rewrite Hc, Sc, orb_assoc; reflexivity|].
    split; [rewrite Hq, Sq, orb_assoc; reflexivity|].
    repeat split; eapply assigned_cons; eassumption.
Qed.

(** X8. What a command line that [parse_options] accepts looks like, and
    what the globals are afterwards. Nothing was printed; there were at
    least two arguments, no [-h] and no option unknown to [getopt]; exactly
    one destination was given, and it is the path. [-D], [-C] and [-q] set
    their flag, which is clear otherwise. The interval, deadline, size,
    offset, period and count have their initial value (one second, none,
    512, 0, none, none) unless the option was given, and then the value of
    its last occurrence: parsed by [parse_time] for [-i] and [-w], by
    [parse_size] for [-s] and [-o], by [parse_int] and cut to an [int] for
    [-p] and [-c]. *)
Theorem parse_options_ok argc gs g w w' :
  parse_options strtod argc gs w = (Ok g, w') ->
  w' = w /\ 2 <= argc /\ given "h" gs = false /\ given "?" gs = false /\
  (exists p, destinations gs = [p] /\ opt_path g = Some p) /\
  opt_direct g = given "D" gs /\
  opt_cached g = given "C" gs /\
  opt_quiet g = given "q" gs /\
  assigned (parse_time strtod) (fun r => r) "i" gs 1000000 (opt_interval g) w /\
  assigned (parse_time strtod) (fun r => r) "w" gs 0 (opt_deadline g) w /\
  assigned (parse_size strtod) (fun r => r) "s" gs 512 (opt_size g) w /\
  assigned (parse_size strtod) (fun r => r) "o" gs 0 (opt_offset g) w /\
  assigned (parse_int strtod) wrap32 "p" gs 0 (opt_period g) w /\
  assigned (parse_int strtod) wrap32 "c" gs 0 (opt_count g) w.
Proof.
  unfold parse_options. intros H.
  apply bind_ok in H. destruct H as ([] & w0 & H0 & H).
  destruct (argc <? 2) eqn:Ea; [discriminate H0|]. inv H0.
  apply Z.ltb_ge in Ea.
  apply bind_ok in H. destruct H as (g1 & w1 & H1 & H).
  apply getopt_loop_ok in H1.
  destruct H1 as (-> & Gh & Gq & Hp & Hd & Hc & Hq & Hrest).
  destruct (opt_path g1) as [p|] eqn:Ep; [|discriminate H]. inv H.
  split; [reflexivity|]. split; [exact Ea|]. split; [exact Gh|]. split; [exact Gq|].
  split.
  { destruct Hp as [[Hp0 Hp1]|(p' & Hp0 & _ & Hp1)].
    - discriminate Hp1.
    - exists p'. split; [exact Hp0 | congruence]. }
  split; [exact Hd|]. split; [exact Hc|]. split; [exact Hq|]. exact Hrest.
Qed.

End CommandLine.

Lemma parse_options_ok_witness :
  exists g,
    parse_options strtod_digits 5
      [("c"%char, "3"); ("q"%char, ""); (NONOPT, "/tmp"); ("c"%char, "7k")]%string
      world_sigint = (Ok g, world_sigint) /\
    opt_path g = Some "/tmp"%string /\
    opt_quiet g = true /\ opt_direct g = false /\
    opt_count g = 7000 /\ opt_interval g = 1000000.
Proof.
  destruct (parse_options strtod_digits 5
              [("c"%char, "3"); ("q"%char, ""); (NONOPT, "/tmp"); ("c"%char, "7k")]%string
              world_sigint) as [[g|r] w'] eqn:E.
  - destruct (parse_options_ok strtod_digits _ _ _ _ _ E)
      as (Ew & _ & _ & _ & (p & Hd & Hp) & Hdi & _ & Hq & Hi & _ & _ & _ & _ & Hc).
    exists g. subst w'. split; [reflexivity|].
    split; [rewrite Hp; f_equal; injection Hd; intros <-; reflexivity|].
    split; [exact Hq|]. split; [exact Hdi|].
    destruct Hc as (r & Hr & ->). vm_compute in Hr. inv Hr.
    split; [reflexivity | exact Hi].
  - vm_compute in E. discriminate E.
Defined.

Section Accepted.
Variable strtod : string -> double * string.

Lemma bind_value (parse : string -> M Z) (k : Z -> globals) a w :
  (exists r, parse a w = (Ok r, w)) ->
  exists r, bind (parse a) (fun v => ret (k v)) w = (Ok (k r), w).
Proof. intros (r & Hr). exists r. unfold bind. rewrite Hr. reflexivity. Qed.

Lemma getopt_loop_accepts w gs : forall g0,
  given "h" gs = false -> given "?" gs = false ->
  Forall (arg_ok strtod w) gs ->
  (List.length (destinations gs) <= 1)%nat ->
  opt_path g0 = None \/ destinations gs = [] ->
  exists g,
    getopt_loop strtod gs g0 w = (Ok g, w) /\
    opt_path g = match destinations gs with [] => opt_path g0 | p :: _ => Some p end.
Proof.
  induction gs as [|[o a] gs IH]; intros g0 Hh Hq Ha Hl Hp.
  - exists g0. split; reflexivity.
  - rewrite given_cons in Hh, Hq.
    apply orb_false_iff in Hh. destruct Hh as [Hh Hh'].
    apply orb_false_iff in Hq. destruct Hq as [Hq Hq'].
    inversion Ha as [|? ? Hx Ha']; subst.
    unfold arg_ok in Hx. destruct Hx as (At & As & Ai).
    rewrite destinations_cons in *.
    assert (Next : forall g1,
               option_case strtod o a g0 w = (Ok g1, w) ->
               (if Ascii.eqb o NONOPT then opt_path g1 = Some a
                else opt_path g1 = opt_path g0) ->
               exists g,
                 getopt_loop strtod ((o, a) :: gs) g0 w = (Ok g, w) /\
                 opt_path g = match (if Ascii.eqb o NONOPT then a :: destinations gs
                                     else destinations gs) with
                              | [] => opt_path g0
                              | p :: _ => Some p
                              end).
    { intros g1 H1 P1. cbn [getopt_loop]. unfold bind at 1. rewrite H1.
      destruct (Ascii.eqb o NONOPT).
      - cbn [List.length] in Hl.
        assert (D : destinations gs = []) by (destruct (destinations gs); [reflexivity | cbn in Hl; lia]).
        destruct (IH g1 Hh' Hq' Ha') as (g & Hg & Pg).
        + rewrite D. cbn. lia.
        + right. exact D.
        + exists g. split; [exact Hg|]. rewrite Pg, D. exact P1.
      - destruct (IH g1 Hh' Hq' Ha' Hl) as (g & Hg & Pg).
        + rewrite P1. exact Hp.
        + exists g. split; [exact Hg|]. rewrite Pg, P1. reflexivity. }
    unfold option_case in Next. rewrite Hh in Next.
    repeat match type of Next with
           | context [if Ascii.eqb o ?c then _ else _] =>
               lazymatch c with
               | NONOPT => fail
               | _ =>
                   let E := fresh "E" in
                   destruct (Ascii.eqb o c) eqn:E;
                   [apply Ascii.eqb_eq in E; subst o;
                    cbn [Ascii.eqb Bool.eqb NONOPT ascii_of_N ascii_of_pos] in Next |]
               end
           end.
    all: try discriminate Hq.
    all: try (apply (Next _ eq_refl); reflexivity).
    + destruct (bind_value (parse_time strtod) (fun v => set_interval v g0) a w) as (r & Hr);
        [apply At; left; reflexivity|].
      apply (Next _ Hr). reflexivity.
    + destruct (bind_value (parse_time strtod) (fun v => set_deadline v g0) a w) as (r & Hr);
        [apply At; right; reflexivity|].
      apply (Next _ Hr). reflexivity.
    + destruct (bind_value (parse_size strtod) (fun v => set_size v g0) a w) as (r & Hr);
        [apply As; left; reflexivity|].
      apply (Next _ Hr). reflexivity.
    + destruct (bind_value (parse_size strtod) (fun v => set_offset v g0) a w) as (r & Hr);
        [apply As; right; reflexivity|].
      apply (Next _ Hr). reflexivity.
    + destruct (bind_value (parse_int strtod) (fun v => set_period (wrap32 v) g0) a w)
        as (r & Hr); [apply Ai; left; reflexivity|].
      apply (Next _ Hr). reflexivity.
    + destruct (bind_value (parse_int strtod) (fun v => set_count (wrap32 v) g0) a w)
        as (r & Hr); [apply Ai; right; reflexivity|].
      apply (Next _ Hr). reflexivity.
    + destruct (Ascii.eqb o NONOPT) eqn:En.
      * destruct Hp as [Hp|Hp]; [|discriminate Hp].
        rewrite Hp in Next. apply (Next _ eq_refl). reflexivity.
      * apply (Next _ eq_refl). reflexivity.
Qed.

(** X14. Every well-formed command line is accepted: with at least two
    arguments, no [-h], no option unknown to [getopt], exactly one
    destination, and option values that all can be parsed, [parse_options]
    returns, prints nothing, and the path is that destination. *)
Theorem parse_options_accepts argc gs p w :
  2 <= argc -> given "h" gs = false -> given "?" gs = false ->
  destinations gs = [p] -> Forall (arg_ok strtod w) gs ->
  exists g, parse_options strtod argc gs w = (Ok g, w) /\ opt_path g = Some p.
Proof.
  intros Ha Hh Hq Hd Hok. unfold parse_options.
  replace (argc <? 2) with false by (symmetry; apply Z.ltb_ge; exact Ha).
  destruct (getopt_loop_accepts w gs initial_globals Hh Hq Hok) as (g & Hg & Pg).
  - rewrite Hd. cbn. lia.
  - left. reflexivity.
  - rewrite Hd in Pg. exists g. unfold bind at 1. cbn. unfold bind. rewrite Hg, Pg.
    split; reflexivity.
Qed.

End Accepted.

Lemma parse_options_accepts_witness :
  exists g,
    parse_options strtod_digits 4
      [("c"%char, "3"%string); (NONOPT, "/tmp"%string); ("i"%char, "2ms"%string)]
      world_sigint = (Ok g, world_sigint) /\
    opt_path g = Some "/tmp"%string.
Proof.
  apply (parse_options_accepts strtod_digits 4 _ "/tmp" world_sigint).
  - lia.
  - reflexivity.
  - reflexivity.
  - reflexivity.
  - repeat constructor; intros [E|E]; try discriminate E; eexists; vm_compute; reflexivity.
Defined.

(** ** More on what a run does and prints *)

Lemma prepared_skip e tr :
  is_request e = false -> prepared (e :: tr) = prepared tr.
Proof. destruct e; cbn; intros; reflexivity || discriminate. Qed.

Lemma prepared_window l tr : prepared (ev_window l :: tr) = prepared tr.
Proof. destruct l as [[[a b] c] d]. reflexivity. Qed.

Lemma fadvise_window l : is_fadvise (ev_window l) = false.
Proof. destruct l as [[[a b] c] d]. reflexivity. Qed.

Lemma print_window l : is_print (ev_window l) = true.
Proof. destruct l as [[[a b] c] d]. reflexivity. Qed.

#[local] Hint Rewrite prepared_window fadvise_window print_window : events.

(** X9. Unless [-C] is given, every read of a run is issued right after
    the first of its two clock readings, and that one right after a
    [posix_fadvise] that returned 0: the cache is invalidated before each
    read and the invalidation is not part of the time measured. With [-C]
    [posix_fadvise] is never called. This holds however the run ends. *)
Theorem cache_dropped_before_every_read c clk sigs fadv prd :
  let tr := trace (snd (main c (boot clk sigs fadv prd))) in
  (cached c = false -> prepared tr = true) /\
  (cached c = true -> existsb is_fadvise tr = false).
Proof.
  intros tr. subst tr. split; intros Hc.
  - set (J := fun w => prepared (trace w) = true).
    assert (T : triple J (main c) (fun _ => J) (fun _ => J)).
    { apply main_triple.
      - intros [ck sg fa pr ex tr] Hw. unfold J in *. cbn [trace] in *.
        destruct (now _) as [[?|?] ?] eqn:H; all_paths H; cbn [trace];
          rewrite ?prepared_skip by reflexivity; exact Hw.
      - intros dl v [ck sg fa pr ex tr] Hw. unfold J in *. cbn [trace] in *.
        destruct (loop_head _ _ _ _) as [[?|?] ?] eqn:H; all_paths H; cbn [trace];
          rewrite ?prepared_skip by reflexivity; exact Hw.
      - intros v [ck sg fa pr ex tr] Hw. unfold J in *. cbn [trace] in *.
        destruct (body _ _ _) as [[?|?] ?] eqn:H.
        all: unfold_io H; rewrite Hc in H; cbn in H; repeat step_run H; inv H; cbn [trace].
        all: autorewrite with events.
        all: repeat (rewrite prepared_skip by reflexivity); autorewrite with events.
        all: repeat (rewrite prepared_skip by reflexivity).
        all: try exact Hw.
        all: bool_facts; subst; cbn [prepared];
          repeat (rewrite prepared_skip by reflexivity); exact Hw.
      - intros w Hw. exact Hw.
      - intros t0 v [ck sg fa pr ex tr] Hw. unfold J in *. cbn [trace] in *.
        destruct (finalize _ _ _ _) as [[?|?] ?] eqn:H; all_paths H; cbn [trace];
          repeat (rewrite prepared_skip by reflexivity); exact Hw. }
    specialize (T (boot clk sigs fadv prd) eq_refl).
    destruct (main c (boot clk sigs fadv prd)) as [[sm|r] w]; exact T.
  - set (J := fun w => existsb is_fadvise (trace w) = false).
    assert (T : triple J (main c) (fun _ => J) (fun _ => J)).
    { apply main_triple.
      - intros [ck sg fa pr ex tr] Hw. unfold J in *. cbn [trace] in *.
        destruct (now _) as [[?|?] ?] eqn:H; all_paths H; cbn [trace existsb is_fadvise orb];
          exact Hw.
      - intros dl v [ck sg fa pr ex tr] Hw. unfold J in *. cbn [trace] in *.
        destruct (loop_head _ _ _ _) as [[?|?] ?] eqn:H; all_paths H;
          cbn [trace existsb is_fadvise orb]; exact Hw.
      - intros v [ck sg fa pr ex tr] Hw. unfold J in *. cbn [trace] in *.
        destruct (body _ _ _) as [[?|?] ?] eqn:H.
        all: unfold_io H; rewrite Hc in H; cbn in H; repeat step_run H; inv H.
        all: cbn [trace existsb is_fadvise orb]; autorewrite with events;
          cbn [existsb is_fadvise orb]; exact Hw.
      - intros w Hw. exact Hw.
      - intros t0 v [ck sg fa pr ex tr] Hw. unfold J in *. cbn [trace] in *.
        destruct (finalize _ _ _ _) as [[?|?] ?] eqn:H; all_paths H;
          cbn [trace existsb is_fadvise orb]; exact Hw. }
    specialize (T (boot clk sigs fadv prd) eq_refl).
    destruct (main c (boot clk sigs fadv prd)) as [[sm|r] w]; exact T.
Qed.

Lemma cache_dropped_before_every_read_witness :
  prepared (trace (snd (main (cfg false 2 3) (world_of [10; 20; 30])))) = true /\
  requests_issued (trace (snd (main (cfg false 2 3) (world_of [10; 20; 30])))) = 3.
Proof.
  split.
  - change (world_of [10; 20; 30])
      with (boot (Some 0 :: clock_of 5 [10; 20; 30]) [] [0; 0; 0]
                 [(512, 0); (512, 0); (512, 0)]).
    apply (proj1 (cache_dropped_before_every_read (cfg false 2 3) _ _ _ _)). reflexivity.
  - vm_compute. reflexivity.
Defined.

(** X10. With [-q] and no [-p] a run prints nothing at all on standard
    output, however it ends: no per-request line, no raw statistics line
    and no summary. *)
Theorem quiet_without_period_is_silent c clk sigs fadv prd :
  quiet c = true -> period c = 0 ->
  existsb is_print (trace (snd (main c (boot clk sigs fadv prd)))) = false.
Proof.
  intros Hq Hp.
  set (J := fun w => existsb is_print (trace w) = false).
  assert (T : triple J (main c) (fun _ => J) (fun _ => J)).
  { apply main_triple.
    - intros [ck sg fa pr ex tr] Hw. unfold J in *. cbn [trace] in *.
      destruct (now _) as [[?|?] ?] eqn:H; all_paths H; cbn [trace existsb]; exact Hw.
    - intros dl v [ck sg fa pr ex tr] Hw. unfold J in *. cbn [trace] in *.
      destruct (loop_head _ _ _ _) as [[?|?] ?] eqn:H; all_paths H; cbn [trace existsb];
        exact Hw.
    - intros v [ck sg fa pr ex tr] Hw. unfold J in *. cbn [trace] in *.
      destruct (body _ _ _) as [[?|?] ?] eqn:H.
      all: unfold_io H; rewrite Hq, Hp in H; cbn in H; repeat step_run H; inv H.
      all: cbn [trace existsb]; exact Hw.
    - intros w Hw. exact Hw.
    - intros t0 v [ck sg fa pr ex tr] Hw. unfold J in *. cbn [trace] in *.
      destruct (finalize _ _ _ _) as [[?|?] ?] eqn:H.
      all: unfold_io H; rewrite Hq in H; cbn in H; repeat step_run H; inv H.
      all: cbn [trace existsb]; exact Hw. }
  specialize (T (boot clk sigs fadv prd) eq_refl).
  destruct (main c (boot clk sigs fadv prd)) as [[sm|r] w]; exact T.
Qed.

Lemma quiet_without_period_is_silent_witness :
  existsb is_print (trace (snd (main (cfg true 0 3) (world_of [10; 20; 30])))) = false /\
  requests_issued (trace (snd (main (cfg true 0 3) (world_of [10; 20; 30])))) = 3.
Proof.
  split.
  - change (world_of [10; 20; 30])
      with (boot (Some 0 :: clock_of 5 [10; 20; 30]) [] [0; 0; 0]
                 [(512, 0); (512, 0); (512, 0)]).
    apply (quiet_without_period_is_silent (cfg true 0 3) _ _ _ _); reflexivity.
  - vm_compute. reflexivity.
Defined.

(** ** The mount table *)

Lemma strchr_length s c sep :
  strchr s c = Some sep -> (String.length sep <= String.length s)%nat.
Proof.
  revert sep. induction s as [|x s IH]; intros sep H; cbn in H; [discriminate|].
  destruct (Ascii.eqb x c).
  - inv H. apply Nat.le_refl.
  - apply IH in H. cbn [String.length]. lia.
Qed.

Lemma strndup_to_self s : strndup_to s s = EmptyString.
Proof. unfold strndup_to. rewrite Nat.sub_diag. destruct s; reflexivity. Qed.

Lemma strndup_to_cons x s sep :
  (String.length sep <= String.length s)%nat ->
  strndup_to (String x s) sep = String x (strndup_to s sep).
Proof.
  intros H. unfold strndup_to. cbn [String.length].
  replace (S (String.length s) - String.length sep)%nat
    with (S (String.length s - String.length sep)) by lia.
  reflexivity.
Qed.

(** What is copied up to the first [c] holds no [c]. *)
Lemma strndup_to_free ptr c sep :
  strchr ptr c = Some sep -> strchr (strndup_to ptr sep) c = None.
Proof.
  induction ptr as [|x ptr IH]; intros H; cbn in H; [discriminate|].
  destruct (Ascii.eqb x c) eqn:E.
  - inv H. rewrite strndup_to_self. reflexivity.
  - rewrite strndup_to_cons by (eapply strchr_length; eassumption).
    cbn [strchr]. rewrite E. exact (IH H).
Qed.

Lemma length_append a b :
  String.length (a ++ b) = (String.length a + String.length b)%nat.
Proof. induction a as [|x a IH]; cbn; [reflexivity | rewrite IH; reflexivity]. Qed.

Lemma strndup_to_append a b : strndup_to (a ++ b) b = a.
Proof.
  induction a as [|x a IH].
  - apply strndup_to_self.
  - cbn [append]. rewrite strndup_to_cons by (rewrite length_append; lia).
    rewrite IH. reflexivity.
Qed.

(** The first [c] of a string whose beginning has none. *)
Lemma strchr_append a c rest :
  strchr a c = None ->
  strchr (a ++ String c rest) c = Some (String c rest).
Proof.
  induction a as [|x a IH]; intros H; cbn in *.
  - rewrite Ascii.eqb_refl. reflexivity.
  - destruct (Ascii.eqb x c); [discriminate|]. exact (IH H).
Qed.

Lemma starts_with_boundary pre rest :
  starts_with "- " (pre ++ " -") = starts_with "- " (pre ++ " - " ++ rest).
Proof. destruct pre as [|a [|b pre]]; reflexivity. Qed.

Lemma strstr_cons x s pat :
  strstr (String x s) pat
  = if starts_with pat (String x s) then Some (String x s) else strstr s pat.
Proof. reflexivity. Qed.

Lemma starts_with_cons x a pat s :
  starts_with (String a pat) (String x s) = Ascii.eqb x a && starts_with pat s.
Proof. reflexivity. Qed.

(** The first separator of a line that has none before. *)
Lemma strstr_separator pre rest :
  strstr (pre ++ " -") " - " = None ->
  strstr (pre ++ " - " ++ rest) " - " = Some (" - " ++ rest)%string.
Proof.
  induction pre as [|x pre IH]; intros H.
  - reflexivity.
  - change (String x pre ++ " -")%string with (String x (pre ++ " -")) in H.
    change (String x pre ++ " - " ++ rest)%string with (String x (pre ++ " - " ++ rest)).
    rewrite strstr_cons in *.
    rewrite (starts_with_cons x " " "- ") in *.
    rewrite <- starts_with_boundary.
    destruct (Ascii.eqb x " " && starts_with "- " (pre ++ " -")); [discriminate|].
    exact (IH H).
Qed.

Lemma strchr_space a rest :
  strchr a " " = None -> strchr (a ++ " " ++ rest) " " = Some (" " ++ rest)%string.
Proof. exact (strchr_append a " " rest). Qed.

Lemma advance_separator s : advance 3 (" - " ++ s) = s.
Proof. reflexivity. Qed.

Lemma advance_space s : advance 1 (" " ++ s) = s.
Proof. reflexivity. Qed.

(** The two fields after the separator of a well-formed line. *)
Lemma parse_mount_line_fields pre fs dv rest names :
  strstr (pre ++ " -") " - " = None ->
  strchr fs " " = None -> strchr dv " " = None ->
  parse_mount_line (pre ++ " - " ++ fs ++ " " ++ dv ++ " " ++ rest) names = (fs, dv).
Proof.
  intros Hpre Hfs Hdv. unfold parse_mount_line.
  rewrite strstr_separator by exact Hpre.
  rewrite advance_separator, (strchr_space fs) by exact Hfs.
  rewrite advance_space, (strchr_space dv) by exact Hdv.
  rewrite !strndup_to_append. reflexivity.
Qed.

Section MountTable.
Variable sscanf_dev : string -> option Z * option Z.
Variable makedev : Z -> Z -> Z.

Lemma mount_loop_skips skipped : forall major minor dev names lines,
  Forall (fun l => exists x y, sscanf_dev l = (Some x, Some y) /\ makedev x y <> dev) skipped ->
  mount_loop sscanf_dev makedev (skipped ++ lines) major minor dev names
  = match skipped with
    | [] => mount_loop sscanf_dev makedev lines major minor dev names
    | _ => mount_loop sscanf_dev makedev lines
             (fst (sscanf_dev (last skipped EmptyString)))
             (snd (sscanf_dev (last skipped EmptyString))) dev names
    end.
Proof.
  induction skipped as [|l skipped IH]; intros major minor dev names lines H.
  - reflexivity.
  - inversion H as [|? ? (x & y & Hs & Hd) Hrest]; subst.
    cbn [app mount_loop]. rewrite Hs.
    replace (makedev x y =? dev) with false by (symmetry; apply Z.eqb_neq; exact Hd).
    rewrite (IH (Some x) (Some y) dev names lines Hrest).
    destruct skipped as [|l' skipped']; [cbn [last]; rewrite Hs; reflexivity|].
    reflexivity.
Qed.

(** X11. [parse_device] finds the mount of the device: when the lines of
    the mount table before the first one for [dev] are for other devices,
    and that line reads [... - fstype device ...] with single spaces
    around the two fields and no separator [ - ] earlier in the line, the
    result is that file system type and that device, whatever the lines
    after it and whatever the names were before. *)
Theorem parse_device_finds_mount skipped pre fs dv rest later dev x y names :
  Forall (fun l => exists x y, sscanf_dev l = (Some x, Some y) /\ makedev x y <> dev) skipped ->
  let line := (pre ++ " - " ++ fs ++ " " ++ dv ++ " " ++ rest)%string in
  sscanf_dev line = (Some x, Some y) -> makedev x y = dev ->
  strstr (pre ++ " -") " - " = None ->
  strchr fs " " = None -> strchr dv " " = None ->
  parse_device sscanf_dev makedev (Some (skipped ++ line :: later)) dev names
  = Some (fs, dv).
Proof.
  intros Hsk line Hs Hd Hpre Hfs Hdv. unfold parse_device.
  rewrite mount_loop_skips by exact Hsk.
  assert (G : forall major minor,
             mount_loop sscanf_dev makedev (line :: later) major minor dev names
             = Some (fs, dv)).
  { intros major minor. cbn [mount_loop]. rewrite Hs.
    replace (makedev x y =? dev) with true by (symmetry; apply Z.eqb_eq; exact Hd).
    unfold line. rewrite parse_mount_line_fields by assumption. reflexivity. }
  destruct skipped; apply G.
Qed.

Lemma parse_mount_line_free buf f0 d0 :
  strchr f0 " " = None -> strchr d0 " " = None ->
  strchr (fst (parse_mount_line buf (f0, d0))) " " = None /\
  strchr (snd (parse_mount_line buf (f0, d0))) " " = None.
Proof.
  intros Hf Hd. unfold parse_mount_line.
  destruct (strstr buf " - ") as [ptr|]; [|split; assumption].
  destruct (strchr (advance 3 ptr) " ") as [sep|] eqn:E1; [|split; assumption].
  apply strndup_to_free in E1.
  destruct (strchr (advance 1 sep) " ") as [sep'|] eqn:E2.
  - apply strndup_to_free in E2. split; assumption.
  - split; assumption.
Qed.

(** X12. Whatever the mount table holds, the file system type and the
    device name that [parse_device] leaves contain no space (given that the
    names it started from contain none, as the initial empty strings). *)
Theorem parse_device_names_have_no_space mountinfo dev f0 d0 f d :
  strchr f0 " " = None -> strchr d0 " " = None ->
  parse_device sscanf_dev makedev mountinfo dev (f0, d0) = Some (f, d) ->
  strchr f " " = None /\ strchr d " " = None.
Proof.
  intros Hf Hd. unfold parse_device.
  destruct mountinfo as [lines|]; [|intros H; inv H; split; assumption].
  generalize (@None Z) at 1. generalize (@None Z).
  induction lines as [|buf lines IH]; intros minor major H; cbn [mount_loop] in H.
  - inv H. split; assumption.
  - destruct (sscanf_dev buf) as [ma mi].
    match type of H with
    | match ?a with Some _ => _ | None => _ end = _ => destruct a as [x|]; [|discriminate]
    end.
    match type of H with
    | match ?a with Some _ => _ | None => _ end = _ => destruct a as [y|]; [|discriminate]
    end.
    destruct (makedev x y =? dev).
    + pose proof (parse_mount_line_free buf f0 d0 Hf Hd) as P.
      inv H. rewrite H1 in P. exact P.
    + exact (IH _ _ H).
Qed.

End MountTable.

Lemma parse_device_finds_mount_witness :
  parse_device sscanf_digits gnu_makedev (Some sample_mountinfo) 2049
               (EmptyString, EmptyString)
  = Some ("ext4"%string, "/dev/sda1"%string).
Proof.
  apply (parse_device_finds_mount sscanf_digits gnu_makedev
           ["21 35 0:5 / /proc rw - proc proc rw"%string]
           "36 35 8:1 / / rw shared:1" "ext4" "/dev/sda1" "rw,errors=remount-ro"
           ["40 35 8:1 / /mnt rw - xfs /dev/other rw"%string] 2049 8 1).
  - constructor; [|constructor]. exists 0, 5. split; [reflexivity | vm_compute; discriminate].
  - reflexivity.
  - reflexivity.
  - reflexivity.
  - reflexivity.
  - reflexivity.
Defined.

Lemma parse_device_names_have_no_space_witness :
  strchr "ext4" " " = None /\ strchr "/dev/sda1" " " = None.
Proof.
  apply (parse_device_names_have_no_space sscanf_digits gnu_makedev
           (Some sample_mountinfo) 2049 EmptyString EmptyString); reflexivity.
Defined.
